(** * ccc: deduplicating accumulator and day-partitioned history store

    A shallow embedding of the ingestion core of [ccc] (package [main]:
    the accumulator goroutine of [main], [saveToHistory], and the history
    store of [history.go]) together with the properties its specification
    states about them.

    Conventions.
    - Go's [int] and [int64] are [Z] with the 64-bit two's-complement
      wrap-around written out ([wrap64]).
    - Go's [float64] is Rocq's primitive binary64 [float]; [+] is
      [PrimFloat.add] and [>] is [PrimFloat.ltb] with swapped arguments.
    - Go's [string] and [[]byte] are [string] (a list of 8-bit characters).
    - A [map[string]T] is a [gmap string T]; a [map[string]bool] used as a
      set is a [gset string].
    - [*string] is [option string]. *)

From Stdlib Require Import ZArith List Ascii String Floats Lia Bool Permutation.
From Stdlib Require Import OrderedTypeEx.
From stdpp Require Import base option list gmap sets strings.

Local Open Scope Z_scope.

(** ** Machine integers *)

Module GoInt.

Definition two63 : Z := 2 ^ 63.
Definition two64 : Z := 2 ^ 64.

(** Reduction of a mathematical integer to the signed 64-bit range. *)
Definition wrap64 (z : Z) : Z := (z + two63) mod two64 - two63.

Definition in_range (z : Z) : Prop := - two63 <= z < two63.

(** [a + b] on Go's [int]. *)
Definition add (a b : Z) : Z := wrap64 (a + b).

End GoInt.

(** ** float64 *)

Module F64.

Local Open Scope float_scope.

(** Go's [x > y] on float64. *)
Definition gt (x y : float) : bool := y <? x.

(** The one value on which [x + 0] is not [x]: negative zero. *)
Definition is_neg_zero (x : float) : bool :=
  match Prim2SF x with S754_zero true => true | _ => false end.

End F64.

(** ** Strings: the functions of [strings], [strconv] and [path/filepath]
    the history store calls *)

Module Strs.

Local Open Scope string_scope.

Definition dash : ascii := "-"%char.
Definition slash : ascii := "/"%char.
Definition newline : ascii := "010"%char.
Definition carriageReturn : ascii := "013"%char.

(** [len(s)] as a [Z]. *)
Definition len (s : string) : Z := Z.of_nat (String.length s).

(** [strings.HasPrefix] and [strings.HasSuffix]. *)
Fixpoint HasPrefix (s pre : string) : bool :=
  match pre, s with
  | "", _ => true
  | String c pre', String d s' => Ascii.eqb c d && HasPrefix s' pre'
  | String _ _, "" => false
  end.

Fixpoint reverse (s acc : string) : string :=
  match s with
  | "" => acc
  | String c s' => reverse s' (String c acc)
  end.

Definition HasSuffix (s suf : string) : bool :=
  HasPrefix (reverse s "") (reverse suf "").

(** Whether byte [c] occurs in [s]. *)
Fixpoint hasByte (c : ascii) (s : string) : bool :=
  match s with
  | "" => false
  | String d s' => Ascii.eqb c d || hasByte c s'
  end.

(** [strings.TrimSuffix]: [s] without the trailing [suf], or [s] itself. *)
Definition TrimSuffix (s suf : string) : string :=
  if HasSuffix s suf
  then substring 0 (String.length s - String.length suf) s
  else s.

(** [strings.Split(s, sep)] for a one-byte separator: the pieces between
    consecutive separators; never the empty list. *)
Fixpoint Split (s : string) (sep : ascii) : list string :=
  match s with
  | "" => [""]
  | String c s' =>
      if Ascii.eqb c sep then "" :: Split s' sep
      else match Split s' sep with
           | cur :: rest => String c cur :: rest
           | [] => [String c ""]
           end
  end.

(** [strings.Join] with separator [sep]. *)
Fixpoint JoinWith (sep : string) (parts : list string) : string :=
  match parts with
  | [] => ""
  | [p] => p
  | p :: rest => p ++ sep ++ JoinWith sep rest
  end.

(** *** strconv *)

Definition digitChar (d : Z) : ascii := ascii_of_nat (48 + Z.to_nat d).

Definition digitVal (c : ascii) : option Z :=
  let n := Z.of_nat (nat_of_ascii c) in
  if (48 <=? n)%Z && (n <=? 57)%Z then Some (n - 48)%Z else None.

(** Decimal digits of [n >= 0], most significant first, put before [acc];
    [fuel] bounds the number of digits. *)
Fixpoint digitsFuel (fuel : nat) (n : Z) (acc : string) : string :=
  match fuel with
  | O => acc
  | S f =>
      let acc' := String (digitChar (n mod 10)) acc in
      if (n <? 10)%Z then acc' else digitsFuel f (n / 10) acc'
  end.

(** An int64 has at most 19 decimal digits. *)
Definition formatUint (n : Z) : string := digitsFuel 20 n "".

(** [strconv.FormatInt(i, 10)]. *)
Definition FormatInt (i : Z) : string :=
  if (i <? 0)%Z then String dash (formatUint (- i)) else formatUint i.

(** The digits of [s] read in base ten on top of [acc]; [None] at a byte
    that is not a digit. *)
Fixpoint parseDigits (s : string) (acc : Z) : option Z :=
  match s with
  | "" => Some acc
  | String c s' =>
      match digitVal c with
      | Some d => parseDigits s' (acc * 10 + d)
      | None => None
      end
  end.

(** [strconv.ParseInt(s, 10, 64)]: an optional sign, then at least one
    digit and only digits; [None] for a syntax or a range error. *)
Definition ParseInt (s : string) : option Z :=
  match s with
  | "" => None
  | String c s' =>
      let '(neg, body) :=
        if Ascii.eqb c "+"%char then (false, s')
        else if Ascii.eqb c dash then (true, s')
        else (false, s) in
      match body with
      | "" => None
      | _ =>
          match parseDigits body 0 with
          | None => None
          | Some un =>
              if neg then (if (un <=? GoInt.two63)%Z then Some (- un)%Z else None)
              else (if (un <? GoInt.two63)%Z then Some un else None)
          end
      end
  end.

(** A string of decimal digits only. *)
Fixpoint allDigits (s : string) : bool :=
  match s with
  | "" => true
  | String c s' =>
      match digitVal c with Some _ => allDigits s' | None => false end
  end.

(** *** path/filepath (Unix) *)

(** Drops the trailing slashes of [s] (kept in reverse). *)
Fixpoint dropLeading (c : ascii) (s : string) : string :=
  match s with
  | String d s' => if Ascii.eqb c d then dropLeading c s' else s
  | "" => ""
  end.

Definition trimRight (c : ascii) (s : string) : string :=
  reverse (dropLeading c (reverse s "")) "".

(** The part of [s] after its last [c] ([s] itself when there is none). *)
Definition afterLast (c : ascii) (s : string) : string :=
  List.last (Split s c) "".

(** [filepath.Base]: the last element of the path; trailing slashes are
    removed first; ["."] for the empty path and ["/"] for a path of
    slashes only. *)
Definition Base (path : string) : string :=
  match path with
  | "" => "."
  | _ =>
      let p := trimRight slash path in
      let b := afterLast slash p in
      match b with
      | "" => "/"
      | _ => b
      end
  end.

(** One step of [filepath.Clean]'s walk over the path elements: [stack]
    holds the kept elements, last first. *)
Definition cleanStep (rooted : bool) (stack : list string) (elem : string)
  : list string :=
  if String.eqb elem "" || String.eqb elem "." then stack
  else if String.eqb elem ".." then
    match stack with
    | top :: below => if String.eqb top ".." then elem :: stack else below
    | [] => if rooted then [] else [elem]
    end
  else elem :: stack.

(** [filepath.Clean]. *)
Definition Clean (path : string) : string :=
  let rooted := HasPrefix path "/" in
  let stack := List.fold_left (cleanStep rooted) (Split path slash) [] in
  let body := JoinWith "/" (List.rev stack) in
  let out := if rooted then String slash body else body in
  match out with
  | "" => "."
  | _ => out
  end.

(** [filepath.Join]: the non-empty elements joined by slashes and cleaned;
    the empty string when there is none. *)
Definition Join (elems : list string) : string :=
  match List.filter (fun e => negb (String.eqb e "")) elems with
  | [] => ""
  | nonempty => Clean (JoinWith "/" nonempty)
  end.

(** [filepath.Dir]: the path up to and including its last slash, cleaned
    (["."] when there is no slash). *)
Definition Dir (path : string) : string :=
  match Split path slash with
  | [] | [_] => Clean ""
  | parts => Clean (JoinWith "/" (List.removelast parts) ++ "/")
  end.

(** A path element that [filepath.Clean] keeps as it is. *)
Definition plainName (name : string) : Prop :=
  name <> "" /\ name <> "." /\ name <> ".." /\
  hasByte slash name = false.

End Strs.

(** ** Time: the part of Go's [time] package the history store uses

    An instant is a count of seconds since the Unix epoch (with its
    nanoseconds) presented in a location.  A location is its table of
    zone transitions, as in Go's [time.Location]: the offset in effect
    before the first transition and then, in increasing order of
    instant, the offset each transition switches to. *)

Module GoTime.

Record Location := mkLocation {
  zoneInit : Z;
  zoneTrans : list (Z * Z)
}.

Definition UTC : Location := mkLocation 0 [].

(** [time.FixedZone]: a location with one offset and no transition. *)
Definition FixedZone (offset : Z) : Location := mkLocation offset [].

Definition alpha : Z := - 2 ^ 63.
Definition omega : Z := 2 ^ 63 - 1.

(** [Location.lookup]: the offset in effect at [sec] and the period
    [[start, end)] over which it is in effect. *)
Fixpoint lookupFrom (off start : Z) (tx : list (Z * Z)) (sec : Z) : Z * Z * Z :=
  match tx with
  | [] => (off, start, omega)
  | (when, off') :: rest =>
      if sec <? when then (off, start, when) else lookupFrom off' when rest sec
  end.

Definition lookup (l : Location) (sec : Z) : Z * Z * Z :=
  lookupFrom (zoneInit l) alpha (zoneTrans l) sec.

Record Time := mkTime {
  unixSec : Z;
  nsec : Z;
  location : Location
}.

Definition secondsPerDay : Z := 86400.

(** Days since 1970-01-01 of a date of the proleptic Gregorian calendar
    ([month] in 1..12; [day] may lie outside the month and then counts on
    into the neighbouring months). *)
Definition daysFromCivil (year month day : Z) : Z :=
  let y := if month <=? 2 then year - 1 else year in
  let era := y / 400 in
  let yoe := y - era * 400 in
  let mp := if 2 <? month then month - 3 else month + 9 in
  let doy := (153 * mp + 2) / 5 + day - 1 in
  let doe := yoe * 365 + yoe / 4 - yoe / 100 + doy in
  era * 146097 + doe - 719468.

(** The date of a day count. *)
Definition civilFromDays (z : Z) : Z * Z * Z :=
  let z' := z + 719468 in
  let era := z' / 146097 in
  let doe := z' - era * 146097 in
  let yoe := (doe - doe / 1460 + doe / 36524 - doe / 146096) / 365 in
  let doy := doe - (365 * yoe + yoe / 4 - yoe / 100) in
  let mp := (5 * doy + 2) / 153 in
  let d := doy - (153 * mp + 2) / 5 + 1 in
  let m := if mp <? 10 then mp + 3 else mp - 9 in
  let y := yoe + era * 400 + (if m <=? 2 then 1 else 0) in
  (y, m, d).

(** The seconds since the epoch that [t] shows on the wall clock of its
    location. *)
Definition wallSec (t : Time) : Z :=
  unixSec t + fst (fst (lookup (location t) (unixSec t))).

(** [t.Date()]. *)
Definition Date_of (t : Time) : Z * Z * Z :=
  civilFromDays (wallSec t / secondsPerDay).

(** [t.Clock()], as seconds into the day. *)
Definition Clock_of (t : Time) : Z := wallSec t mod secondsPerDay.

(** [time.Date(year, month, day, 0, 0, sec, 0, loc)]: months outside
    1..12 carry into the year, days and seconds carry on; the wall
    clock reading is turned into an instant with the offset found at the
    reading taken as UTC, looked up once more when the result falls
    outside that offset's period. *)
Definition Date (year month day sec : Z) (loc : Location) : Time :=
  let m0 := month - 1 in
  let y := year + m0 / 12 in
  let m := m0 mod 12 + 1 in
  let unix := (daysFromCivil y m 1 + (day - 1)) * secondsPerDay + sec in
  let '(offset, start, end_) := lookup loc unix in
  let unix' :=
    if offset =? 0 then unix
    else
      let utc := unix - offset in
      let offset' :=
        if (utc <? start) || (end_ <=? utc)
        then fst (fst (lookup loc utc)) else offset in
      unix - offset' in
  mkTime unix' 0 loc.

(** [t.AddDate(0, 0, days)]. *)
Definition AddDate (t : Time) (days : Z) : Time :=
  let '(y, m, d) := Date_of t in
  let t' := Date y m (d + days) (Clock_of t) (location t) in
  mkTime (unixSec t') (nsec t) (location t).


Definition Unix (t : Time) : Z := unixSec t.

(** [t.Before(u)] and [t.After(u)] compare instants. *)
Definition Before (t u : Time) : bool :=
  (unixSec t <? unixSec u) ||
  ((unixSec t =? unixSec u) && (nsec t <? nsec u)).

Definition After (t u : Time) : bool := Before u t.

(** [t.Hour()]. *)
Definition Hour (t : Time) : Z := Clock_of t / 3600.

(** [t.Weekday()], Sunday being 0: the first day of 1970 was a
    Thursday. *)
Definition Weekday (t : Time) : Z := (wallSec t / secondsPerDay + 4) mod 7.

(** [Weekday.String()[:3]]. *)
Definition weekdayShort (d : Z) : string :=
  if d =? 0 then "Sun" else if d =? 1 then "Mon" else if d =? 2 then "Tue"
  else if d =? 3 then "Wed" else if d =? 4 then "Thu" else if d =? 5 then "Fri"
  else "Sat".

(** [t.In(loc)], and so [t.Local()] for the local location. *)
Definition In_ (t : Time) (loc : Location) : Time :=
  mkTime (unixSec t) (nsec t) loc.

Fixpoint zeros (n : nat) : string :=
  match n with
  | O => EmptyString
  | S k => String "0"%char (zeros k)
  end.

(** [appendInt]: [x] in decimal, zero-padded to [width] digits, after a
    minus sign when negative. *)
Definition appendInt (x : Z) (width : nat) : string :=
  let u := Z.abs x in
  let ds := Strs.formatUint u in
  let padded := String.append (zeros (width - String.length ds)) ds in
  if x <? 0 then String Strs.dash padded else padded.

(** [t.Format("2006-01-02")]. *)
Definition FormatDate (t : Time) : string :=
  let '(y, m, d) := Date_of t in
  String.append (appendInt y 4)
    (String Strs.dash (String.append (appendInt m 2)
       (String Strs.dash (appendInt d 2)))).

End GoTime.

(** ** Records and metrics *)

(** [Metrics]: the aggregate of a group. *)
Module Met.

Record Metrics := mkMetrics {
  Cost : float;
  InputTokens : Z;
  OutputTokens : Z;
  CacheReadTokens : Z;
  CacheWriteTokens : Z;
  InputCost : float;
  OutputCost : float;
  CacheReadCost : float;
  CacheWriteCost : float
}.

(** [Metrics{}], Go's zero value. *)
Definition zero : Metrics :=
  mkMetrics 0%float 0 0 0 0 0%float 0%float 0%float 0%float.

(** The merge of [renderTable] and [renderSummary]:
    [totalMetrics.Cost += m.Cost] and so on, field by field. *)
Definition addMetrics (t m : Metrics) : Metrics :=
  mkMetrics
    (Cost t + Cost m)%float
    (GoInt.add (InputTokens t) (InputTokens m))
    (GoInt.add (OutputTokens t) (OutputTokens m))
    (GoInt.add (CacheReadTokens t) (CacheReadTokens m))
    (GoInt.add (CacheWriteTokens t) (CacheWriteTokens m))
    (InputCost t + InputCost m)%float
    (OutputCost t + OutputCost m)%float
    (CacheReadCost t + CacheReadCost m)%float
    (CacheWriteCost t + CacheWriteCost m)%float.

(** [Metrics{Cost: c}]. *)
Definition ofCost (c : float) : Metrics :=
  mkMetrics c 0 0 0 0 0%float 0%float 0%float 0%float.

(** The four token counts of an aggregate. *)
Definition tokens (m : Metrics) : Z * Z * Z * Z :=
  (InputTokens m, OutputTokens m, CacheReadTokens m, CacheWriteTokens m).

(** The five float64 amounts of an aggregate. *)
Definition costs (m : Metrics) : list float :=
  [Cost m; InputCost m; OutputCost m; CacheReadCost m; CacheWriteCost m].

(** A value an [int]-typed, float64-typed struct can hold, with no
    negative zero among its amounts. *)
Definition wf (m : Metrics) : Prop :=
  GoInt.in_range (InputTokens m) /\ GoInt.in_range (OutputTokens m) /\
  GoInt.in_range (CacheReadTokens m) /\ GoInt.in_range (CacheWriteTokens m) /\
  Forall (fun x => F64.is_neg_zero x = false) (costs m).

End Met.

(** [CostRecord]: one priced log line. *)
Module Rec.

Record CostRecord := mkCostRecord {
  UUID : string;
  RequestID : option string;
  Cost : float;
  InputTokens : Z;
  OutputTokens : Z;
  CacheReadTokens : Z;
  CacheWriteTokens : Z;
  InputCost : float;
  OutputCost : float;
  CacheReadCost : float;
  CacheWriteCost : float;
  PricingKey : string;
  Timestamp : string;
  FullTimestamp : GoTime.Time;
  Hour : Z;
  Weekday : string;
  Cwd : string;
  GitBranch : string;
  FromHistory : bool;
  RawLine : string
}.

(** What a record adds to its group. *)
Definition metricsOf (r : CostRecord) : Met.Metrics :=
  Met.mkMetrics (Cost r) (InputTokens r) (OutputTokens r)
    (CacheReadTokens r) (CacheWriteTokens r)
    (InputCost r) (OutputCost r) (CacheReadCost r) (CacheWriteCost r).

End Rec.

(** ** The operating system, as the history store sees it

    A world holds the regular files (path to contents), the directories,
    what [fsync] has put on stable storage, the two environment variables
    [HistoryDir] reads, the warnings logged so far, and a script of
    faults: every system call takes the next entry of the script, [None]
    to proceed and [Some k] to fail (a write fails after [k] of its
    bytes reached the file).  An exhausted script means no further
    fault.  Paths name files literally. *)

Module OS.

Inductive error :=
| ErrNotExist
| ErrIsDir
| ErrNotDir
| ErrIO
| ErrTooLong
| ErrNoHome.

Inductive result (A : Type) :=
| Ok (a : A)
| Err (e : error).

Arguments Ok {A} a.
Arguments Err {A} e.

Definition isOk {A} (r : result A) : bool :=
  match r with Ok _ => true | Err _ => false end.

(** What [log.Printf] is called with. *)
Inductive warning :=
| WarnLoadUUIDs (file : string) (e : error)
| WarnHistoryPath (e : error)
| WarnAppend (file : string) (e : error).

Record Env := mkEnv {
  XDG_DATA_HOME : string;
  HOME : string
}.

Record FS := mkFS {
  files : gmap string string;
  dirs : gset string;
  stable : gmap string string
}.

Record World := mkWorld {
  fs : FS;
  env : Env;
  faults : list (option nat);
  log : list warning
}.

(** Computations on the world. *)
Definition M (A : Type) : Type := World -> A * World.

Definition ret {A} (a : A) : M A := fun w => (a, w).

Definition bind {A B} (c : M A) (k : A -> M B) : M B :=
  fun w => let '(a, w') := c w in k a w'.

Notation "'let!' x ':=' c 'in' k" := (bind c (fun x => k))
  (at level 10, x name, c at level 200, k at level 200).

(** The same, stopping at the first error. *)
Definition andThen {A B} (c : M (result A)) (k : A -> M (result B)) : M (result B) :=
  let! r := c in
  match r with
  | Ok a => k a
  | Err e => ret (Err e)
  end.

Notation "'let?' x ':=' c 'in' k" := (andThen c (fun x => k))
  (at level 10, x name, c at level 200, k at level 200).

Definition getFS : M FS := fun w => (fs w, w).

Definition putFS (f : FS) : M unit :=
  fun w => (tt, mkWorld f (env w) (faults w) (log w)).

Definition getEnv : M Env := fun w => (env w, w).

Definition nextFault : M (option nat) :=
  fun w =>
    match faults w with
    | [] => (None, w)
    | f :: rest => (f, mkWorld (fs w) (env w) rest (log w))
    end.

Definition logWarning (x : warning) : M unit :=
  fun w => (tt, mkWorld (fs w) (env w) (faults w) (log w ++ [x])).

(** The contents of a file; empty for a path that names none. *)
Definition contentOf (f : FS) (path : string) : string :=
  default EmptyString (files f !! path).

(** [path], its directory, the directory of that, and so on up. *)
Fixpoint ancestors (fuel : nat) (path : string) : list string :=
  match fuel with
  | O => [path]
  | S n =>
      let d := Strs.Dir path in
      if String.eqb d path then [path] else path :: ancestors n d
  end.

(** [os.MkdirAll(path, 0755)]. *)
Definition MkdirAll (path : string) : M (result unit) :=
  let! fault := nextFault in
  let! f := getFS in
  match fault with
  | Some _ => ret (Err ErrIO)
  | None =>
      let chain := ancestors (String.length path) path in
      if List.existsb (fun a => bool_decide (a ∈ dom (files f))) chain
      then ret (Err ErrNotDir)
      else
        let! _ := putFS (mkFS (files f) (list_to_set chain ∪ dirs f) (stable f)) in
        ret (Ok tt)
  end.

(** [os.OpenFile(file, O_APPEND|O_CREATE|O_WRONLY, 0644)]; the handle is
    the path. *)
Definition OpenAppend (file : string) : M (result string) :=
  let! fault := nextFault in
  let! f := getFS in
  match fault with
  | Some _ => ret (Err ErrIO)
  | None =>
      if bool_decide (file ∈ dirs f) then ret (Err ErrIsDir)
      else if negb (bool_decide (Strs.Dir file ∈ dirs f)) then ret (Err ErrNotExist)
      else
        match files f !! file with
        | Some _ => ret (Ok file)
        | None =>
            let! _ := putFS (mkFS (<[file := EmptyString]> (files f)) (dirs f) (stable f)) in
            ret (Ok file)
        end
  end.

(** [f.Write(b)] on a file opened with [O_APPEND]: the bytes go to the
    end of the file, all of them or, on a fault, the first [k]. *)
Definition Write (handle : string) (b : string) : M (result unit) :=
  let! fault := nextFault in
  let! f := getFS in
  let old := contentOf f handle in
  match fault with
  | Some k =>
      let! _ := putFS (mkFS (<[handle := String.append old (substring 0 k b)]> (files f))
                          (dirs f) (stable f)) in
      ret (Err ErrIO)
  | None =>
      let! _ := putFS (mkFS (<[handle := String.append old b]> (files f))
                          (dirs f) (stable f)) in
      ret (Ok tt)
  end.

(** [f.Sync()]. *)
Definition Sync (handle : string) : M (result unit) :=
  let! fault := nextFault in
  let! f := getFS in
  match fault with
  | Some _ => ret (Err ErrIO)
  | None =>
      let! _ := putFS (mkFS (files f) (dirs f)
                          (<[handle := contentOf f handle]> (stable f))) in
      ret (Ok tt)
  end.

(** [os.Open(file)]. *)
Definition Open (file : string) : M (result string) :=
  let! fault := nextFault in
  let! f := getFS in
  match files f !! file with
  | None => ret (Err ErrNotExist)
  | Some _ =>
      match fault with
      | Some _ => ret (Err ErrIO)
      | None => ret (Ok file)
      end
  end.

(** The bytes a reader gets out of an open file, and the error that
    ended the reading, if any. *)
Definition ReadAll (handle : string) : M (string * option error) :=
  let! fault := nextFault in
  let! f := getFS in
  let data := contentOf f handle in
  match fault with
  | Some k => ret (substring 0 k data, Some ErrIO)
  | None => ret (data, None)
  end.





(** [os.UserHomeDir()]. *)
Definition UserHomeDir : M (result string) :=
  let! e := getEnv in
  if String.eqb (HOME e) EmptyString then ret (Err ErrNoHome) else ret (Ok (HOME e)).

(** [bufio.Scanner] with [ScanLines] over [data]: the lines, each
    without its newline and without one trailing carriage return, the
    unterminated rest of the data counting as a last line when not
    empty.  Scanning stops with [ErrTooLong] at a line of [maxTokenSize]
    bytes or more. *)
Definition dropCR (line : string) : string :=
  match Strs.reverse line EmptyString with
  | String c rest =>
      if Ascii.eqb c Strs.carriageReturn then Strs.reverse rest EmptyString else line
  | EmptyString => line
  end.

Fixpoint scanTokens (maxTokenSize : Z) (pieces : list string)
  : list string * option error :=
  match pieces with
  | [] => ([], None)
  | [rest] =>
      if (maxTokenSize <=? Strs.len rest)%Z then ([], Some ErrTooLong)
      else if String.eqb rest EmptyString then ([], None)
      else ([dropCR rest], None)
  | line :: more =>
      if (maxTokenSize <=? Strs.len line)%Z then ([], Some ErrTooLong)
      else
        let '(tokens, err) := scanTokens maxTokenSize more in
        (dropCR line :: tokens, err)
  end.

Definition scanLines (maxTokenSize : Z) (data : string)
  : list string * option error :=
  scanTokens maxTokenSize (Strs.Split data Strs.newline).

End OS.

(** ** History file names *)

Module History.

Import Strs.
Local Open Scope string_scope.

(** [HistoryFilename]: [YYYY-MM-DD-<start>-<end>.jsonl] for the day of
    [t] in [t]'s location. *)
Definition HistoryFilename (t : GoTime.Time) : string :=
  let '(y, m, d) := GoTime.Date_of t in
  let startOfDay := GoTime.Date y m d 0 (GoTime.location t) in
  let endOfDay := GoTime.AddDate startOfDay 1 in
  GoTime.FormatDate startOfDay ++ "-" ++
  FormatInt (GoTime.Unix startOfDay) ++ "-" ++
  FormatInt (GoTime.Unix endOfDay) ++ ".jsonl".

(** The two instants [HistoryFilename] writes into the name. *)
Definition startOfDay (t : GoTime.Time) : GoTime.Time :=
  let '(y, m, d) := GoTime.Date_of t in
  GoTime.Date y m d 0 (GoTime.location t).

Definition endOfDay (t : GoTime.Time) : GoTime.Time :=
  GoTime.AddDate (startOfDay t) 1.

(** The shape of a name: date fields [y], [m], [d] and the two epochs
    as written. *)
Definition nameOf (y m d s e : string) : string :=
  String.append y (String dash (String.append m (String dash
    (String.append d (String dash (String.append s (String dash e))))))).

(** [ParseHistoryFilename]: the [(start, end)] pair in a file name, or
    [None] where the source returns an error. *)
Definition ParseHistoryFilename (name : string) : option (Z * Z) :=
  let base := TrimSuffix (Base name) ".jsonl" in
  let parts := Split base dash in
  if (Z.of_nat (List.length parts) <? 5)%Z then None
  else
    match ParseInt (nth 3 parts "") with
    | None => None
    | Some start =>
        match ParseInt (nth 4 parts "") with
        | None => None
        | Some end_ => Some (start, end_)
        end
    end.

(** [FileOverlapsRange]: a function of the name and the query alone. *)
Definition FileOverlapsRange (filename : string) (queryStart queryEnd : Z) : bool :=
  match ParseHistoryFilename filename with
  | None => false
  | Some (fileStart, fileEnd) =>
      (fileStart <? queryEnd)%Z && (queryStart <? fileEnd)%Z
  end.

(** [FilterFilesForRange]: the loop appends the overlapping names to
    [result] in the order of [files]. *)
Definition FilterFilesForRange (files : list string) (queryStart queryEnd : Z)
  : list string :=
  List.fold_left
    (fun result f =>
       if FileOverlapsRange f queryStart queryEnd
       then List.app result [f] else result)
    files [].

(** *** The store on disk *)

Import OS.

(** [HistoryDir]: [$XDG_DATA_HOME/ccc/history], or
    [~/.local/share/ccc/history] when the variable is empty. *)
Definition HistoryDir : M (result string) :=
  let! e := getEnv in
  if String.eqb (XDG_DATA_HOME e) "" then
    let? home := UserHomeDir in
    ret (Ok (Join [Join [home; ".local"; "share"]; "ccc"; "history"]))
  else ret (Ok (Join [XDG_DATA_HOME e; "ccc"; "history"])).

(** What [HistoryDir] returns in environment [e]. *)
Definition historyDirOf (e : Env) : result string :=
  if String.eqb (XDG_DATA_HOME e) "" then
    if String.eqb (HOME e) "" then Err ErrNoHome
    else Ok (Join [Join [HOME e; ".local"; "share"]; "ccc"; "history"])
  else Ok (Join [XDG_DATA_HOME e; "ccc"; "history"]).


(** [HistoryFileForTimestamp]. *)
Definition HistoryFileForTimestamp (t : GoTime.Time) : M (result string) :=
  let? dir := HistoryDir in
  ret (Ok (Join [dir; HistoryFilename t])).

(** The second argument of [scanner.Buffer]: 10MB. *)
Definition maxLine : Z := 10 * 1024 * 1024.

(** The loop of [AppendRawLines]: each line, then a newline. *)
Fixpoint writeLines (handle : string) (lines : list string) : M (result unit) :=
  match lines with
  | [] => ret (Ok tt)
  | line :: rest =>
      let? _ := Write handle line in
      let? _ := Write handle (String newline "") in
      writeLines handle rest
  end.

(** The bytes a batch of lines puts in the file. *)
Fixpoint batch (lines : list string) : string :=
  match lines with
  | [] => ""
  | line :: rest => line ++ String newline (batch rest)
  end.

(** A path [AppendRawLines] can write to when no system call faults: it
    names no directory, and neither its directory nor a directory above
    is a regular file or the path itself. *)
Definition appendable (f : FS) (file : string) : Prop :=
(file ∉ dirs f) /\
  Forall (fun a => (a ∉ dom (files f)) /\ a <> file)
    (ancestors (String.length (Dir file)) (Dir file)).

(** [AppendRawLines].  The deferred [f.Close()] changes nothing here. *)
Definition AppendRawLines (file : string) (lines : list string) : M (result unit) :=
  match lines with
  | [] => ret (Ok tt)
  | _ =>
      let? _ := MkdirAll (Dir file) in
      let? handle := OpenAppend file in
      let? _ := writeLines handle lines in
      Sync handle
  end.

(** A line as [AppendRawLines] receives it from the pipeline and as the
    scanner gives it back: not empty, without newline, not ending in a
    carriage return, shorter than the scanner's limit. *)
Definition wholeLine (line : string) : Prop :=
  line <> "" /\ hasByte newline line = false /\ dropCR line = line
  /\ (len line < maxLine)%Z.

Section Decoder.

(** [json.Unmarshal(line, &entry)] for [entry] with the one field
    [uuid]: the value of the field ([""] when the object has none), or
    [None] for a line that does not decode. *)
Variable decodeUUID : string -> option string.

(** The body of the scanning loop of [LoadUUIDs]. *)
Definition addUUID (ids : gset string) (line : string) : gset string :=
  if (len line =? 0)%Z then ids
  else
    match decodeUUID line with
    | None => ids
    | Some uuid => if String.eqb uuid "" then ids else {[uuid]} ∪ ids
    end.

(** [LoadUUIDs]: the set and the error returned with it. *)
Definition LoadUUIDs (file : string) : M (gset string * option error) :=
  let! r := Open file in
  match r with
  | Err ErrNotExist => ret (∅, None)
  | Err e => ret (∅, Some e)
  | Ok handle =>
      let! read := ReadAll handle in
      let '(tokens, scanErr) := scanLines maxLine (fst read) in
      let err := match scanErr with
                 | Some e => Some e
                 | None => snd read
                 end in
      ret (List.fold_left addUUID tokens ∅, err)
  end.


End Decoder.

End History.


(** ** The accumulator goroutine of [main] *)

Module Acc.

(** The variables the goroutine closes over and its two local maps. *)
Record State := mkState {
  metricsByGroup : gmap string Met.Metrics;
  allRecords : list Rec.CostRecord;
  claudeRecords : list Rec.CostRecord;
  historyUUIDs : gset string;
  claudeMinTime : GoTime.Time;
  claudeMaxTime : GoTime.Time;
  claudeTimeInitialized : bool;
  maxCostByRequestID : gmap string Rec.CostRecord;
  seenUUIDs : gset string
}.

(** [time.Time{}]: January 1 of year 1, UTC. *)
Definition zeroTime : GoTime.Time := GoTime.mkTime (-62135596800) 0 GoTime.UTC.

Definition init : State :=
  mkState ∅ [] [] ∅ zeroTime zeroTime false ∅ ∅.

Definition nonEmpty (s : string) : bool := negb (String.eqb s "").

(** [m := metricsByGroup[k]]: the zero value when [k] is absent. *)
Definition lookupMetrics (m : gmap string Met.Metrics) (k : string) : Met.Metrics :=
  default Met.zero (m !! k).

(** [if record.FromHistory && record.UUID != "" { historyUUIDs[...] = true }] *)
Definition trackHistoryUUID (st : State) (record : Rec.CostRecord) : State :=
  if Rec.FromHistory record && nonEmpty (Rec.UUID record) then
    mkState (metricsByGroup st) (allRecords st) (claudeRecords st)
      ({[Rec.UUID record]} ∪ historyUUIDs st)
      (claudeMinTime st) (claudeMaxTime st) (claudeTimeInitialized st)
      (maxCostByRequestID st) (seenUUIDs st)
  else st.

(** [if !record.FromHistory && len(record.RawLine) > 0 { ... }]: the
    record is kept for saving and the observed time span is widened. *)
Definition trackClaude (st : State) (record : Rec.CostRecord) : State :=
  if negb (Rec.FromHistory record) && nonEmpty (Rec.RawLine record) then
    let ts := Rec.FullTimestamp record in
    let '(lo, hi) :=
      if negb (claudeTimeInitialized st) then (ts, ts)
      else
        (if GoTime.Before ts (claudeMinTime st) then ts else claudeMinTime st,
         if GoTime.After ts (claudeMaxTime st) then ts else claudeMaxTime st) in
    mkState (metricsByGroup st) (allRecords st)
      (claudeRecords st ++ [record]) (historyUUIDs st)
      lo hi true (maxCostByRequestID st) (seenUUIDs st)
  else st.

Section Accumulator.

(** [cfg.BuildGroupKey]. *)
Variable BuildGroupKey : Rec.CostRecord -> string.

(** The order in which [range maxCostByRequestID] visits the values of
    the map; Go leaves it unspecified. *)
Variable rangeMap : gmap string Rec.CostRecord -> list Rec.CostRecord.

(** The nine [+=] and the two stores that fold one record in. *)
Definition fold (st : State) (record : Rec.CostRecord) : State :=
  let groupKey := BuildGroupKey record in
  let m := Met.addMetrics (lookupMetrics (metricsByGroup st) groupKey)
             (Rec.metricsOf record) in
  mkState (<[groupKey := m]> (metricsByGroup st))
    (allRecords st ++ [record]) (claudeRecords st) (historyUUIDs st)
    (claudeMinTime st) (claudeMaxTime st) (claudeTimeInitialized st)
    (maxCostByRequestID st) (seenUUIDs st).

Definition setMaxCost (st : State) (rid : string) (record : Rec.CostRecord) : State :=
  mkState (metricsByGroup st) (allRecords st) (claudeRecords st)
    (historyUUIDs st) (claudeMinTime st) (claudeMaxTime st)
    (claudeTimeInitialized st)
    (<[rid := record]> (maxCostByRequestID st)) (seenUUIDs st).

Definition markSeen (st : State) (uuid : string) : State :=
  mkState (metricsByGroup st) (allRecords st) (claudeRecords st)
    (historyUUIDs st) (claudeMinTime st) (claudeMaxTime st)
    (claudeTimeInitialized st) (maxCostByRequestID st)
    ({[uuid]} ∪ seenUUIDs st).

(** The metrics branch of the loop body. *)
Definition dedupe (st : State) (record : Rec.CostRecord) : State :=
  match Rec.RequestID record with
  | Some rid =>
      match maxCostByRequestID st !! rid with
      | None => setMaxCost st rid record
      | Some existing =>
          if F64.gt (Rec.Cost record) (Rec.Cost existing)
          then setMaxCost st rid record else st
      end
  | None =>
      let uuid := Rec.UUID record in
      if nonEmpty uuid && bool_decide (uuid ∈ seenUUIDs st) then st
      else
        let st' := if nonEmpty uuid then markSeen st uuid else st in
        fold st' record
  end.

(** One iteration of [for record := range costChan]. *)
Definition receive (st : State) (record : Rec.CostRecord) : State :=
  dedupe (trackClaude (trackHistoryUUID st record) record) record.

(** The loop over the records the channel delivers, in order. *)
Definition drain (st : State) (records : list Rec.CostRecord) : State :=
  List.fold_left receive records st.

(** The second loop, entered once the channel is closed and empty. *)
Definition secondPass (st : State) : State :=
  List.fold_left fold (rangeMap (maxCostByRequestID st)) st.

(** The goroutine, from the first record to [accWg.Done]. *)
Definition accumulate (records : list Rec.CostRecord) : State :=
  secondPass (drain init records).

End Accumulator.

(** The ["day"] configuration of [getGroupConfig]. *)
Definition groupByDay (record : Rec.CostRecord) : string := Rec.Timestamp record.


(** A priced line with only the fields the accumulator reads set. *)
Definition sample (uuid : string) (rid : option string) (cost : float)
    (tokensIn : Z) (day : string) (fromHistory : bool) (raw : string)
  : Rec.CostRecord :=
  Rec.mkCostRecord uuid rid cost tokensIn 0 0 0 cost 0%float 0%float 0%float
    "sonnet" day zeroTime 0 "Mon" "" "" fromHistory raw.

End Acc.

(** ** Grouping: [getGroupConfig] and [sortKeys] *)

Module Group.

Local Open Scope string_scope.

(** [GroupConfig]; a nil [SortKey] is [None]. *)
Record GroupConfig := mkGroupConfig {
  LabelColumns : list string;
  BuildGroupKey : Rec.CostRecord -> string;
  ParseGroupKey : string -> list string;
  SortKey : option (string -> string);
  Hierarchical : bool
}.

Definition bar : ascii := "|"%char.

(** [fmt.Sprintf("%02d", x)]: at least two characters, the sign
    counting as one, zeros after the sign. *)
Definition Sprintf02d (x : Z) : string :=
  let ds := Strs.formatUint (Z.abs x) in
  if (x <? 0)%Z
  then String Strs.dash (String.append (GoTime.zeros (1 - String.length ds)) ds)
  else String.append (GoTime.zeros (2 - String.length ds)) ds.

(** The [order] map of the ["weekday"] configuration. *)
Definition weekdayOrder (key : string) : option string :=
  if String.eqb key "Mon" then Some "1"
  else if String.eqb key "Tue" then Some "2"
  else if String.eqb key "Wed" then Some "3"
  else if String.eqb key "Thu" then Some "4"
  else if String.eqb key "Fri" then Some "5"
  else if String.eqb key "Sat" then Some "6"
  else if String.eqb key "Sun" then Some "7"
  else None.

Definition orUnknown (cwd : string) : string :=
  if String.eqb cwd "" then "(unknown)" else cwd.

Definition orNone (branch : string) : string :=
  if String.eqb branch "" then "(none)" else branch.

Definition single (key : string) : list string := [key].

Definition dayConfig : GroupConfig :=
  mkGroupConfig ["Date"] (fun record => Rec.Timestamp record) single None false.

Definition modelConfig : GroupConfig :=
  mkGroupConfig ["Model"] (fun record => Rec.PricingKey record) single None false.

Definition dayModelConfig : GroupConfig :=
  mkGroupConfig ["Date"; "Model"]
    (fun record => Rec.Timestamp record ++ "|" ++ Rec.PricingKey record)
    (fun key => Strs.Split key bar) None true.

Definition hourConfig : GroupConfig :=
  mkGroupConfig ["Hour"]
    (fun record => Sprintf02d (Rec.Hour record) ++ ":00") single None false.

Definition weekdayConfig : GroupConfig :=
  mkGroupConfig ["Day"] (fun record => Rec.Weekday record) single
    (Some (fun key => match weekdayOrder key with Some o => o | None => key end))
    false.

Definition cwdConfig : GroupConfig :=
  mkGroupConfig ["Directory"] (fun record => orUnknown (Rec.Cwd record)) single
    None false.

Definition cwdBranchConfig : GroupConfig :=
  mkGroupConfig ["Directory"; "Branch"]
    (fun record =>
       orUnknown (Rec.Cwd record) ++ "|" ++ orNone (Rec.GitBranch record))
    (fun key => Strs.Split key bar) None true.

(** [getGroupConfig]: the configuration of a known mode, that of
    ["day"] for any other string. *)
Definition getGroupConfig (groupBy : string) : GroupConfig :=
  if String.eqb groupBy "day" then dayConfig
  else if String.eqb groupBy "model" then modelConfig
  else if String.eqb groupBy "day,model" then dayModelConfig
  else if String.eqb groupBy "hour" then hourConfig
  else if String.eqb groupBy "weekday" then weekdayConfig
  else if String.eqb groupBy "cwd" then cwdConfig
  else if String.eqb groupBy "cwd,branch" then cwdBranchConfig
  else dayConfig.

(** Go's [a > b] on strings: bytewise lexicographic order. *)
Definition strGt (a b : string) : bool :=
  match String.compare a b with
  | Gt => true
  | _ => false
  end.

Definition getSortKey (cfg : GroupConfig) (key : string) : string :=
  match SortKey cfg with
  | Some f => f key
  | None => key
  end.

(** The loop over [k] of the hierarchical case: the comparison at the
    first position where the parts differ, [false] when there is none
    within the shorter list. *)
Fixpoint firstDifferenceGt (partsI partsJ : list string) : bool :=
  match partsI, partsJ with
  | a :: restI, b :: restJ =>
      if String.eqb a b then firstDifferenceGt restI restJ else strGt a b
  | _, _ => false
  end.

(** Whether the body of the inner loop swaps [keys[i]] and [keys[j]]. *)
Definition shouldSwap (cfg : GroupConfig) (ki kj : string) : bool :=
  if Hierarchical cfg
  then firstDifferenceGt (ParseGroupKey cfg ki) (ParseGroupKey cfg kj)
  else strGt (getSortKey cfg ki) (getSortKey cfg kj).

(** One iteration of the inner loop. *)
Definition swapStep (cfg : GroupConfig) (i : nat) (keys : list string) (j : nat)
  : list string :=
  match keys !! i, keys !! j with
  | Some ki, Some kj =>
      if shouldSwap cfg ki kj then <[j := ki]> (<[i := kj]> keys) else keys
  | _, _ => keys
  end.

(** [for j := i + 1; j < len(keys); j++]. *)
Definition innerLoop (cfg : GroupConfig) (keys : list string) (i : nat)
  : list string :=
  List.fold_left (swapStep cfg i) (List.seq (S i) (List.length keys - S i)) keys.

(** [sortKeys]: the slice after the two loops. *)
Definition sortKeys (keys : list string) (cfg : GroupConfig) : list string :=
  List.fold_left (innerLoop cfg) (List.seq 0 (List.length keys)) keys.

End Group.

(** ** Totals: the first loops of [renderTable] and [renderSummary] *)

Module Render.



End Render.

(** ** Heat map: [calculateIntensity] and [calculateHeatmapData] *)

Module Heat.

Local Open Scope float_scope.

(** [calculateIntensity]. *)
Definition calculateIntensity (value min max : float) : float :=
  if max =? min then 0
  else
    let intensity := (value - min) / (max - min) in
    if intensity <? 0 then 0
    else if 1 <? intensity then 1
    else intensity.

Record HeatmapData := mkHeatmapData {
  MinInput : float;
  MaxInput : float;
  MinOutput : float;
  MaxOutput : float;
  MinCacheRead : float;
  MaxCacheRead : float;
  MinCacheWrite : float;
  MaxCacheWrite : float;
  MinTotal : float;
  MaxTotal : float
}.

(** [HeatmapData{}]. *)
Definition zero : HeatmapData := mkHeatmapData 0 0 0 0 0 0 0 0 0 0.

(** [if x < min { min = x }] and [if x > max { max = x }]. *)
Definition lower (x min : float) : float := if x <? min then x else min.
Definition raise (x max : float) : float := if max <? x then x else max.

(** The body of the loop over [metrics]. *)
Definition widen (heatmap : HeatmapData) (m : Met.Metrics) : HeatmapData :=
  mkHeatmapData
    (lower (Met.InputCost m) (MinInput heatmap))
    (raise (Met.InputCost m) (MaxInput heatmap))
    (lower (Met.OutputCost m) (MinOutput heatmap))
    (raise (Met.OutputCost m) (MaxOutput heatmap))
    (lower (Met.CacheReadCost m) (MinCacheRead heatmap))
    (raise (Met.CacheReadCost m) (MaxCacheRead heatmap))
    (lower (Met.CacheWriteCost m) (MinCacheWrite heatmap))
    (raise (Met.CacheWriteCost m) (MaxCacheWrite heatmap))
    (lower (Met.Cost m) (MinTotal heatmap))
    (raise (Met.Cost m) (MaxTotal heatmap)).

(** [calculateHeatmapData]. *)
Definition calculateHeatmapData (metrics : list Met.Metrics) : HeatmapData :=
  match metrics with
  | [] => zero
  | first :: _ =>
      List.fold_left widen metrics
        (mkHeatmapData
           (Met.InputCost first) (Met.InputCost first)
           (Met.OutputCost first) (Met.OutputCost first)
           (Met.CacheReadCost first) (Met.CacheReadCost first)
           (Met.CacheWriteCost first) (Met.CacheWriteCost first)
           (Met.Cost first) (Met.Cost first))
  end.

(** The five columns: the amount of a row and the two bounds kept for
    it. *)
Definition columns
  : list ((Met.Metrics -> float) * (HeatmapData -> float) * (HeatmapData -> float)) :=
  [(Met.InputCost, MinInput, MaxInput);
   (Met.OutputCost, MinOutput, MaxOutput);
   (Met.CacheReadCost, MinCacheRead, MaxCacheRead);
   (Met.CacheWriteCost, MinCacheWrite, MaxCacheWrite);
   (Met.Cost, MinTotal, MaxTotal)].

(** Not a NaN. *)
Definition isNumber (x : float) : bool := x =? x.

End Heat.

(** ** The display mode of the table *)

Module Display.

Inductive DisplayMode := DisplayWide | DisplayMedium | DisplayNarrow.

Record ColumnWidths := mkColumnWidths {
  InputTokenWidth : Z;
  InputCostWidth : Z;
  OutputTokenWidth : Z;
  OutputCostWidth : Z;
  CacheReadTokenWidth : Z;
  CacheReadCostWidth : Z;
  CacheWriteTokenWidth : Z;
  CacheWriteCostWidth : Z;
  TotalTokenWidth : Z;
  TotalCostWidth : Z;
  InputCellWidth : Z;
  OutputCellWidth : Z;
  CacheReadCellWidth : Z;
  CacheWriteCellWidth : Z;
  TotalCellWidth : Z
}.

(** [ColumnWidths{}]. *)
Definition noWidths : ColumnWidths :=
  mkColumnWidths 0 0 0 0 0 0 0 0 0 0 0 0 0 0 0.

(** [if w > width { width = w }]. *)
Definition atLeast (w width : Z) : Z := if width <? w then w else width.

(** [a * b] on Go's [int]. *)
Definition mul (a b : Z) : Z := GoInt.wrap64 (a * b).

Section Format.

(** [formatTokens], and [fmt.Sprintf("$%.2f", x)]. *)
Variable formatTokens : Z -> string.
Variable formatCost : float -> string.

(** The body of the loop of [calculateColumnWidths]. *)
Definition widenBy (widths : ColumnWidths) (m : Met.Metrics) : ColumnWidths :=
  let inputTokenW := Strs.len (formatTokens (Met.InputTokens m)) in
  let outputTokenW := Strs.len (formatTokens (Met.OutputTokens m)) in
  let cacheReadTokenW := Strs.len (formatTokens (Met.CacheReadTokens m)) in
  let cacheWriteTokenW := Strs.len (formatTokens (Met.CacheWriteTokens m)) in
  let totalTokens :=
    GoInt.add (GoInt.add (GoInt.add (Met.InputTokens m) (Met.OutputTokens m))
                 (Met.CacheReadTokens m)) (Met.CacheWriteTokens m) in
  let totalTokenW := Strs.len (formatTokens totalTokens) in
  let inputCostW := Strs.len (formatCost (Met.InputCost m)) in
  let outputCostW := Strs.len (formatCost (Met.OutputCost m)) in
  let cacheReadCostW := Strs.len (formatCost (Met.CacheReadCost m)) in
  let cacheWriteCostW := Strs.len (formatCost (Met.CacheWriteCost m)) in
  let totalCostW := Strs.len (formatCost (Met.Cost m)) in
  mkColumnWidths
    (atLeast inputTokenW (InputTokenWidth widths))
    (atLeast inputCostW (InputCostWidth widths))
    (atLeast outputTokenW (OutputTokenWidth widths))
    (atLeast outputCostW (OutputCostWidth widths))
    (atLeast cacheReadTokenW (CacheReadTokenWidth widths))
    (atLeast cacheReadCostW (CacheReadCostWidth widths))
    (atLeast cacheWriteTokenW (CacheWriteTokenWidth widths))
    (atLeast cacheWriteCostW (CacheWriteCostWidth widths))
    (atLeast totalTokenW (TotalTokenWidth widths))
    (atLeast totalCostW (TotalCostWidth widths))
    (atLeast (GoInt.add (GoInt.add inputTokenW 2) inputCostW) (InputCellWidth widths))
    (atLeast (GoInt.add (GoInt.add outputTokenW 2) outputCostW)
       (OutputCellWidth widths))
    (atLeast (GoInt.add (GoInt.add cacheReadTokenW 2) cacheReadCostW)
       (CacheReadCellWidth widths))
    (atLeast (GoInt.add (GoInt.add cacheWriteTokenW 2) cacheWriteCostW)
       (CacheWriteCellWidth widths))
    (atLeast (GoInt.add (GoInt.add totalTokenW 2) totalCostW) (TotalCellWidth widths)).

(** [calculateColumnWidths], over the values of the map in the order
    the loop meets them. *)
Definition calculateColumnWidths (metricsByGroup : list Met.Metrics) : ColumnWidths :=
  fold_left widenBy metricsByGroup noWidths.

End Format.

(** A sum of [int]s, from the left. *)
Definition sum (first : Z) (rest : list Z) : Z := fold_left GoInt.add rest first.

(** [calculateTableWidth]. *)
Definition calculateTableWidth (labelWidth numLabelCols : Z) (widths : ColumnWidths)
    (mode : DisplayMode) : Z :=
  let contentWidth :=
    match mode with
    | DisplayWide =>
        sum (mul labelWidth numLabelCols)
          [InputCellWidth widths; OutputCellWidth widths; CacheReadCellWidth widths;
           CacheWriteCellWidth widths; TotalCellWidth widths]
    | DisplayMedium =>
        sum (mul labelWidth numLabelCols)
          [InputTokenWidth widths; OutputTokenWidth widths;
           CacheReadTokenWidth widths; CacheWriteTokenWidth widths;
           TotalCellWidth widths]
    | DisplayNarrow =>
        sum (mul labelWidth numLabelCols) [TotalCellWidth widths]
    end in
  let numCols :=
    match mode with
    | DisplayNarrow => GoInt.add numLabelCols 1
    | _ => GoInt.add numLabelCols 5
    end in
  GoInt.add (GoInt.add contentWidth (GoInt.add numCols 1)) (mul numCols 2).

(** [chooseDisplayMode]; [maxWidthOverride] is the global of that
    name. *)
Definition chooseDisplayMode (maxWidthOverride : Z) (labelWidth numLabelCols : Z)
    (widths : ColumnWidths) (termWidth : Z) : DisplayMode :=
  let termWidth := if 0 <? maxWidthOverride then maxWidthOverride else termWidth in
  if termWidth =? 0 then DisplayWide
  else if calculateTableWidth labelWidth numLabelCols widths DisplayWide <=? termWidth
  then DisplayWide
  else if calculateTableWidth labelWidth numLabelCols widths DisplayMedium <=? termWidth
  then DisplayMedium
  else DisplayNarrow.

End Display.

(** ** The pipeline of [main]: goroutines and channels

    One step of the model is one channel operation of one goroutine (or
    one statement of [main] between [close(fileChan)] and
    [accWg.Wait()]).  A schedule, the list of the goroutines in the order
    in which they take their steps, stands for the interleaving the Go
    scheduler chooses; a goroutine scheduled while blocked does nothing.
    A send on a closed channel is recorded as a panic. *)

Module Pipeline.

Record FileWork := mkFileWork {
  Path : string;
  FileFromHistory : bool
}.

Record LineWork := mkLineWork {
  Line : string;
  LineFromHistory : bool
}.

(** A buffered channel. *)
Record Chan (A : Type) := mkChan {
  buf : list A;
  closed : bool
}.

Arguments mkChan {A} buf closed.
Arguments buf {A} c.
Arguments closed {A} c.

Definition send {A} (c : Chan A) (x : A) : Chan A := mkChan (buf c ++ [x]) (closed c).
Definition close {A} (c : Chan A) : Chan A := mkChan (buf c) true.

(** Where [main] stands. *)
Inductive MainPC :=
| SendFiles (todo : list FileWork)
| WaitReaders
| CloseLineChan
| WaitParsers
| CloseCostChan
| WaitAccumulator
| Finished.

(** A file worker: between files, inside [processJSONLFile] with the
    lines still to send, or past its loop. *)
Inductive Reader :=
| ReaderIdle
| ReaderSending (pending : list LineWork)
| ReaderExited.

(** A line worker: between lines, at [costChan <- record], or past its
    loop. *)
Inductive Parser :=
| ParserIdle
| ParserSending (record : Rec.CostRecord)
| ParserExited.

(** The accumulator: in its first loop, or past it. *)
Inductive AccPC :=
| Receiving
| Folding.

Record State := mkState {
  mainPC : MainPC;
  fileChan : Chan FileWork;
  readers : list Reader;
  lineChan : Chan LineWork;
  parsers : list Parser;
  costChan : Chan Rec.CostRecord;
  received : list Rec.CostRecord;
  accPC : AccPC;
  panicked : bool
}.

Inductive Actor :=
| Main
| FileWorker (i : nat)
| LineWorker (j : nat)
| Accumulator.

Definition start (files : list FileWork) (nReaders nParsers : nat) : State :=
  mkState (SendFiles files) (mkChan [] false)
    (replicate nReaders ReaderIdle) (mkChan [] false)
    (replicate nParsers ParserIdle) (mkChan [] false) [] Receiving false.

Definition readerExited (r : Reader) : bool :=
  match r with ReaderExited => true | _ => false end.

Definition parserExited (p : Parser) : bool :=
  match p with ParserExited => true | _ => false end.

Section Pipeline.

(** The non-empty lines [processJSONLFile] reads from the file at a
    path (those before the first read error). *)
Variable linesOf : string -> list string.

(** The body of a line worker: the record a line decodes and prices to,
    or [None] for a line that is dropped. *)
Variable parse : LineWork -> option Rec.CostRecord.

(** The capacities of [lineChan] and [costChan]. *)
Variable lineCap costCap : nat.

Definition setMain (s : State) (pc : MainPC) : State :=
  mkState pc (fileChan s) (readers s) (lineChan s) (parsers s) (costChan s)
    (received s) (accPC s) (panicked s).

Definition stepMain (s : State) : State :=
  match mainPC s with
  | SendFiles (f :: todo) =>
      mkState (SendFiles todo) (send (fileChan s) f) (readers s) (lineChan s)
        (parsers s) (costChan s) (received s) (accPC s) (panicked s)
  | SendFiles [] =>
      mkState WaitReaders (close (fileChan s)) (readers s) (lineChan s)
        (parsers s) (costChan s) (received s) (accPC s) (panicked s)
  | WaitReaders =>
      if forallb readerExited (readers s) then setMain s CloseLineChan else s
  | CloseLineChan =>
      mkState WaitParsers (fileChan s) (readers s) (close (lineChan s))
        (parsers s) (costChan s) (received s) (accPC s) (panicked s)
  | WaitParsers =>
      if forallb parserExited (parsers s) then setMain s CloseCostChan else s
  | CloseCostChan =>
      mkState WaitAccumulator (fileChan s) (readers s) (lineChan s)
        (parsers s) (close (costChan s)) (received s) (accPC s) (panicked s)
  | WaitAccumulator =>
      match accPC s with
      | Folding => setMain s Finished
      | Receiving => s
      end
  | Finished => s
  end.

(** [processJSONLFile(work.Path, lineChan, buf, work.FromHistory)]:
    the sends it makes, in order. *)
Definition worksOf (f : FileWork) : list LineWork :=
  List.map (fun l => mkLineWork l (FileFromHistory f)) (linesOf (Path f)).

Definition setReader (s : State) (i : nat) (r : Reader)
    (fc : Chan FileWork) (lc : Chan LineWork) (panic : bool) : State :=
  mkState (mainPC s) fc (<[i := r]> (readers s)) lc (parsers s) (costChan s)
    (received s) (accPC s) (panicked s || panic).

Definition stepReader (i : nat) (s : State) : State :=
  match readers s !! i with
  | Some ReaderIdle =>
      match buf (fileChan s) with
      | f :: rest =>
          setReader s i
            (ReaderSending (worksOf f))
            (mkChan rest (closed (fileChan s))) (lineChan s) false
      | [] =>
          if closed (fileChan s)
          then setReader s i ReaderExited (fileChan s) (lineChan s) false
          else s
      end
  | Some (ReaderSending (l :: ls)) =>
      if closed (lineChan s)
      then setReader s i ReaderExited (fileChan s) (lineChan s) true
      else if Nat.ltb (List.length (buf (lineChan s))) lineCap
      then setReader s i (ReaderSending ls) (fileChan s) (send (lineChan s) l) false
      else s
  | Some (ReaderSending []) =>
      setReader s i ReaderIdle (fileChan s) (lineChan s) false
  | Some ReaderExited | None => s
  end.

Definition setParser (s : State) (j : nat) (p : Parser)
    (lc : Chan LineWork) (cc : Chan Rec.CostRecord) (panic : bool) : State :=
  mkState (mainPC s) (fileChan s) (readers s) lc (<[j := p]> (parsers s)) cc
    (received s) (accPC s) (panicked s || panic).

Definition stepParser (j : nat) (s : State) : State :=
  match parsers s !! j with
  | Some ParserIdle =>
      match buf (lineChan s) with
      | work :: rest =>
          setParser s j
            (match parse work with
             | Some record => ParserSending record
             | None => ParserIdle
             end)
            (mkChan rest (closed (lineChan s))) (costChan s) false
      | [] =>
          if closed (lineChan s)
          then setParser s j ParserExited (lineChan s) (costChan s) false
          else s
      end
  | Some (ParserSending record) =>
      if closed (costChan s)
      then setParser s j ParserExited (lineChan s) (costChan s) true
      else if Nat.ltb (List.length (buf (costChan s))) costCap
      then setParser s j ParserIdle (lineChan s) (send (costChan s) record) false
      else s
  | Some ParserExited | None => s
  end.

Definition stepAccumulator (s : State) : State :=
  match accPC s with
  | Receiving =>
      match buf (costChan s) with
      | record :: rest =>
          mkState (mainPC s) (fileChan s) (readers s) (lineChan s) (parsers s)
            (mkChan rest (closed (costChan s)))
            (received s ++ [record]) Receiving (panicked s)
      | [] =>
          if closed (costChan s)
          then mkState (mainPC s) (fileChan s) (readers s) (lineChan s)
                 (parsers s) (costChan s) (received s) Folding (panicked s)
          else s
      end
  | Folding => s
  end.

Definition step (s : State) (a : Actor) : State :=
  match a with
  | Main => stepMain s
  | FileWorker i => stepReader i s
  | LineWorker j => stepParser j s
  | Accumulator => stepAccumulator s
  end.

(** The state a schedule leads to. *)
Definition exec (schedule : list Actor) (s : State) : State :=
  List.fold_left step schedule s.

(** The records the lines of a file give. *)
Definition recordsOfLines (works : list LineWork) : list Rec.CostRecord :=
  omap parse works.

(** Every record the files of the run give. *)
Definition expected (files : list FileWork) : list Rec.CostRecord :=
  List.concat (List.map (fun f => recordsOfLines (worksOf f)) files).

End Pipeline.

(** How far [main] has come, counted in statements. *)
Definition stage (pc : MainPC) : nat :=
  match pc with
  | SendFiles _ => 0
  | WaitReaders => 1
  | CloseLineChan => 2
  | WaitParsers => 3
  | CloseCostChan => 4
  | WaitAccumulator => 5
  | Finished => 6
  end.

Definition todoOf (pc : MainPC) : list FileWork :=
  match pc with
  | SendFiles todo => todo
  | _ => []
  end.

Definition heldByReader (r : Reader) : list LineWork :=
  match r with
  | ReaderSending pending => pending
  | _ => []
  end.

Definition heldByParser (p : Parser) : list Rec.CostRecord :=
  match p with
  | ParserSending record => [record]
  | _ => []
  end.

(** What the members of a pool hold, one after the other. *)
Definition held {A B} (f : A -> list B) (pool : list A) : list B :=
  List.concat (List.map f pool).

Section Invariant.

Variable linesOf : string -> list string.
Variable parse : LineWork -> option Rec.CostRecord.

(** The records of the run, wherever they are: received, queued,
    in the hands of a worker, or still to be read from a file. *)
Definition inFlight (s : State) : list Rec.CostRecord :=
  received s ++ buf (costChan s) ++ held heldByParser (parsers s)
  ++ recordsOfLines parse (buf (lineChan s))
  ++ held (fun r => recordsOfLines parse (heldByReader r)) (readers s)
  ++ expected linesOf parse (buf (fileChan s))
  ++ expected linesOf parse (todoOf (mainPC s)).

(** What holds of every state a schedule leads to. *)
Record Inv (files : list FileWork) (nReaders nParsers : nat) (s : State) : Prop := {
  inv_fileChan : closed (fileChan s) = Nat.leb 1 (stage (mainPC s));
  inv_lineChan : closed (lineChan s) = Nat.leb 3 (stage (mainPC s));
  inv_costChan : closed (costChan s) = Nat.leb 5 (stage (mainPC s));
  inv_reader : forall i, readers s !! i = Some ReaderExited ->
               (1 <= stage (mainPC s))%nat /\ buf (fileChan s) = [];
  inv_readers : (2 <= stage (mainPC s))%nat -> forallb readerExited (readers s) = true;
  inv_parser : forall j, parsers s !! j = Some ParserExited ->
               (3 <= stage (mainPC s))%nat /\ buf (lineChan s) = [];
  inv_parsers : (4 <= stage (mainPC s))%nat -> forallb parserExited (parsers s) = true;
  inv_acc : accPC s = Folding -> (5 <= stage (mainPC s))%nat /\ buf (costChan s) = [];
  inv_finished : stage (mainPC s) = 6%nat -> accPC s = Folding;
  inv_panicked : panicked s = false;
  inv_nReaders : List.length (readers s) = nReaders;
  inv_nParsers : List.length (parsers s) = nParsers;
  inv_inFlight : Permutation (inFlight s) (expected linesOf parse files)
}.

End Invariant.

(** *** Progress

    A count of the channel operations and statements still ahead: every
    step that changes the state lowers it. *)

Section Progress.

Variable linesOf : string -> list string.

Definition fileWeight (f : FileWork) : nat :=
  2 + 4 * List.length (worksOf linesOf f).

Definition mainWeight (pc : MainPC) : nat :=
  match pc with
  | SendFiles todo => 6 + sum_list_with (fun f => S (fileWeight f)) todo
  | _ => 6 - stage pc
  end.

Definition readerWeight (r : Reader) : nat :=
  match r with
  | ReaderIdle => 1
  | ReaderSending pending => 2 + 4 * List.length pending
  | ReaderExited => 0
  end.

Definition parserWeight (p : Parser) : nat :=
  match p with
  | ParserIdle => 1
  | ParserSending _ => 3
  | ParserExited => 0
  end.

Definition accWeight (pc : AccPC) : nat :=
  match pc with
  | Receiving => 1
  | Folding => 0
  end.

Definition remaining (s : State) : nat :=
  mainWeight (mainPC s)
  + sum_list_with fileWeight (buf (fileChan s))
  + sum_list_with readerWeight (readers s)
  + 3 * List.length (buf (lineChan s))
  + sum_list_with parserWeight (parsers s)
  + List.length (buf (costChan s))
  + accWeight (accPC s).

End Progress.

Section Runs.

Variable linesOf : string -> list string.
Variable parse : LineWork -> option Rec.CostRecord.
Variable lineCap costCap : nat.

(** A schedule that only picks goroutines able to move, as Go's
    scheduler does: every step changes the state. *)
Fixpoint runnable (schedule : list Actor) (s : State) : Prop :=
  match schedule with
  | [] => True
  | a :: rest =>
      step linesOf parse lineCap costCap s a <> s /\
      runnable rest (step linesOf parse lineCap costCap s a)
  end.

End Runs.

End Pipeline.

(** ** Pricing: [GetModelPricing] and [CalculateCost] *)

Module Pricing.

Local Open Scope string_scope.

Record ModelPricing := mkModelPricing {
  Input : float;
  Cache5mWrite : float;
  Cache1hWrite : float;
  CacheRead : float;
  Output : float
}.

(** [ModelPricing{}]. *)
Definition noPricing : ModelPricing :=
  mkModelPricing 0%float 0%float 0%float 0%float 0%float.

(** The table [modelPricing]; the decimal constants that are not
    binary fractions are given as the float64 nearest to them (0.30,
    0.60, 0.10, 0.80, 1.60, 0.08 and 0.03). *)
Definition modelPricing (key : string) : option ModelPricing :=
  if String.eqb key "opus-4.5" then
    Some (mkModelPricing 5%float 6.25%float 10%float 0.5%float 25%float)
  else if String.eqb key "opus" then
    Some (mkModelPricing 15%float 18.75%float 30%float 1.5%float 75%float)
  else if String.eqb key "sonnet" then
    Some (mkModelPricing 3%float 3.75%float 6%float
            0x1.3333333333333p-2%float 15%float)
  else if String.eqb key "sonnet-longcontext" then
    Some (mkModelPricing 6%float 7.5%float 12%float
            0x1.3333333333333p-1%float 22.5%float)
  else if String.eqb key "haiku-4.5" then
    Some (mkModelPricing 1%float 1.25%float 2%float
            0x1.999999999999ap-4%float 5%float)
  else if String.eqb key "haiku-3.5" then
    Some (mkModelPricing 0x1.999999999999ap-1%float 1%float
            0x1.999999999999ap+0%float 0x1.47ae147ae147bp-4%float 4%float)
  else if String.eqb key "haiku-3" then
    Some (mkModelPricing 0.25%float 0x1.3333333333333p-2%float 0.5%float
            0x1.eb851eb851eb8p-6%float 1.25%float)
  else None.

(** [modelPricing[key]]: the zero value for a missing key. *)
Definition pricingOf (key : string) : ModelPricing :=
  default noPricing (modelPricing key).

Record CacheCreationInfo := mkCacheCreationInfo {
  Ephemeral5mInputTokens : Z;
  Ephemeral1hInputTokens : Z
}.

Record UsageInfo := mkUsageInfo {
  InputTokens : Z;
  CacheCreationInputTokens : Z;
  CacheReadInputTokens : Z;
  OutputTokens : Z;
  CacheCreation : option CacheCreationInfo;
  ServiceTier : string
}.

Record Message := mkMessage {
  Model : option string;
  Usage : option UsageInfo
}.

(** [strings.Contains]. *)
Fixpoint Contains (s substr : string) : bool :=
  Strs.HasPrefix s substr ||
  match s with
  | "" => false
  | String _ rest => Contains rest substr
  end.

(** [float64(n)] for an [int]: the nearest float64, ties to even. *)
Definition ofInt (n : Z) : float :=
  if (n =? - GoInt.two63)%Z then (-0x1p63)%float
  else if (n <? 0)%Z then (- PrimFloat.of_uint63 (Uint63.of_Z (- n)))%float
  else PrimFloat.of_uint63 (Uint63.of_Z n).

(** What [CalculateCost] returns. *)
Record Cost := mkCost {
  cost : float;
  inputTokens : Z;
  outputTokens : Z;
  cacheReadTokens : Z;
  cacheWriteTokens : Z;
  inputCost : float;
  outputCost : float;
  cacheReadCost : float;
  cacheWriteCost : float;
  pricingKey : string
}.

Definition noCost : Cost :=
  mkCost 0%float 0 0 0 0 0%float 0%float 0%float 0%float "".

Section Lower.

(** [strings.ToLower]. *)
Variable ToLower : string -> string.

(** [isSonnet4]. *)
Definition isSonnet4 (model : string) : bool :=
  let modelLower := ToLower model in
  if negb (Contains modelLower "sonnet") then false
  else Contains modelLower "sonnet-4" || Contains modelLower "sonnet_4".

(** [GetModelPricing]: the pricing, its key, and [ok]. *)
Definition GetModelPricing (model : string) (usage : option UsageInfo)
  : ModelPricing * string * bool :=
  let modelLower := ToLower model in
  if Contains modelLower "opus" then
    if Contains modelLower "4.5" || Contains modelLower "4-5"
    then (pricingOf "opus-4.5", "opus-4.5", true)
    else (pricingOf "opus", "opus", true)
  else if Contains modelLower "sonnet" then
    match usage with
    | Some u =>
        if isSonnet4 model
           && (200000 <? GoInt.add (GoInt.add (InputTokens u)
                                      (CacheCreationInputTokens u))
                           (CacheReadInputTokens u))%Z
        then (pricingOf "sonnet-longcontext", "sonnet-longcontext", true)
        else (pricingOf "sonnet", "sonnet", true)
    | None => (pricingOf "sonnet", "sonnet", true)
    end
  else if Contains modelLower "haiku" then
    if Contains modelLower "4.5" || Contains modelLower "4-5"
    then (pricingOf "haiku-4.5", "haiku-4.5", true)
    else if Contains modelLower "3.5" || Contains modelLower "3-5"
    then (pricingOf "haiku-3.5", "haiku-3.5", true)
    else (pricingOf "haiku-3", "haiku-3", true)
  else (noPricing, "", false).

(** [tokens / 1_000_000.0 * rate]. *)
Definition costOf (tokens : Z) (rate : float) : float :=
  (ofInt tokens / 0x1.e848p+19 * rate)%float.

(** [CalculateCost]; a nil [msg] is [None]. *)
Definition CalculateCost (msg : option Message) : Cost :=
  match msg with
  | None => noCost
  | Some m =>
      match Usage m, Model m with
      | Some usage, Some model =>
          let '(pricing, key, ok) := GetModelPricing model (Some usage) in
          if negb ok then noCost
          else
            let inputCost := costOf (InputTokens usage) (Input pricing) in
            let '(cacheWriteTokens, cacheWriteCost) :=
              match CacheCreation usage with
              | Some cc =>
                  (GoInt.add (Ephemeral5mInputTokens cc) (Ephemeral1hInputTokens cc),
                   (0 + costOf (Ephemeral5mInputTokens cc) (Cache5mWrite pricing)
                    + costOf (Ephemeral1hInputTokens cc) (Cache1hWrite pricing))%float)
              | None => (0%Z, 0%float)
              end in
            let cacheReadCost := costOf (CacheReadInputTokens usage) (CacheRead pricing) in
            let outputCost := costOf (OutputTokens usage) (Output pricing) in
            mkCost (inputCost + cacheWriteCost + cacheReadCost + outputCost)%float
              (InputTokens usage) (OutputTokens usage)
              (CacheReadInputTokens usage) cacheWriteTokens
              inputCost outputCost cacheReadCost cacheWriteCost key
      | _, _ => noCost
      end
  end.

End Lower.

(** The keys of [modelPricing]. *)
Definition knownKeys : list string :=
  ["opus-4.5"; "opus"; "sonnet"; "sonnet-longcontext"; "haiku-4.5";
   "haiku-3.5"; "haiku-3"].

End Pricing.

(** ** The line workers *)

Module Worker.

(** [ConversationEntry], with the fields the program decodes. *)
Record ConversationEntry := mkConversationEntry {
  CWD : string;
  GitBranch : string;
  Message : Pricing.Message;
  UUID : string;
  Timestamp : GoTime.Time;
  RequestID : option string
}.

Section Worker.

(** [json.Unmarshal(work.Line, &entry)]: the entry, or [None] for a
    line that does not decode. *)
Variable decode : string -> option ConversationEntry.

Variable ToLower : string -> string.

(** The location [Local] of the process. *)
Variable local : GoTime.Location.

(** The body of the loop of a line worker: the record it sends, or
    [None] when it goes on to the next line. *)
Definition lineWorker (work : Pipeline.LineWork) : option Rec.CostRecord :=
  match decode (Pipeline.Line work) with
  | None => None
  | Some entry =>
      let c := Pricing.CalculateCost ToLower (Some (Message entry)) in
      if String.eqb (Pricing.pricingKey c) "" then None
      else
        let localTime := GoTime.In_ (Timestamp entry) local in
        Some (Rec.mkCostRecord (UUID entry) (RequestID entry)
                (Pricing.cost c) (Pricing.inputTokens c) (Pricing.outputTokens c)
                (Pricing.cacheReadTokens c) (Pricing.cacheWriteTokens c)
                (Pricing.inputCost c) (Pricing.outputCost c)
                (Pricing.cacheReadCost c) (Pricing.cacheWriteCost c)
                (Pricing.pricingKey c)
                (GoTime.FormatDate localTime) localTime
                (GoTime.Hour localTime)
                (GoTime.weekdayShort (GoTime.Weekday localTime))
                (CWD entry) (GitBranch entry)
                (Pipeline.LineFromHistory work) (Pipeline.Line work))
  end.

End Worker.

End Worker.

(** ** Views of the accumulator's input

    Pure functions of the delivered records, against which the state of
    the goroutine is read. *)

Module AccView.

Definition hasRequestID (rid : string) (r : Rec.CostRecord) : bool :=
  match Rec.RequestID r with
  | Some x => String.eqb x rid
  | None => false
  end.




(** The choice between the retained record and a later one. *)
Definition pick (cur : option Rec.CostRecord) (r : Rec.CostRecord)
  : option Rec.CostRecord :=
  match cur with
  | None => Some r
  | Some existing =>
      if F64.gt (Rec.Cost r) (Rec.Cost existing) then Some r else Some existing
  end.

(** The record retained after the records of [l], starting from [cur]. *)
Definition retained (cur : option Rec.CostRecord) (l : list Rec.CostRecord)
  : option Rec.CostRecord :=
  List.fold_left pick l cur.









(** The records the accumulator keeps for saving. *)
Definition toSave (r : Rec.CostRecord) : bool :=
  negb (Rec.FromHistory r) && Acc.nonEmpty (Rec.RawLine r).

(** What the first loop has recorded about the records [l] it has
    received. *)
Record tracked (st : Acc.State) (l : list Rec.CostRecord) : Prop := {
  tracked_claude : Acc.claudeRecords st = List.filter toSave l;
  tracked_history :
    forall u, u ∈ Acc.historyUUIDs st <->
              exists r, In r l /\ Rec.FromHistory r = true /\ Rec.UUID r = u /\ u <> EmptyString;
  tracked_initialized :
    Acc.claudeTimeInitialized st = negb (forallb (fun r => negb (toSave r)) l);
  tracked_span :
    forall r, In r (List.filter toSave l) ->
      GoTime.Before (Rec.FullTimestamp r) (Acc.claudeMinTime st) = false /\
      GoTime.After (Rec.FullTimestamp r) (Acc.claudeMaxTime st) = false;
  tracked_attained :
    List.filter toSave l <> [] ->
    (exists r, In r (List.filter toSave l) /\ Acc.claudeMinTime st = Rec.FullTimestamp r) /\
    (exists r, In r (List.filter toSave l) /\ Acc.claudeMaxTime st = Rec.FullTimestamp r)
}.

End AccView.

(** ** [saveToHistory] *)

Module Save.

Import OS.








Section Save.

Variable decodeUUID : string -> option string.

(** The order in which [range recordsByDate] visits the batches. *)
Variable rangeDates :
  gmap string (list Rec.CostRecord) -> list (list Rec.CostRecord).




End Save.


End Save.

(** ** Sample data for running the model *)

Module Sample.

(** A stand-in for the JSON decoder: a line decodes when it is wrapped
    in braces, and its UUID is what stands between them. *)
Definition bracedUUID (line : string) : option string :=
  match line with
  | String "{" rest =>
      match Strs.reverse rest "" with
      | String "}" inner => Some (Strs.reverse inner "")
      | _ => None
      end
  | _ => None
  end.

Definition env : OS.Env := OS.mkEnv "/data" "/home/u".

(** A world with nothing on disk but the root, and no fault to come. *)
Definition emptyWorld : OS.World :=
  OS.mkWorld (OS.mkFS ∅ {["/"%string]} ∅) env [] [].

(** A world whose one file holds two complete lines and the beginning
    of a third. *)
Definition crashedWorld : OS.World :=
  OS.mkWorld
    (OS.mkFS {["/data/ccc/history/x.jsonl"%string
               := String.append (History.batch ["{a}"; "{b}"]%string) "{c"]}
             {["/"%string]} ∅)
    env [] [].


(** 1969-12-31 12:00:00 UTC, half a day before the Unix epoch. *)
Definition beforeEpoch : GoTime.Time := GoTime.mkTime (-43200) 0 GoTime.UTC.

(** The instant of [primary]'s examples: 2024-01-05 10:20:00 UTC. *)
Definition noon : GoTime.Time := GoTime.mkTime 1704450000 0 GoTime.UTC.

(** The history file of that day. *)
Definition dayFile : string :=
  "/data/ccc/history/2024-01-05-1704412800-1704499200.jsonl".

(** A run of the pipeline: one log file of two lines, every line
    priced under the same request ID. *)
Definition logFiles : list Pipeline.FileWork :=
  [Pipeline.mkFileWork "a.jsonl" false].

Definition twoLines (path : string) : list string := ["{u1}"; "{u2}"]%string.

Definition priced (work : Pipeline.LineWork) : option Rec.CostRecord :=
  match bracedUUID (Pipeline.Line work) with
  | Some uuid =>
      Some (Acc.sample uuid (Some "req"%string) 1%float 1 "2024-01-05"
              (Pipeline.LineFromHistory work) (Pipeline.Line work))
  | None => None
  end.

(** An interleaving of [main], one file worker, one line worker and
    the accumulator that runs the pipeline to its end. *)
Definition toTheEnd : list Pipeline.Actor :=
  [Pipeline.Main; Pipeline.Main;
   Pipeline.FileWorker 0; Pipeline.FileWorker 0; Pipeline.FileWorker 0;
   Pipeline.FileWorker 0; Pipeline.FileWorker 0;
   Pipeline.Main; Pipeline.Main;
   Pipeline.LineWorker 0; Pipeline.LineWorker 0; Pipeline.LineWorker 0;
   Pipeline.LineWorker 0; Pipeline.LineWorker 0;
   Pipeline.Main; Pipeline.Main;
   Pipeline.Accumulator; Pipeline.Accumulator; Pipeline.Accumulator;
   Pipeline.Main].

(** [strings.ToLower] on a name in ASCII. *)
Definition lowerByte (c : ascii) : ascii :=
  let n := nat_of_ascii c in
  if Nat.leb 65 n && Nat.leb n 90 then ascii_of_nat (n + 32) else c.

Fixpoint asciiLower (s : string) : string :=
  match s with
  | EmptyString => EmptyString
  | String c rest => String (lowerByte c) (asciiLower rest)
  end.

(** A message of a sonnet 4 model over the long-context threshold, with
    no [cache_creation] record. *)
Definition longUsage : Pricing.UsageInfo :=
  Pricing.mkUsageInfo 150000 60000 10 500 None "standard".

Definition sonnetMessage : Pricing.Message :=
  Pricing.mkMessage (Some "claude-Sonnet-4-5"%string) (Some longUsage).

(** A decoder for the line workers: a braced line is an entry of
    [sonnetMessage], sent on 1970-01-02 at 01:00 UTC and an hour later
    for every byte of its UUID. *)
Definition entryOf (line : string) : option Worker.ConversationEntry :=
  match bracedUUID line with
  | Some uuid =>
      Some (Worker.mkConversationEntry "/w" "main" sonnetMessage uuid
              (GoTime.mkTime (90000 + 3600 * Z.of_nat (String.length uuid)) 0 GoTime.UTC)
              None)
  | None => None
  end.

Definition worker : Pipeline.LineWork -> option Rec.CostRecord :=
  Worker.lineWorker entryOf asciiLower (GoTime.FixedZone 7200).

(** The record [worker] makes of a work item, when it makes one. *)
Definition made (work : Pipeline.LineWork) : Rec.CostRecord :=
  default (Acc.sample "" None 0%float 0 "" false "") (worker work).

(** Stand-ins for [formatTokens] and for the text of a cost. *)
Definition tokenText (n : Z) : string :=
  if n =? 0 then "0"%string else "1.5k"%string.

Definition costText (x : float) : string := "$0.00"%string.

End Sample.

(** * Properties *)

(** ** Wrap-around addition *)

Module GoIntFacts.

Import GoInt.


Lemma wrap64_id z : in_range z -> wrap64 z = z.
Proof.
  unfold in_range, wrap64, two63, two64. intros H.
  rewrite Z.mod_small by lia. lia.
Qed.

Lemma wrap64_eqm z : wrap64 z mod two64 = z mod two64.
Proof.
  unfold wrap64, two63, two64.
  rewrite Zminus_mod, Z.mod_mod by lia.
  rewrite <- Zminus_mod. f_equal. lia.
Qed.

Lemma wrap64_congr a b : a mod two64 = b mod two64 -> wrap64 a = wrap64 b.
Proof.
  unfold wrap64. intros H.
  rewrite (Zplus_mod a), (Zplus_mod b), H. reflexivity.
Qed.

Lemma int_add_comm a b : add a b = add b a.
Proof. unfold add. f_equal. lia. Qed.

Lemma int_add_assoc a b c : add (add a b) c = add a (add b c).
Proof.
  unfold add. apply wrap64_congr.
  rewrite (Zplus_mod (wrap64 (a + b))), wrap64_eqm, <- Zplus_mod.
  rewrite (Zplus_mod a (wrap64 (b + c))), wrap64_eqm, <- Zplus_mod.
  f_equal. lia.
Qed.

Lemma int_add_0_r a : in_range a -> add a 0 = a.
Proof. intros H. unfold add. rewrite Z.add_0_r. now apply wrap64_id. Qed.

Lemma int_add_0_l a : in_range a -> add 0 a = a.
Proof. intros H. rewrite int_add_comm. now apply int_add_0_r. Qed.


End GoIntFacts.

(** ** float64 addition and comparison *)

Module F64Facts.

Import F64.
Local Open Scope float_scope.

Lemma SFadd_comm prec emax x y : SFadd prec emax x y = SFadd prec emax y x.
Proof.
  destruct x as [[|]| [|] | | sx mx ex], y as [[|]| [|] | | sy my ey]; try reflexivity.
  cbn [SFadd]. rewrite (Z.min_comm ey ex). f_equal. apply Z.add_comm.
Qed.

Lemma float_add_comm x y : x + y = y + x.
Proof.
  apply Prim2SF_inj. rewrite !FloatAxioms.add_spec. apply SFadd_comm.
Qed.

Lemma float_add_0_r x : is_neg_zero x = false -> x + 0 = x.
Proof.
  unfold is_neg_zero. intros H. apply Prim2SF_inj. rewrite FloatAxioms.add_spec.
  change (Prim2SF 0) with (S754_zero false).
  destruct (Prim2SF x) as [[|]| [|] | | sx mx ex]; try reflexivity; discriminate.
Qed.

Lemma float_add_0_l x : is_neg_zero x = false -> 0 + x = x.
Proof. intros H. rewrite float_add_comm. now apply float_add_0_r. Qed.

(** Order facts.  A float that is not NaN has a rank, a triple of
    integers ordered lexicographically, and [SFcompare] compares ranks. *)

Definition notNaN (x : spec_float) : Prop :=
  match x with S754_nan => False | _ => True end.

Definition rank (x : spec_float) : Z * (Z * Z) :=
  match x with
  | S754_nan => (0, (0, 0))
  | S754_zero _ => (0, (0, 0))
  | S754_infinity true => (-2, (0, 0))
  | S754_infinity false => (2, (0, 0))
  | S754_finite true m e => (-1, (- e, - Z.pos m))
  | S754_finite false m e => (1, (e, Z.pos m))
  end%Z.

Definition lexlt (a b : Z * (Z * Z)) : Prop :=
  (fst a < fst b \/
   (fst a = fst b /\
    (fst (snd a) < fst (snd b) \/
     (fst (snd a) = fst (snd b) /\ snd (snd a) < snd (snd b)))))%Z.

Lemma lex_pos (e1 e2 : Z) (m1 m2 : positive) (c : comparison) :
  match (e1 ?= e2)%Z with Lt => Lt | Gt => Gt | Eq => Pos.compare_cont Eq m1 m2 end = c
  <-> match c with
      | Lt => (e1 < e2 \/ (e1 = e2 /\ Z.pos m1 < Z.pos m2))%Z
      | Eq => (e1 = e2 /\ Z.pos m1 = Z.pos m2)%Z
      | Gt => (e2 < e1 \/ (e1 = e2 /\ Z.pos m2 < Z.pos m1))%Z
      end.
Proof.
  fold (Pos.compare m1 m2).
  destruct (Z.compare_spec e1 e2) as [He|He|He];
    destruct (Pos.compare_spec m1 m2) as [Hm|Hm|Hm];
    destruct c; split; intros H; try discriminate; try reflexivity;
    try lia; try (subst; lia).
Qed.

Lemma lex_neg (e1 e2 : Z) (m1 m2 : positive) (c : comparison) :
  match (e1 ?= e2)%Z with
  | Lt => Gt | Gt => Lt | Eq => CompOpp (Pos.compare_cont Eq m1 m2)
  end = c
  <-> match c with
      | Lt => (e2 < e1 \/ (e1 = e2 /\ Z.pos m2 < Z.pos m1))%Z
      | Eq => (e1 = e2 /\ Z.pos m1 = Z.pos m2)%Z
      | Gt => (e1 < e2 \/ (e1 = e2 /\ Z.pos m1 < Z.pos m2))%Z
      end.
Proof.
  fold (Pos.compare m1 m2).
  destruct (Z.compare_spec e1 e2) as [He|He|He];
    destruct (Pos.compare_spec m1 m2) as [Hm|Hm|Hm];
    destruct c; split; intros H; try discriminate; try reflexivity;
    try lia; try (subst; lia).
Qed.

Lemma SFcompare_Lt_iff x y :
  SFcompare x y = Some Lt <-> notNaN x /\ notNaN y /\ lexlt (rank x) (rank y).
Proof.
  destruct x as [[|]| [|] | | [|] mx ex], y as [[|]| [|] | | [|] my ey];
    unfold lexlt; cbn [SFcompare notNaN rank fst snd];
    try (split; [intros [=]|intros (? & ? & ?)]; (tauto || lia));
    try (split; [intros _; repeat split; lia|reflexivity]).
  - split.
    + intros [= H]. apply lex_neg in H. repeat split. lia.
    + intros (_ & _ & H). f_equal. apply lex_neg. lia.
  - split.
    + intros [= H]. apply lex_pos in H. repeat split. lia.
    + intros (_ & _ & H). f_equal. apply lex_pos. lia.
Qed.

Lemma SFcompare_Eq_iff x y :
  SFcompare x y = Some Eq <-> notNaN x /\ notNaN y /\ rank x = rank y.
Proof.
  destruct x as [[|]| [|] | | [|] mx ex], y as [[|]| [|] | | [|] my ey];
    cbn [SFcompare notNaN rank];
    try (split; [intros [=]|intros (? & ? & [=])]; (tauto || lia));
    try (split; [intros _; repeat split|reflexivity]).
  - split.
    + intros [= H]. apply lex_neg in H. destruct H as [-> [= ->]]. repeat split.
    + intros (_ & _ & [= H1 H2]). f_equal. apply lex_neg. lia.
  - split.
    + intros [= H]. apply lex_pos in H. destruct H as [-> [= ->]]. repeat split.
    + intros (_ & _ & [= H1 H2]). f_equal. apply lex_pos. lia.
Qed.

Lemma ltb_iff x y :
  (x <? y) = true
  <-> notNaN (Prim2SF x) /\ notNaN (Prim2SF y)
      /\ lexlt (rank (Prim2SF x)) (rank (Prim2SF y)).
Proof.
  rewrite FloatAxioms.ltb_spec. unfold SFltb.
  pose proof (SFcompare_Lt_iff (Prim2SF x) (Prim2SF y)) as H.
  destruct (SFcompare _ _) as [[| |]|]; split; intros H';
    solve [reflexivity | now apply H | apply H in H'; discriminate H' | discriminate H'].
Qed.

Lemma eqb_iff x y :
  (x =? y) = true
  <-> notNaN (Prim2SF x) /\ notNaN (Prim2SF y)
      /\ rank (Prim2SF x) = rank (Prim2SF y).
Proof.
  rewrite FloatAxioms.eqb_spec. unfold SFeqb.
  pose proof (SFcompare_Eq_iff (Prim2SF x) (Prim2SF y)) as H.
  destruct (SFcompare _ _) as [[| |]|]; split; intros H';
    solve [reflexivity | now apply H | apply H in H'; discriminate H' | discriminate H'].
Qed.

Ltac order_facts :=
  unfold gt in *;
  repeat match goal with
         | H : (_ <? _) = true |- _ => apply ltb_iff in H
         | H : (_ =? _) = true |- _ => apply eqb_iff in H
         | H : (_ <? _) = false |- _ => apply not_true_iff_false in H; rewrite ltb_iff in H
         | H : (_ =? _) = false |- _ => apply not_true_iff_false in H; rewrite eqb_iff in H
         | |- (_ <? _) = true => apply ltb_iff
         | |- (_ =? _) = true => apply eqb_iff
         | |- (_ <? _) = false => apply not_true_iff_false; rewrite ltb_iff; intros ?
         | |- (_ =? _) = false => apply not_true_iff_false; rewrite eqb_iff; intros ?
         end;
  unfold lexlt in *.

Lemma gt_trans x y z : gt x y = true -> gt y z = true -> gt x z = true.
Proof. intros H1 H2. order_facts. intuition lia. Qed.

Lemma gt_irrefl x : gt x x = false.
Proof. order_facts. intuition lia. Qed.

Lemma gt_asym x y : gt x y = true -> gt y x = false.
Proof. intros H. order_facts. intuition lia. Qed.

Lemma gt_not_eqb x y : gt x y = true -> (y =? x) = false.
Proof.
  intros H. order_facts.
  destruct H as (_ & _ & H), H0 as (_ & _ & H0). rewrite H0 in H. lia.
Qed.

Lemma eqb_gt_compat x r c : (x =? r) = true -> gt r c = true -> gt x c = true.
Proof.
  intros H1 H2. order_facts.
  destruct H1 as (? & ? & H1), H2 as (? & ? & H2). rewrite H1. tauto.
Qed.

End F64Facts.

(** ** The Metrics merge *)

Module MetFacts.

Import Met.

Lemma addMetrics_comm a b : addMetrics a b = addMetrics b a.
Proof.
  unfold addMetrics. f_equal;
    solve [apply F64Facts.float_add_comm | apply GoIntFacts.int_add_comm].
Qed.

Lemma addMetrics_zero_r m : wf m -> addMetrics m zero = m.
Proof.
  destruct m as [c it ot crt cwt ic oc crc cwc].
  unfold wf, costs; cbn. intros (Hi & Ho & Hcr & Hcw & Hf).
  repeat match goal with
         | H : Forall _ (_ :: _) |- _ => apply Forall_cons_iff in H as [? H]
         end.
  unfold addMetrics; cbn. f_equal;
    solve [now apply F64Facts.float_add_0_r | now apply GoIntFacts.int_add_0_r].
Qed.

Lemma addMetrics_tokens_assoc a b c :
  tokens (addMetrics (addMetrics a b) c) = tokens (addMetrics a (addMetrics b c)).
Proof.
  unfold tokens, addMetrics; cbn. now rewrite !GoIntFacts.int_add_assoc.
Qed.

(** C8, as the specification states it, fails: the float64 amounts of
    three aggregates costing 0.1, 0.2 and 0.3 merge to
    0.6000000000000001 in one grouping and to 0.6 in the other. *)
Lemma addMetrics_not_associative :
  addMetrics (addMetrics (ofCost 0x1.999999999999ap-4) (ofCost 0x1.999999999999ap-3))
             (ofCost 0x1.3333333333333p-2)
  <> addMetrics (ofCost 0x1.999999999999ap-4)
                (addMetrics (ofCost 0x1.999999999999ap-3) (ofCost 0x1.3333333333333p-2)).
Proof.
  intros H. apply (f_equal (fun m => Prim2SF (Cost m))) in H.
  vm_compute in H. discriminate H.
Qed.

(** C8 (amended): the merge of [Metrics] is commutative on all values,
    the zero value is its identity on every well-formed value, and it is
    associative on the four token counts (the float64 amounts are
    associative only up to rounding). *)
Theorem addMetrics_laws :
  (forall a b, addMetrics a b = addMetrics b a) /\
  (forall m, wf m -> addMetrics m zero = m /\ addMetrics zero m = m) /\
  (forall a b c,
      tokens (addMetrics (addMetrics a b) c)
      = tokens (addMetrics a (addMetrics b c))).
Proof.
  split; [exact addMetrics_comm|]. split; [|exact addMetrics_tokens_assoc].
  intros m Hm. split; [|rewrite addMetrics_comm]; now apply addMetrics_zero_r.
Qed.

Lemma addMetrics_laws_witness :
  wf (mkMetrics 0x1.8p+1 10 20 30 40 0x1p+0 0x1p+0 0x1p-1 0x1p-1) /\
  addMetrics (mkMetrics 0x1.8p+1 10 20 30 40 0x1p+0 0x1p+0 0x1p-1 0x1p-1) zero
  = mkMetrics 0x1.8p+1 10 20 30 40 0x1p+0 0x1p+0 0x1p-1 0x1p-1.
Proof.
  assert (Hwf : wf (mkMetrics 0x1.8p+1 10 20 30 40 0x1p+0 0x1p+0 0x1p-1 0x1p-1)).
  { unfold wf, GoInt.in_range, GoInt.two63; cbn.
    repeat split; try lia. repeat constructor. }
  split; [exact Hwf|].
  exact (proj1 (proj1 (proj2 addMetrics_laws) _ Hwf)).
Defined.

End MetFacts.

(** ** History file names *)

Module NameFacts.

Import History.

(** C3 at a day before the Unix epoch: the start of 1969-12-31 (UTC) is
    second -86400, [FormatInt] writes it with a minus sign, the name
    gets two dashes in a row, [strings.Split] yields an empty fourth
    field, and [ParseHistoryFilename] returns an error.  The same
    happens for [time.Time{}], the timestamp of a line that has none. *)
Theorem HistoryFilename_before_epoch_unparsed :
  HistoryFilename Sample.beforeEpoch = "1969-12-31--86400-0.jsonl"%string /\
  Strs.Split "1969-12-31--86400-0" Strs.dash
  = ["1969"; "12"; "31"; ""; "86400"; "0"]%string /\
  ParseHistoryFilename (HistoryFilename Sample.beforeEpoch) = None /\
  HistoryFilename Acc.zeroTime
  = "0001-01-01--62135596800--62135510400.jsonl"%string /\
  ParseHistoryFilename (HistoryFilename Acc.zeroTime) = None.
Proof. repeat split; vm_compute; reflexivity. Qed.

End NameFacts.

(** ** Selecting history files by name *)

Module FilterFacts.

Import History.

Lemma fold_append_filter {A} (p : A -> bool) (l init : list A) :
  List.fold_left (fun acc x => if p x then List.app acc [x] else acc) l init
  = List.app init (List.filter p l).
Proof.
  revert init. induction l as [|x l IH]; intros init; cbn.
  - now rewrite List.app_nil_r.
  - rewrite IH. destruct (p x); [|reflexivity].
    now rewrite <- List.app_assoc.
Qed.

Lemma FilterFilesForRange_filter files qs qe :
  FilterFilesForRange files qs qe
  = List.filter (fun f => FileOverlapsRange f qs qe) files.
Proof. unfold FilterFilesForRange. now rewrite fold_append_filter. Qed.

Lemma FileOverlapsRange_true f qs qe :
  FileOverlapsRange f qs qe = true <->
  exists s e, ParseHistoryFilename f = Some (s, e) /\ s < qe /\ qs < e.
Proof.
  unfold FileOverlapsRange.
  destruct (ParseHistoryFilename f) as [[s e]|].
  - rewrite andb_true_iff, !Z.ltb_lt. split.
    + intros [? ?]. now exists s, e.
    + intros (s' & e' & [= <- <-] & ? & ?). now split.
  - split; [discriminate|]. now intros (? & ? & ? & _).
Qed.

(** C4: [FilterFilesForRange] keeps, in order, exactly the names whose
    embedded interval [[s, e)] meets the query interval strictly
    ([s < queryEnd] and [e > queryStart]); a file ending at [queryStart]
    or starting at [queryEnd] is left out.  The test is a function of
    the name: no file system appears among its arguments. *)
Theorem FilterFilesForRange_spec (files : list string) (queryStart queryEnd : Z) :
  (forall f,
      In f (FilterFilesForRange files queryStart queryEnd) <->
      In f files /\
      exists s e, ParseHistoryFilename f = Some (s, e)
                  /\ s < queryEnd /\ e > queryStart) /\
  (forall f s e,
      ParseHistoryFilename f = Some (s, e) ->
      e = queryStart \/ s = queryEnd ->
      ~ In f (FilterFilesForRange files queryStart queryEnd)) /\
  FilterFilesForRange files queryStart queryEnd
  = List.filter (fun f => FileOverlapsRange f queryStart queryEnd) files.
Proof.
  rewrite FilterFilesForRange_filter.
  split; [|split; [|reflexivity]].
  - intros f. rewrite List.filter_In, FileOverlapsRange_true.
    split; intros (Hin & s & e & Hp & ? & ?);
      (split; [assumption|]); exists s, e; (split; [assumption|lia]).
  - intros f s e Hp Hb Hin. apply List.filter_In in Hin as [_ Hin].
    apply FileOverlapsRange_true in Hin as (s' & e' & Hp' & ? & ?).
    rewrite Hp in Hp'. injection Hp' as <- <-. lia.
Qed.

Lemma FilterFilesForRange_spec_witness :
  FilterFilesForRange
    ["/h/2024-01-04-10-20.jsonl"; "/h/2024-01-05-20-30.jsonl";
     "/h/2024-01-06-30-40.jsonl"; "notes.jsonl"]%string 20 30
  = ["/h/2024-01-05-20-30.jsonl"]%string /\
  ~ In "/h/2024-01-04-10-20.jsonl"%string
      (FilterFilesForRange
         ["/h/2024-01-04-10-20.jsonl"; "/h/2024-01-05-20-30.jsonl";
          "/h/2024-01-06-30-40.jsonl"; "notes.jsonl"]%string 20 30).
Proof.
  split; [reflexivity|].
  apply (proj1 (proj2 (FilterFilesForRange_spec _ 20 30))
           "/h/2024-01-04-10-20.jsonl"%string 10 20); [reflexivity|now left].
Defined.

End FilterFacts.

(** ** The accumulator *)

Module AccFacts.

Import Acc AccView.


Lemma retained_app cur l1 l2 :
  retained cur (l1 ++ l2) = retained (retained cur l1) l2.
Proof. unfold retained. apply List.fold_left_app. Qed.

Lemma retained_cons cur x l : retained cur (x :: l) = retained (pick cur x) l.
Proof. reflexivity. Qed.


(** What [retained] keeps: no record of the list costs more, and the
    kept record either is the initial one or occurs in the list, costs
    more than the initial one, and has no equal-cost record before it. *)
Lemma retained_spec r0 l r :
  retained (Some r0) l = Some r ->
  (forall x, In x (r0 :: l) -> F64.gt (Rec.Cost x) (Rec.Cost r) = false) /\
  (r = r0 \/
   (F64.gt (Rec.Cost r) (Rec.Cost r0) = true /\
    exists l1 l2, l = l1 ++ r :: l2 /\
      forall x, In x l1 -> (Rec.Cost x =? Rec.Cost r)%float = false)).
Proof.
  revert r0. induction l as [|x l IH]; intros r0 Hr.
  - injection Hr as <-. split; [|now left].
    intros x [<-|[]]. apply F64Facts.gt_irrefl.
  - rewrite retained_cons in Hr. cbn [pick] in Hr.
    destruct (F64.gt (Rec.Cost x) (Rec.Cost r0)) eqn:Hx.
    + apply IH in Hr as [Hmax Hpos].
      assert (Hr0 : F64.gt (Rec.Cost r) (Rec.Cost r0) = true).
      { destruct Hpos as [->|[Hgt _]]; [assumption|].
        eapply F64Facts.gt_trans; eassumption. }
      split.
      * intros y [<-|Hy]; [now apply F64Facts.gt_asym|now apply Hmax].
      * right. split; [assumption|].
        destruct Hpos as [->|(Hgt & l1 & l2 & -> & Hl1)].
        -- exists [], l. split; [reflexivity|]. intros ? [].
        -- exists (x :: l1), l2. split; [reflexivity|].
           intros y [<-|Hy]; [now apply F64Facts.gt_not_eqb|now apply Hl1].
    + apply IH in Hr as [Hmax Hpos]. split.
      * intros y [<-|[<-|Hy]].
        -- apply Hmax. now left.
        -- destruct Hpos as [->|[Hgt _]]; [assumption|].
           destruct (F64.gt (Rec.Cost x) (Rec.Cost r)) eqn:Hyr; [|reflexivity].
           rewrite (F64Facts.gt_trans _ _ _ Hyr Hgt) in Hx. discriminate.
        -- apply Hmax. now right.
      * destruct Hpos as [->|(Hgt & l1 & l2 & -> & Hl1)]; [now left|].
        right. split; [assumption|].
        exists (x :: l1), l2. split; [reflexivity|].
        intros y [<-|Hy]; [|now apply Hl1].
        destruct (Rec.Cost x =? Rec.Cost r)%float eqn:Heq; [|reflexivity].
        rewrite (F64Facts.eqb_gt_compat _ _ _ Heq Hgt) in Hx. discriminate.
Qed.

Lemma hasRequestID_true rid r :
  hasRequestID rid r = true <-> Rec.RequestID r = Some rid.
Proof.
  unfold hasRequestID. destruct (Rec.RequestID r) as [x|].
  - rewrite String.eqb_eq. split; congruence.
  - split; discriminate.
Qed.






Lemma retained_In cur l r :
  retained cur l = Some r -> cur = Some r \/ In r l.
Proof.
  revert cur. induction l as [|x l IH]; intros cur H; [now left|].
  rewrite retained_cons in H. apply IH in H as [H|H]; [|right; now right].
  destruct cur as [e|]; cbn [pick] in H.
  - destruct (F64.gt _ _); injection H as <-; [right; now left|now left].
  - injection H as <-. right. now left.
Qed.

(** *** Deduplication by UUID *)

Lemma nonEmpty_true s : nonEmpty s = true <-> s <> EmptyString.
Proof.
  unfold nonEmpty. rewrite negb_true_iff.
  destruct (String.eqb_spec s ""); split; congruence.
Qed.



(** *** Independence of the arrival order *)











Section Run.

Variable BuildGroupKey : Rec.CostRecord -> string.
Variable rangeMap : gmap string Rec.CostRecord -> list Rec.CostRecord.

(** Whatever the order, [range] visits every value of the map once. *)
Hypothesis rangeMap_perm : forall m, Permutation (rangeMap m) (map_to_list m).*2.


Lemma track_frame st r :
  let st' := trackClaude (trackHistoryUUID st r) r in
  metricsByGroup st' = metricsByGroup st /\ allRecords st' = allRecords st /\
  maxCostByRequestID st' = maxCostByRequestID st /\ seenUUIDs st' = seenUUIDs st.
Proof.
  unfold trackClaude, trackHistoryUUID.
  destruct (Rec.FromHistory r && _); cbn;
    destruct (negb (Rec.FromHistory r) && _); cbn;
    repeat match goal with |- context [let '(_, _) := ?e in _] => destruct e end;
    cbn; tauto.
Qed.

Lemma fold_frame st r :
  maxCostByRequestID (fold BuildGroupKey st r) = maxCostByRequestID st /\
  seenUUIDs (fold BuildGroupKey st r) = seenUUIDs st /\
  allRecords (fold BuildGroupKey st r) = allRecords st ++ [r].
Proof. now cbn. Qed.



Lemma receive_maxCost st r rid :
  maxCostByRequestID (receive BuildGroupKey st r) !! rid
  = if hasRequestID rid r then pick (maxCostByRequestID st !! rid) r
    else maxCostByRequestID st !! rid.
Proof.
  unfold receive. destruct (track_frame st r) as (_ & _ & Hm & _).
  cbv zeta in Hm. revert Hm.
  generalize (trackClaude (trackHistoryUUID st r) r). intros st' Hm.
  unfold dedupe, hasRequestID. destruct (Rec.RequestID r) as [x|].
  - rewrite Hm. destruct (String.eqb_spec x rid) as [->|Hne].
    + destruct (maxCostByRequestID st !! rid) as [e|] eqn:He; cbn [pick].
      * destruct (F64.gt _ _); cbn; [now rewrite lookup_insert_eq|].
        now rewrite Hm.
      * cbn. now rewrite lookup_insert_eq.
    + destruct (maxCostByRequestID st !! x) as [e|]; [destruct (F64.gt _ _)|];
        cbn; rewrite ?lookup_insert_ne by assumption; now rewrite ?Hm.
  - destruct (_ && _); [now rewrite Hm|].
    destruct (nonEmpty _); cbn; now rewrite Hm.
Qed.

Lemma drain_maxCost st rs rid :
  maxCostByRequestID (drain BuildGroupKey st rs) !! rid
  = retained (maxCostByRequestID st !! rid) (List.filter (hasRequestID rid) rs).
Proof.
  revert st. induction rs as [|r rs IH]; intros st; [reflexivity|].
  cbn [drain List.fold_left List.filter].
  change (List.fold_left (receive BuildGroupKey) rs (receive BuildGroupKey st r))
    with (drain BuildGroupKey (receive BuildGroupKey st r) rs).
  rewrite IH, receive_maxCost. now destruct (hasRequestID rid r).
Qed.














End Run.




End AccFacts.

(** ** Strings *)

Module StrFacts.

Import Strs.

Lemma append_cons c s t :
  String.append (String c s) t = String c (String.append s t).
Proof. reflexivity. Qed.

Lemma append_empty_r s : String.append s "" = s.
Proof.
  induction s as [|c s IH]; [reflexivity|]. now rewrite append_cons, IH.
Qed.

Lemma append_assoc s1 s2 s3 :
  String.append (String.append s1 s2) s3 = String.append s1 (String.append s2 s3).
Proof.
  induction s1 as [|c s IH]; [reflexivity|]. now rewrite !append_cons, IH.
Qed.

Lemma Split_nonempty s c : Split s c <> [].
Proof.
  destruct s as [|d s]; cbn; [discriminate|].
  destruct (Ascii.eqb d c); [discriminate|]. now destruct (Split s c).
Qed.

Lemma Split_cons_other d s c :
  Ascii.eqb d c = false ->
  Split (String d s) c
  = match Split s c with
    | cur :: rest => String d cur :: rest
    | [] => [String d ""]
    end.
Proof. intros H. cbn. now rewrite H. Qed.

(** Splitting at a separator that the first piece does not contain. *)
Lemma Split_app_sep l c rest :
  hasByte c l = false ->
  Split (String.append l (String c rest)) c = l :: Split rest c.
Proof.
  induction l as [|d l IH]; intros H.
  - change (String.append "" (String c rest)) with (String c rest).
    cbn [Split]. now rewrite Ascii.eqb_refl.
  - cbn [hasByte] in H. apply orb_false_iff in H as [Hd Hl].
    rewrite append_cons, Split_cons_other by now rewrite Ascii.eqb_sym.
    now rewrite IH.
Qed.

Lemma Split_no_sep s c : hasByte c s = false -> Split s c = [s].
Proof.
  induction s as [|d s IH]; intros H; [reflexivity|].
  cbn [hasByte] in H. apply orb_false_iff in H as [Hd Hl].
  rewrite Split_cons_other by now rewrite Ascii.eqb_sym.
  now rewrite IH.
Qed.

Lemma len_zero s : (len s =? 0)%Z = true <-> s = "".
Proof.
  unfold len. rewrite Z.eqb_eq. destruct s; cbn; split; intros H;
    try reflexivity; try discriminate; lia.
Qed.

End StrFacts.

(** ** System calls *)

Module OSFacts.

Import OS.
Export StrFacts.

Ltac unfold_io :=
  unfold andThen, bind, ret, getFS, putFS, getEnv, nextFault, logWarning in *.

(** The files other than [file] are untouched and [file] has grown by
    [written]. *)
Definition grown (w w' : World) (file written : string) : Prop :=
  (forall p, p <> file -> files (fs w') !! p = files (fs w) !! p) /\
  contentOf (fs w') file = String.append (contentOf (fs w) file) written /\
  dirs (fs w) ⊆ dirs (fs w') /\
  env w' = env w.

Lemma grown_refl w file : grown w w file "".
Proof.
  split; [reflexivity|]. split; [now rewrite append_empty_r|].
  split; [set_solver|reflexivity].
Qed.

Lemma grown_trans w1 w2 w3 file s1 s2 :
  grown w1 w2 file s1 -> grown w2 w3 file s2 ->
  grown w1 w3 file (String.append s1 s2).
Proof.
  intros (Ho1 & Hc1 & Hd1 & He1) (Ho2 & Hc2 & Hd2 & He2).
  split; [|split; [|split]].
  - intros p Hp. now rewrite Ho2, Ho1.
  - now rewrite Hc2, Hc1, append_assoc.
  - set_solver.
  - congruence.
Qed.

Lemma MkdirAll_spec path w :
  files (fs (snd (MkdirAll path w))) = files (fs w) /\
  stable (fs (snd (MkdirAll path w))) = stable (fs w) /\
  dirs (fs w) ⊆ dirs (fs (snd (MkdirAll path w))) /\
  env (snd (MkdirAll path w)) = env w /\
  log (snd (MkdirAll path w)) = log w /\
  (fst (MkdirAll path w) = Ok tt -> path ∈ dirs (fs (snd (MkdirAll path w)))).
Proof.
  unfold MkdirAll. unfold_io.
  destruct (faults w) as [|[k|] rest]; cbn;
    try (repeat split; try reflexivity; discriminate);
    destruct (List.existsb _ _); cbn;
    (repeat split; try reflexivity; try discriminate; try set_solver).
  all: intros _; apply elem_of_union; left; apply elem_of_list_to_set;
    destruct path as [|c p]; cbn; [now left|];
    destruct (String.eqb _ _); now left.
Qed.

Lemma OpenAppend_spec file w :
  (forall p, contentOf (fs (snd (OpenAppend file w))) p = contentOf (fs w) p) /\
  (forall p, p <> file ->
             files (fs (snd (OpenAppend file w))) !! p = files (fs w) !! p) /\
  dirs (fs (snd (OpenAppend file w))) = dirs (fs w) /\
  env (snd (OpenAppend file w)) = env w /\
  log (snd (OpenAppend file w)) = log w /\
  (forall h, fst (OpenAppend file w) = Ok h ->
             h = file /\ is_Some (files (fs (snd (OpenAppend file w))) !! file)).
Proof.
  unfold OpenAppend. unfold_io.
  destruct (faults w) as [|[k|] rest]; cbn;
    try (repeat split; try reflexivity; discriminate);
    destruct (bool_decide (file ∈ _)); cbn;
    try (repeat split; try reflexivity; discriminate);
    destruct (bool_decide (Strs.Dir file ∈ _)); cbn;
    try (repeat split; try reflexivity; discriminate);
    destruct (files (fs w) !! file) as [c|] eqn:Hf; cbn.
  all: repeat split; try reflexivity;
    try (intros p; unfold contentOf; cbn;
         destruct (decide (p = file)) as [->|Hne];
         [now rewrite lookup_insert_eq, Hf|now rewrite lookup_insert_ne]);
    try (intros p Hne; now rewrite lookup_insert_ne);
    try (intros h [= <-]; split; [reflexivity|]);
    try (rewrite Hf; eauto); try (rewrite lookup_insert_eq; eauto);
    try congruence.
Qed.

Lemma substring_prefix k b : exists rest, b = String.append (substring 0 k b) rest.
Proof.
  revert k. induction b as [|c b IH]; intros [|k]; cbn [substring].
  - now exists "".
  - now exists "".
  - now exists (String c b).
  - destruct (IH k) as [rest Hr]. exists rest. now rewrite append_cons, <- Hr.
Qed.

Lemma contentOf_insert f file v p :
  contentOf (mkFS (<[file := v]> (files f)) (dirs f) (stable f)) p
  = if decide (p = file) then v else contentOf f p.
Proof.
  unfold contentOf. cbn. destruct (decide (p = file)) as [->|Hne].
  - now rewrite lookup_insert_eq.
  - now rewrite lookup_insert_ne.
Qed.

Lemma Write_spec handle b w r w' :
  Write handle b w = (r, w') ->
  exists written,
    grown w w' handle written /\
    (exists rest, b = String.append written rest) /\
    (r = Ok tt -> written = b) /\
    log w' = log w /\
    is_Some (files (fs w') !! handle) /\
    (faults w = [] -> r = Ok tt /\ faults w' = []).
Proof.
  unfold Write. unfold_io.
  destruct (faults w) as [|[k|] rest] eqn:Hfl; cbn; intros [= <- <-]; cbn.
  1,3: exists b. 3: exists (substring 0 k b).
  all: (split; [split; [|split; [|split]]|]); cbn;
    try (intros p Hne; now rewrite lookup_insert_ne);
    try (unfold contentOf at 1; cbn; now rewrite lookup_insert_eq);
    try reflexivity.
  all: split; [try (now exists ""; rewrite append_empty_r); apply substring_prefix|].
  all: split; [try reflexivity; discriminate|].
  all: split; [reflexivity|]. all: rewrite lookup_insert_eq.
  all: split; [eauto|]; try discriminate; now intros _.
Qed.

Lemma Sync_spec handle w r w' :
  Sync handle w = (r, w') ->
  files (fs w') = files (fs w) /\ dirs (fs w') = dirs (fs w) /\
  env w' = env w /\ log w' = log w /\
  (r = Ok tt -> stable (fs w') !! handle = Some (contentOf (fs w') handle)) /\
  (faults w = [] -> r = Ok tt /\ faults w' = []).
Proof.
  unfold Sync. unfold_io.
  destruct (faults w) as [|[k|] rest] eqn:Hfl; cbn; intros [= <- <-]; cbn.
  - do 4 (split; [reflexivity|]). split; [|now intros _].
    intros _. now rewrite lookup_insert_eq.
  - do 4 (split; [reflexivity|]). split; discriminate.
  - do 4 (split; [reflexivity|]). split; [|discriminate].
    intros _. now rewrite lookup_insert_eq.
Qed.

Lemma MkdirAll_inv path w r w' :
  MkdirAll path w = (r, w') ->
  files (fs w') = files (fs w) /\ stable (fs w') = stable (fs w) /\
  dirs (fs w) ⊆ dirs (fs w') /\ env w' = env w /\ log w' = log w /\
  (r = Ok tt -> path ∈ dirs (fs w')).
Proof.
  intros H. pose proof (MkdirAll_spec path w) as Hs. now rewrite H in Hs.
Qed.

Lemma OpenAppend_inv file w r w' :
  OpenAppend file w = (r, w') ->
  (forall p, contentOf (fs w') p = contentOf (fs w) p) /\
  (forall p, p <> file -> files (fs w') !! p = files (fs w) !! p) /\
  dirs (fs w') = dirs (fs w) /\ env w' = env w /\ log w' = log w /\
  (forall h, r = Ok h -> h = file /\ is_Some (files (fs w') !! file)).
Proof.
  intros H. pose proof (OpenAppend_spec file w) as Hs. now rewrite H in Hs.
Qed.

Lemma ancestors_head n path : path ∈ ancestors n path.
Proof.
  destruct n; cbn; [now left|]. destruct (String.eqb _ _); now left.
Qed.

Lemma MkdirAll_ok path w :
  faults w = [] ->
  Forall (fun a => a ∉ dom (files (fs w))) (ancestors (String.length path) path) ->
  exists w',
    MkdirAll path w = (Ok tt, w') /\ faults w' = [] /\
    dirs (fs w')
    = list_to_set (ancestors (String.length path) path) ∪ dirs (fs w).
Proof.
  intros Hfl Hanc. unfold MkdirAll. unfold_io. rewrite Hfl. cbn.
  assert (Hex : List.existsb (fun a => bool_decide (a ∈ dom (files (fs w))))
                  (ancestors (String.length path) path) = false).
  { apply not_true_iff_false. rewrite List.existsb_exists.
    intros (a & Ha & Hd). apply bool_decide_eq_true in Hd.
    rewrite Forall_forall in Hanc. apply list_elem_of_In in Ha.
    now apply Hanc in Ha. }
  rewrite Hex. cbn. eexists. split; [reflexivity|]. cbn. now split.
Qed.

Lemma OpenAppend_ok file w :
  faults w = [] -> file ∉ dirs (fs w) -> Strs.Dir file ∈ dirs (fs w) ->
  exists w', OpenAppend file w = (Ok file, w') /\ faults w' = [].
Proof.
  intros Hfl Hnd Hd. unfold OpenAppend. unfold_io. rewrite Hfl. cbn.
  rewrite (bool_decide_eq_false_2 _ Hnd), (bool_decide_eq_true_2 _ Hd). cbn.
  destruct (files (fs w) !! file); cbn; eexists; (split; [reflexivity|]);
    cbn; assumption.
Qed.

End OSFacts.

(** ** The history store on disk *)

Module StoreFacts.

Import OS OSFacts History.

Lemma writeLines_spec handle lines w r w' :
  writeLines handle lines w = (r, w') ->
  exists written,
    grown w w' handle written /\
    (exists rest, batch lines = String.append written rest) /\
    (r = Ok tt -> written = batch lines) /\
    log w' = log w /\
    (faults w = [] -> r = Ok tt /\ faults w' = []).
Proof.
  revert w. induction lines as [|line lines IH]; intros w H.
  - injection H as <- <-. exists "". split; [apply grown_refl|].
    split; [now exists ""|]. repeat split; assumption.
  - cbn [writeLines] in H. unfold andThen at 1, bind at 1 in H.
    destruct (Write handle line w) as [r1 w1] eqn:E1.
    destruct (Write_spec _ _ _ _ _ E1)
      as (s1 & Hg1 & [rest1 Hp1] & Hok1 & Hl1 & _ & Hf1).
    destruct r1 as [[]|e1].
    2:{ injection H as <- <-. exists s1. split; [assumption|].
        split; [|split; [discriminate|split; [assumption|]]].
        - exists (String.append rest1 (String Strs.newline (batch lines))).
          cbn [batch]. rewrite <- append_assoc. now rewrite <- Hp1.
        - intros Hfl. now destruct (Hf1 Hfl). }
    rewrite (Hok1 eq_refl) in Hg1. clear s1 rest1 Hp1 Hok1.
    unfold andThen at 1, bind at 1 in H.
    destruct (Write handle (String Strs.newline "") w1) as [r2 w2] eqn:E2.
    destruct (Write_spec _ _ _ _ _ E2)
      as (s2 & Hg2 & [rest2 Hp2] & Hok2 & Hl2 & _ & Hf2).
    pose proof (grown_trans _ _ _ _ _ _ Hg1 Hg2) as Hg12.
    destruct r2 as [[]|e2].
    2:{ injection H as <- <-. exists (String.append line s2).
        split; [assumption|].
        split; [|split; [discriminate|split; [congruence|]]].
        - exists (String.append rest2 (batch lines)). cbn [batch].
          rewrite append_assoc, <- (append_assoc s2), <- Hp2. reflexivity.
        - intros Hfl. destruct (Hf1 Hfl) as [_ Hfl1]. now destruct (Hf2 Hfl1). }
    rewrite (Hok2 eq_refl) in Hg12. clear s2 rest2 Hp2 Hok2 Hg2.
    apply IH in H as (s3 & Hg3 & [rest3 Hp3] & Hok3 & Hl3 & Hf3).
    exists (String.append (String.append line (String Strs.newline "")) s3).
    split; [eapply grown_trans; eassumption|].
    split; [|split; [|split; [congruence|]]].
    + exists rest3. cbn [batch].
      rewrite !append_assoc, append_cons. cbn [String.append].
      now rewrite <- Hp3.
    + intros Hr. rewrite (Hok3 Hr). cbn [batch].
      now rewrite append_assoc, append_cons.
    + intros Hfl. destruct (Hf1 Hfl) as [_ Hfl1].
      destruct (Hf2 Hfl1) as [_ Hfl2]. now apply Hf3.
Qed.

Lemma writeLines_keeps handle lines w :
  is_Some (files (fs w) !! handle) ->
  is_Some (files (fs (snd (writeLines handle lines w))) !! handle).
Proof.
  revert w. induction lines as [|line lines IH]; intros w H; [assumption|].
  cbn [writeLines]. unfold andThen at 1, bind at 1.
  destruct (Write handle line w) as [r1 w1] eqn:E1.
  destruct (Write_spec _ _ _ _ _ E1) as (_ & _ & _ & _ & _ & H1 & _).
  destruct r1 as [[]|e1]; [|assumption].
  unfold andThen at 1, bind at 1.
  destruct (Write handle (String Strs.newline "") w1) as [r2 w2] eqn:E2.
  destruct (Write_spec _ _ _ _ _ E2) as (_ & _ & _ & _ & _ & H2 & _).
  destruct r2 as [[]|e2]; [|assumption]. now apply IH.
Qed.

Lemma grown_same_files w w' file :
  (forall p, contentOf (fs w') p = contentOf (fs w) p) ->
  (forall p, p <> file -> files (fs w') !! p = files (fs w) !! p) ->
  dirs (fs w) ⊆ dirs (fs w') -> env w' = env w ->
  grown w w' file "".
Proof.
  intros Hc Ho Hd He. split; [assumption|]. split; [|now split].
  now rewrite Hc, append_empty_r.
Qed.

Lemma AppendRawLines_effect file lines w r w' :
  lines <> [] ->
  AppendRawLines file lines w = (r, w') ->
  exists written,
    grown w w' file written /\
    (exists rest, batch lines = String.append written rest) /\
    (r = Ok tt ->
     written = batch lines /\
     Strs.Dir file ∈ dirs (fs w') /\
     is_Some (files (fs w') !! file) /\
     stable (fs w') !! file = Some (contentOf (fs w') file) /\
     log w' = log w).
Proof.
  intros Hne H. unfold AppendRawLines in H.
  destruct lines as [|l0 ls]; [contradiction|]. clear Hne.
  set (lines := l0 :: ls) in *. clearbody lines.
  unfold andThen at 1, bind at 1 in H.
  destruct (MkdirAll (Strs.Dir file) w) as [r1 w1] eqn:E1.
  destruct (MkdirAll_inv _ _ _ _ E1) as (Hf1 & _ & Hd1 & He1 & Hl1 & Hin1).
  assert (Hg1 : grown w w1 file "").
  { apply grown_same_files; try assumption.
    - intros p. unfold contentOf. now rewrite Hf1.
    - intros p _. now rewrite Hf1. }
  destruct r1 as [[]|e1].
  2:{ injection H as <- <-. exists "". split; [assumption|].
      split; [now exists (batch lines)|discriminate]. }
  unfold andThen at 1, bind at 1 in H.
  destruct (OpenAppend file w1) as [r2 w2] eqn:E2.
  destruct (OpenAppend_inv _ _ _ _ E2) as (Hc2 & Ho2 & Hd2 & He2 & Hl2 & Hh2).
  assert (Hg2 : grown w w2 file "").
  { change "" with (String.append "" ""). eapply grown_trans; [eassumption|].
    apply grown_same_files; try assumption. now rewrite Hd2. }
  destruct r2 as [h|e2].
  2:{ injection H as <- <-. exists "". split; [assumption|].
      split; [now exists (batch lines)|discriminate]. }
  destruct (Hh2 h eq_refl) as [-> Hsome2].
  unfold andThen at 1, bind at 1 in H.
  destruct (writeLines file lines w2) as [r3 w3] eqn:E3.
  destruct (writeLines_spec _ _ _ _ _ E3) as (s3 & Hg3 & Hp3 & Hok3 & Hl3 & _).
  pose proof (grown_trans _ _ _ _ _ _ Hg2 Hg3) as Hg. cbn [String.append] in Hg.
  destruct r3 as [[]|e3].
  2:{ injection H as <- <-. exists s3. split; [assumption|].
      split; [assumption|discriminate]. }
  destruct (Sync_spec _ _ _ _ H) as (Hf4 & Hd4 & He4 & Hl4 & Hst & _).
  exists s3. split.
  { destruct Hg as (Ho & Hc & Hd & He). split; [|split; [|split]].
    - intros p Hp. rewrite Hf4. now apply Ho.
    - unfold contentOf in *. now rewrite Hf4.
    - now rewrite Hd4.
    - congruence. }
  split; [assumption|]. intros Hr.
  split; [now apply Hok3|]. split.
  { rewrite Hd4. destruct Hg3 as (_ & _ & Hd3 & _). apply Hd3.
    rewrite Hd2. now apply Hin1. }
  split.
  { rewrite Hf4. pose proof (writeLines_keeps file lines w2 Hsome2) as Hk.
    now rewrite E3 in Hk. }
  split; [now apply Hst|congruence].
Qed.

Lemma Write_dirs handle b w : dirs (fs (snd (Write handle b w))) = dirs (fs w).
Proof.
  unfold Write. unfold_io. now destruct (faults w) as [|[k|] rest].
Qed.

Lemma writeLines_dirs handle lines w :
  dirs (fs (snd (writeLines handle lines w))) = dirs (fs w).
Proof.
  revert w. induction lines as [|line lines IH]; intros w; [reflexivity|].
  cbn [writeLines]. unfold andThen at 1, bind at 1.
  pose proof (Write_dirs handle line w) as H1.
  destruct (Write handle line w) as [[[]|e1] w1]; cbn [snd] in H1;
    [|exact H1].
  unfold andThen at 1, bind at 1.
  pose proof (Write_dirs handle (String Strs.newline "") w1) as H2.
  destruct (Write handle (String Strs.newline "") w1) as [[[]|e2] w2];
    cbn [snd] in H2.
  - rewrite IH. congruence.
  - unfold ret. cbn [snd]. congruence.
Qed.

Lemma AppendRawLines_ok file lines w :
  faults w = [] -> appendable (fs w) file ->
  exists w', AppendRawLines file lines w = (Ok tt, w') /\ faults w' = [] /\
    (lines <> [] ->
     dirs (fs w')
     = list_to_set (ancestors (String.length (Strs.Dir file)) (Strs.Dir file))
       ∪ dirs (fs w)).
Proof.
  intros Hfl [Hnd Hanc]. unfold AppendRawLines.
  destruct lines as [|l0 ls]; [exists w; now repeat split|].
  set (lines := l0 :: ls). clearbody lines.
  destruct (MkdirAll_ok (Strs.Dir file) w Hfl) as (w1 & E1 & Hfl1 & Hd1).
  { eapply Forall_impl; [exact Hanc|]. now intros a [Ha _]. }
  unfold andThen at 1, bind at 1. rewrite E1.
  destruct (OpenAppend_ok file w1 Hfl1) as (w2 & E2 & Hfl2).
  { rewrite Hd1, elem_of_union, elem_of_list_to_set. intros [Hin|Hin]; [|tauto].
    rewrite Forall_forall in Hanc. apply Hanc in Hin. tauto. }
  { rewrite Hd1. apply elem_of_union. left. apply elem_of_list_to_set.
    apply ancestors_head. }
  unfold andThen at 1, bind at 1. rewrite E2.
  unfold andThen at 1, bind at 1.
  destruct (writeLines file lines w2) as [r3 w3] eqn:E3.
  destruct (writeLines_spec _ _ _ _ _ E3) as (_ & _ & _ & _ & _ & Hf3).
  destruct (Hf3 Hfl2) as [-> Hfl3].
  destruct (Sync file w3) as [r4 w4] eqn:E4.
  destruct (Sync_spec _ _ _ _ E4) as (_ & Hd4 & _ & _ & _ & Hf4).
  destruct (Hf4 Hfl3) as [-> Hfl4]. exists w4.
  split; [reflexivity|]. split; [assumption|]. intros _.
  rewrite Hd4. pose proof (writeLines_dirs file lines w2) as Hd3.
  rewrite E3 in Hd3. cbn in Hd3. rewrite Hd3.
  destruct (OpenAppend_inv _ _ _ _ E2) as (_ & _ & Hd2 & _). now rewrite Hd2.
Qed.

(** C7: [AppendRawLines] on a non-empty batch leaves every other file
    as it was and only adds to the end of the target file: what it adds
    is a prefix of the lines of the batch, each followed by a newline, in
    order.  When it returns success it has added all of them, the
    directory of the file exists, the file exists, and stable storage
    holds the file as it now is.  With no fault to come and a writable
    path it returns success. *)
Theorem AppendRawLines_durable_append
    (file : string) (lines : list string) (w : World) :
  lines <> [] ->
  (exists written,
      grown w (snd (AppendRawLines file lines w)) file written /\
      (exists rest, batch lines = String.append written rest) /\
      (fst (AppendRawLines file lines w) = Ok tt ->
       written = batch lines /\
       Strs.Dir file ∈ dirs (fs (snd (AppendRawLines file lines w))) /\
       is_Some (files (fs (snd (AppendRawLines file lines w))) !! file) /\
       stable (fs (snd (AppendRawLines file lines w))) !! file
       = Some (contentOf (fs (snd (AppendRawLines file lines w))) file))) /\
  (faults w = [] -> appendable (fs w) file ->
   fst (AppendRawLines file lines w) = Ok tt).
Proof.
  intros Hne. split.
  - destruct (AppendRawLines file lines w) as [r w'] eqn:E.
    destruct (AppendRawLines_effect _ _ _ _ _ Hne E) as (s & Hg & Hp & Hok).
    exists s. split; [assumption|]. split; [assumption|].
    cbn. intros Hr. destruct (Hok Hr) as (? & ? & ? & ? & _). tauto.
  - intros Hfl Happ.
    destruct (AppendRawLines_ok file lines w Hfl Happ) as (w' & E & _).
    now rewrite E.
Qed.

Lemma AppendRawLines_durable_append_witness :
  fst (AppendRawLines "/data/ccc/history/x.jsonl" ["{a}"; "{b}"]%string
         Sample.emptyWorld) = Ok tt.
Proof.
  refine (proj2 (AppendRawLines_durable_append _ _ _ _) _ _).
  - discriminate.
  - reflexivity.
  - split; [compute_done|].
    vm_compute ancestors. repeat constructor; try compute_done; discriminate.
Defined.

Lemma AppendRawLines_again file lines w :
  lines <> [] -> faults w = [] -> appendable (fs w) file ->
  exists w',
    AppendRawLines file lines w = (Ok tt, w') /\ faults w' = [] /\
    appendable (fs w') file /\
    files (fs w') !! file
    = Some (String.append (contentOf (fs w) file) (batch lines)) /\
    (forall p, p <> file -> files (fs w') !! p = files (fs w) !! p).
Proof.
  intros Hne Hfl Happ.
  destruct (AppendRawLines_ok file lines w Hfl Happ) as (w' & E & Hfl' & Hd).
  destruct (AppendRawLines_effect _ _ _ _ _ Hne E)
    as (s & (Ho & Hc & _) & _ & Hok).
  destruct (Hok eq_refl) as (-> & _ & [c Hsome] & _).
  exists w'. split; [assumption|]. split; [assumption|].
  destruct Happ as [Hnd Hanc]. split; [split|split].
  - rewrite (Hd Hne), elem_of_union, elem_of_list_to_set. intros [Hin|Hin]; [|tauto].
    rewrite Forall_forall in Hanc. apply Hanc in Hin. tauto.
  - eapply Forall_impl; [exact Hanc|]. intros a [Ha Hne']. split; [|assumption].
    rewrite elem_of_dom, (Ho a Hne'), <- elem_of_dom. assumption.
  - unfold contentOf in Hc at 1. rewrite Hsome in Hc. cbn in Hc. now rewrite Hsome, Hc.
  - assumption.
Qed.


(** *** Reading a history file back *)

Lemma batch_app_tail line rest tail :
  String.append (batch (line :: rest)) tail
  = String.append line (String Strs.newline (String.append (batch rest) tail)).
Proof. cbn [batch]. now rewrite append_assoc, append_cons. Qed.

Lemma Split_batch lines tail :
  Forall (fun l => Strs.hasByte Strs.newline l = false) lines ->
  Strs.Split (String.append (batch lines) tail) Strs.newline
  = lines ++ Strs.Split tail Strs.newline.
Proof.
  induction 1 as [|l ls Hl _ IH]; [reflexivity|].
  rewrite batch_app_tail, Split_app_sep by assumption. now rewrite IH.
Qed.

Lemma scanTokens_more l x more :
  scanTokens maxLine (l :: x :: more)
  = if (maxLine <=? Strs.len l)%Z then ([], Some ErrTooLong)
    else let '(tokens, err) := scanTokens maxLine (x :: more) in
         (dropCR l :: tokens, err).
Proof. reflexivity. Qed.

Lemma scanTokens_lines lines tail :
  Forall (fun l => (Strs.len l < maxLine)%Z) lines ->
  (Strs.len tail < maxLine)%Z ->
  scanTokens maxLine (lines ++ [tail])
  = (List.map dropCR lines ++ (if String.eqb tail "" then [] else [dropCR tail]),
     None).
Proof.
  intros Hl Ht. induction Hl as [|l ls Hlen _ IH].
  - cbn. rewrite (proj2 (Z.leb_gt _ _) Ht). now destruct (String.eqb tail "").
  - change ((l :: ls) ++ [tail]) with (l :: (ls ++ [tail])).
    destruct (ls ++ [tail]) as [|x more] eqn:E.
    { now destruct ls. }
    rewrite scanTokens_more, (proj2 (Z.leb_gt _ _) Hlen), IH. reflexivity.
Qed.

Lemma scanLines_batch lines tail :
  Forall (fun l => Strs.hasByte Strs.newline l = false
                   /\ (Strs.len l < maxLine)%Z) lines ->
  Strs.hasByte Strs.newline tail = false ->
  (Strs.len tail < maxLine)%Z ->
  scanLines maxLine (String.append (batch lines) tail)
  = (List.map dropCR lines ++ (if String.eqb tail "" then [] else [dropCR tail]),
     None).
Proof.
  intros Hl Hn Ht. unfold scanLines.
  rewrite Split_batch, (Split_no_sep tail) by
    (assumption || (eapply Forall_impl; [exact Hl|]; now intros ? [? ?])).
  apply scanTokens_lines; [|assumption].
  eapply Forall_impl; [exact Hl|]. now intros ? [? ?].
Qed.

Section Decoder.

Variable decodeUUID : string -> option string.

Lemma addUUID_elem ids line u :
  u ∈ addUUID decodeUUID ids line
  <-> u ∈ ids \/ (line <> "" /\ u <> "" /\ decodeUUID line = Some u).
Proof.
  unfold addUUID. destruct (Strs.len line =? 0)%Z eqn:Hlen.
  - apply len_zero in Hlen. split; [now left|]. intros [?|[? _]]; congruence.
  - assert (line <> "") by (intros Hl; apply len_zero in Hl; congruence).
    destruct (decodeUUID line) as [v|].
    + destruct (String.eqb_spec v "") as [->|Hv].
      * split; [now left|]. intros [?|(_ & ? & ?)]; congruence.
      * rewrite elem_of_union, elem_of_singleton. split.
        -- intros [->|?]; [right|now left]. now repeat split.
        -- intros [?|(_ & _ & [= ->])]; [now right|now left].
    + split; [now left|]. intros [?|(_ & _ & ?)]; congruence.
Qed.

Lemma fold_addUUID_elem tokens ids u :
  u ∈ List.fold_left (addUUID decodeUUID) tokens ids
  <-> u ∈ ids \/
      (u <> "" /\ exists line, In line tokens /\ line <> ""
                               /\ decodeUUID line = Some u).
Proof.
  revert ids. induction tokens as [|t tokens IH]; intros ids; cbn [List.fold_left].
  - split; [now left|]. intros [?|(_ & ? & [] & _)]. assumption.
  - rewrite IH, addUUID_elem. split.
    + intros [[?|(? & ? & ?)]|(? & l & ? & ? & ?)].
      * now left.
      * right. split; [assumption|]. exists t. split; [now left|now split].
      * right. split; [assumption|]. exists l. split; [now right|now split].
    + intros [?|(? & l & [<-|?] & ? & ?)].
      * left. now left.
      * left. right. now repeat split.
      * right. split; [assumption|]. exists l. now repeat split.
Qed.

Lemma LoadUUIDs_ok file w content :
  faults w = [] -> files (fs w) !! file = Some content ->
  LoadUUIDs decodeUUID file w
  = ((List.fold_left (addUUID decodeUUID) (fst (scanLines maxLine content)) ∅,
      snd (scanLines maxLine content)), w).
Proof.
  intros Hfl Hc. destruct w as [f e fl lg]. cbn in Hfl, Hc. subst fl.
  unfold LoadUUIDs, Open, ReadAll. unfold_io. cbn. rewrite Hc. cbn.
  unfold contentOf. rewrite Hc. cbn.
  unfold scanLines.
  now destruct (scanTokens maxLine _) as [tokens [err|]].
Qed.

(** C6: [LoadUUIDs] has set semantics and tolerates a truncated tail.
    After the same line, which decodes to UUID [u], was appended twice
    to a fresh file, the file holds both copies and [LoadUUIDs] returns
    the set with the one element [u]; and on a file of complete lines
    followed by a partial line that does not decode, [LoadUUIDs] returns
    no error and exactly the non-empty UUIDs of the complete lines. *)
Theorem LoadUUIDs_set_and_crash_tolerant :
  (forall (w : World) (file line u : string),
      faults w = [] -> files (fs w) !! file = None ->
      appendable (fs w) file -> wholeLine line ->
      decodeUUID line = Some u -> u <> "" ->
      contentOf
        (fs (snd (AppendRawLines file [line]
                    (snd (AppendRawLines file [line] w))))) file
      = batch [line; line] /\
      fst (LoadUUIDs decodeUUID file
             (snd (AppendRawLines file [line]
                     (snd (AppendRawLines file [line] w)))))
      = ({[u]}, None)) /\
  (forall (w : World) (file : string) (complete : list string) (partial : string),
      faults w = [] ->
      files (fs w) !! file = Some (String.append (batch complete) partial) ->
      Forall wholeLine complete ->
      Strs.hasByte Strs.newline partial = false ->
      (Strs.len partial < maxLine)%Z ->
      decodeUUID (dropCR partial) = None ->
      snd (fst (LoadUUIDs decodeUUID file w)) = None /\
      forall u,
        u ∈ fst (fst (LoadUUIDs decodeUUID file w))
        <-> u <> "" /\ exists line, In line complete /\ decodeUUID line = Some u).
Proof.
  split.
  - intros w file line u Hfl Hfresh Happ (Hne & Hnl & Hcr & Hlen) Hdec Hu.
    destruct (AppendRawLines_again file [line] w ltac:(discriminate) Hfl Happ)
      as (w1 & E1 & Hfl1 & Happ1 & Hc1 & _).
    rewrite E1. cbn [snd].
    destruct (AppendRawLines_again file [line] w1 ltac:(discriminate) Hfl1 Happ1)
      as (w2 & E2 & Hfl2 & _ & Hc2 & _).
    rewrite E2. cbn [snd].
    assert (Hcontent : files (fs w2) !! file = Some (batch [line; line])).
    { rewrite Hc2. unfold contentOf at 1. rewrite Hc1. cbn [default].
      unfold contentOf. rewrite Hfresh. cbn [default batch].
      f_equal. unfold id. rewrite !append_assoc, append_cons. reflexivity. }
    split; [unfold contentOf; now rewrite Hcontent|].
    rewrite (LoadUUIDs_ok _ _ _ Hfl2 Hcontent). cbn [fst].
    rewrite <- (append_empty_r (batch [line; line])).
    rewrite scanLines_batch; [|repeat constructor; assumption|reflexivity|reflexivity].
    cbn [fst snd List.map app String.eqb]. rewrite Hcr. cbn [List.fold_left].
    f_equal. apply set_eq. intros v.
    rewrite !addUUID_elem, elem_of_singleton. split.
    + intros [[?|(_ & _ & ?)]|(_ & _ & ?)]; [set_solver|congruence..].
    + intros ->. right. now repeat split.
  - intros w file complete partial Hfl Hc Hwhole Hnl Hlen Hdec.
    rewrite (LoadUUIDs_ok _ _ _ Hfl Hc). cbn [fst snd].
    rewrite scanLines_batch; [|eapply Forall_impl; [exact Hwhole|];
                               intros ? (? & ? & ? & ?); now split|assumption..].
    cbn [fst snd]. split; [reflexivity|]. intros u.
    rewrite fold_addUUID_elem. split.
    + intros [Hin|(Hu & line & Hin & Hne & Hd)]; [set_solver|].
      split; [assumption|]. apply List.in_app_or in Hin as [Hin|Hin].
      * apply List.in_map_iff in Hin as (l & <- & Hin). exists l.
        rewrite Forall_forall in Hwhole. apply list_elem_of_In in Hin as Hin'.
        destruct (Hwhole _ Hin') as (_ & _ & Hcr & _).
        rewrite Hcr in Hd. now split.
      * destruct (String.eqb partial ""); [destruct Hin|].
        destruct Hin as [<-|[]]. congruence.
    + intros (Hu & line & Hin & Hd). right. split; [assumption|].
      rewrite Forall_forall in Hwhole. apply list_elem_of_In in Hin as Hin'.
      destruct (Hwhole _ Hin') as (Hne & _ & Hcr & _).
      exists line. split; [|now split].
      apply List.in_or_app. left. apply List.in_map_iff. exists line.
      now split.
Qed.

End Decoder.

Lemma LoadUUIDs_set_and_crash_tolerant_witness :
  fst (LoadUUIDs Sample.bracedUUID "/data/ccc/history/x.jsonl"
         (snd (AppendRawLines "/data/ccc/history/x.jsonl" ["{a}"%string]
                 (snd (AppendRawLines "/data/ccc/history/x.jsonl" ["{a}"%string]
                         Sample.emptyWorld)))))
  = ({["a"%string]}, None) /\
  snd (fst (LoadUUIDs Sample.bracedUUID "/data/ccc/history/x.jsonl"
              Sample.crashedWorld)) = None.
Proof.
  split.
  - refine (proj2 (proj1 (LoadUUIDs_set_and_crash_tolerant Sample.bracedUUID)
                     Sample.emptyWorld "/data/ccc/history/x.jsonl"%string
                     "{a}"%string "a"%string _ _ _ _ _ _)).
    + reflexivity.
    + reflexivity.
    + split; [compute_done|].
      vm_compute ancestors. repeat constructor; try compute_done; discriminate.
    + repeat split; discriminate.
    + reflexivity.
    + discriminate.
  - refine (proj1 (proj2 (LoadUUIDs_set_and_crash_tolerant Sample.bracedUUID)
                     Sample.crashedWorld "/data/ccc/history/x.jsonl"%string
                     ["{a}"; "{b}"]%string "{c"%string _ _ _ _ _ _)).
    + reflexivity.
    + reflexivity.
    + repeat constructor; discriminate.
    + reflexivity.
    + reflexivity.
    + reflexivity.
Defined.

End StoreFacts.

(** ** Saving to history *)

Module SaveFacts.

Import OS OSFacts History StoreFacts Save.





Lemma HistoryDir_eq w : HistoryDir w = (historyDirOf (env w), w).
Proof.
  unfold HistoryDir, historyDirOf, UserHomeDir. unfold_io.
  destruct (String.eqb (XDG_DATA_HOME (env w)) ""); [|reflexivity].
  now destruct (String.eqb (HOME (env w)) "").
Qed.





Section Decoder.

Variable decodeUUID : string -> option string.


End Decoder.


(** *** Grouping by day *)










(** *** The two loops *)



Section Save.

Variable decodeUUID : string -> option string.
Variable rangeDates :
  gmap string (list Rec.CostRecord) -> list (list Rec.CostRecord).

(** Whatever the order, [range] visits every batch of the map once. *)
Hypothesis rangeDates_perm :
  forall m, Permutation (rangeDates m) (map_to_list m).*2.


Lemma HistoryFileForTimestamp_eq t w :
  HistoryFileForTimestamp t w
  = (match historyDirOf (env w) with
     | Ok dir => Ok (Strs.Join [dir; HistoryFilename t])
     | Err e => Err e
     end, w).
Proof.
  unfold HistoryFileForTimestamp. unfold andThen, bind.
  rewrite HistoryDir_eq. now destruct (historyDirOf (env w)).
Qed.








End Save.

Section Pipeline.

Variable BuildGroupKey : Rec.CostRecord -> string.
Variable rangeMap : gmap string Rec.CostRecord -> list Rec.CostRecord.
Hypothesis rangeMap_perm : forall m, Permutation (rangeMap m) (map_to_list m).*2.
Variable decodeUUID : string -> option string.
Variable rangeDates :
  gmap string (list Rec.CostRecord) -> list (list Rec.CostRecord).
Hypothesis rangeDates_perm :
  forall m, Permutation (rangeDates m) (map_to_list m).*2.


End Pipeline.



End SaveFacts.

(** ** The pipeline of goroutines *)

Module PipelineFacts.

Import Pipeline.

#[local] Arguments Nat.leb : simpl never.
#[local] Arguments inFlight : simpl never.
#[local] Arguments expected : simpl never.
#[local] Arguments held : simpl never.
#[local] Arguments recordsOfLines : simpl never.

Lemma expected_nil linesOf parse : expected linesOf parse [] = [].
Proof. reflexivity. Qed.

Lemma expected_cons linesOf parse f l :
  expected linesOf parse (f :: l)
  = recordsOfLines parse (worksOf linesOf f) ++ expected linesOf parse l.
Proof. reflexivity. Qed.

Lemma recordsOfLines_cons parse w l :
  recordsOfLines parse (w :: l)
  = match parse w with Some r => [r] | None => [] end ++ recordsOfLines parse l.
Proof. unfold recordsOfLines. cbn. now destruct (parse w). Qed.

Lemma expected_app linesOf parse l1 l2 :
  expected linesOf parse (l1 ++ l2)
  = expected linesOf parse l1 ++ expected linesOf parse l2.
Proof. unfold expected. now rewrite List.map_app, List.concat_app. Qed.

Lemma recordsOfLines_app parse l1 l2 :
  recordsOfLines parse (l1 ++ l2)
  = recordsOfLines parse l1 ++ recordsOfLines parse l2.
Proof. apply omap_app. Qed.

(** Replacing one member of a pool replaces what it holds. *)
Lemma held_insert {A B} (f : A -> list B) pool i x :
  pool !! i = Some x ->
  exists others,
    Permutation (held f pool) (f x ++ others) /\
    forall y, Permutation (held f (<[i := y]> pool)) (f y ++ others).
Proof.
  revert i. induction pool as [|a pool IH]; intros [|i] H; try discriminate.
  - injection H as ->. exists (held f pool). split; [reflexivity|].
    intros y. reflexivity.
  - cbn in H. destruct (IH _ H) as (others & H1 & H2).
    exists (f a ++ others). unfold held in *. cbn. split.
    + rewrite H1. solve_Permutation.
    + intros y. rewrite (H2 y). solve_Permutation.
Qed.

Lemma all_readers_exited pool i r :
  forallb readerExited pool = true -> pool !! i = Some r -> r = ReaderExited.
Proof.
  intros Hall Hi. apply list_elem_of_lookup_2, list_elem_of_In in Hi.
  rewrite List.forallb_forall in Hall. apply Hall in Hi. now destruct r.
Qed.

Lemma all_parsers_exited pool j p :
  forallb parserExited pool = true -> pool !! j = Some p -> p = ParserExited.
Proof.
  intros Hall Hj. apply list_elem_of_lookup_2, list_elem_of_In in Hj.
  rewrite List.forallb_forall in Hall. apply Hall in Hj. now destruct p.
Qed.

Lemma forallb_insert {A} (f : A -> bool) pool i y :
  forallb f pool = true -> f y = true -> forallb f (<[i := y]> pool) = true.
Proof.
  revert i. induction pool as [|a pool IH]; intros i H Hy; [reflexivity|].
  cbn in H. apply andb_prop in H as [Ha H].
  destruct i; cbn; [now rewrite Hy|]. rewrite Ha. now apply IH.
Qed.

Section Run.

Variable linesOf : string -> list string.
Variable parse : LineWork -> option Rec.CostRecord.
Variable lineCap costCap : nat.
Variable files : list FileWork.
Variable nReaders nParsers : nat.

Local Abbreviation Inv := (Inv linesOf parse files nReaders nParsers).

Lemma Inv_start : Inv (start files nReaders nParsers).
Proof.
  constructor; cbn; try reflexivity; try lia; try discriminate.
  - intros i H. apply lookup_replicate in H as [H _]. discriminate.
  - intros j H. apply lookup_replicate in H as [H _]. discriminate.
  - apply length_replicate.
  - apply length_replicate.
  - unfold inFlight, held. cbn.
    assert (H : forall n, List.concat (List.map heldByParser (replicate n ParserIdle)) = []).
    { induction n; cbn; auto. }
    assert (H' : forall n, List.concat (List.map (fun r => recordsOfLines parse (heldByReader r)) (replicate n ReaderIdle)) = []).
    { induction n; cbn; auto. }
    rewrite H, H'. reflexivity.
Qed.

Ltac leb_facts :=
  repeat match goal with
  | H : true = Nat.leb _ _ |- _ => symmetry in H; apply Nat.leb_le in H
  | H : false = Nat.leb _ _ |- _ => symmetry in H; apply Nat.leb_gt in H
  end.

Ltac split_insert :=
  repeat match goal with
  | H : <[_ := _]> _ !! _ = Some _ |- _ =>
      apply list_lookup_insert_Some in H as [(<- & ? & ?)|[? H]]
  end.

(** A reader or a parser still at work contradicts a stage at which
    the whole pool has exited. *)
Ltac still_working :=
  exfalso; leb_facts;
  match goal with
  | Hall : (_ <= _)%nat -> forallb readerExited ?rs = true, Hi : ?rs !! _ = Some _ |- _ =>
      let E := fresh in
      assert (E := all_readers_exited _ _ _ (Hall ltac:(lia)) Hi); discriminate E
  | Hall : (_ <= _)%nat -> forallb parserExited ?ps = true, Hj : ?ps !! _ = Some _ |- _ =>
      let E := fresh in
      assert (E := all_parsers_exited _ _ _ (Hall ltac:(lia)) Hj); discriminate E
  end.

Ltac use_inv :=
  repeat match goal with
  | H : forall i, _ !! i = Some ReaderExited -> _, H' : _ !! _ = Some ReaderExited |- _ =>
      apply H in H'; destruct H'
  | H : forall j, _ !! j = Some ParserExited -> _, H' : _ !! _ = Some ParserExited |- _ =>
      apply H in H'; destruct H'
  | H : ?a = Folding -> _, H' : ?a = Folding |- _ =>
      apply H in H'; destruct H'
  end.

Ltac inv_field :=
  cbn in *; intros; use_inv; leb_facts;
  try assumption; try reflexivity; try discriminate; try lia;
  try (split; [lia|assumption]); try (split; [lia|reflexivity]);
  try match goal with H : _ -> ?g |- ?g => apply H; (lia || reflexivity) end;
  try (symmetry; apply Nat.leb_le; lia); try (symmetry; apply Nat.leb_gt; lia).

Lemma Inv_stepMain s : Inv s -> Inv (stepMain s).
Proof.
  intros H. destruct H. destruct s as [pc fc rs lc ps cc rcv apc pan].
  unfold stepMain. cbn in *.
  destruct pc as [[|f todo]| | | | | |]; cbn in *.
  - constructor; inv_field.
  - constructor; inv_field.
    unfold inFlight in *. cbn in *.
    rewrite expected_app, expected_cons, expected_nil.
    rewrite <- inv_inFlight0, expected_cons. solve_Permutation.
  - destruct (forallb readerExited rs) eqn:Hall; [|constructor; inv_field].
    constructor; inv_field.
  - constructor; inv_field.
  - destruct (forallb parserExited ps) eqn:Hall; [|constructor; inv_field].
    constructor; inv_field.
  - constructor; inv_field.
  - destruct apc; [constructor; inv_field|].
    constructor; inv_field.
  - constructor; inv_field.
Qed.

Lemma recordsOfLines_nil : recordsOfLines parse [] = [].
Proof. reflexivity. Qed.

Ltac reader_inFlight Hi :=
  match goal with
  | H : Permutation (inFlight _ _ _) _ |- Permutation (inFlight _ _ _) _ =>
      unfold inFlight in H |- *; cbn in H |- *;
      let others := fresh "others" in
      let Hold := fresh "Hold" in
      let Hnew := fresh "Hnew" in
      destruct (held_insert (fun r => recordsOfLines parse (heldByReader r)) _ _ _ Hi)
        as (others & Hold & Hnew);
      rewrite Hnew; rewrite Hold in H; rewrite <- H; cbn;
      rewrite ?expected_cons, ?expected_nil, ?recordsOfLines_app,
        ?recordsOfLines_cons, ?recordsOfLines_nil;
      solve_Permutation
  end.

Ltac worker_case tac :=
  constructor; inv_field;
  try (split_insert; inv_field);
  try (rewrite orb_false_r; assumption);
  try (rewrite length_insert; assumption);
  try (apply forallb_insert; [|reflexivity]; inv_field);
  try tac;
  try still_working.

Lemma Inv_stepReader i s : Inv s -> Inv (stepReader linesOf lineCap i s).
Proof.
  intros H. destruct H. destruct s as [pc fc rs lc ps cc rcv apc pan].
  unfold stepReader, setReader. cbn in *.
  destruct (rs !! i) as [[|[|l ls]|]|] eqn:Hi; [| | |constructor; inv_field..].
  - destruct fc as [[|f rest] fclosed]; cbn in *.
    + destruct fclosed; [|constructor; inv_field].
      worker_case ltac:(idtac; reader_inFlight Hi).
    + worker_case ltac:(idtac; reader_inFlight Hi).
  - worker_case ltac:(idtac; reader_inFlight Hi).
  - destruct lc as [lbuf [|]]; cbn in *.
    { still_working. }
    destruct (Nat.ltb _ _); [|constructor; inv_field].
    worker_case ltac:(idtac; reader_inFlight Hi).
Qed.

Ltac parser_inFlight Hj :=
  match goal with
  | H : Permutation (inFlight _ _ _) _ |- Permutation (inFlight _ _ _) _ =>
      unfold inFlight in H |- *; cbn in H |- *;
      let others := fresh "others" in
      let Hold := fresh "Hold" in
      let Hnew := fresh "Hnew" in
      destruct (held_insert heldByParser _ _ _ Hj) as (others & Hold & Hnew);
      rewrite Hnew; rewrite Hold in H; rewrite <- H; cbn;
      rewrite ?recordsOfLines_app, ?recordsOfLines_cons, ?recordsOfLines_nil;
      repeat match goal with
             | E : parse ?w = _ |- context [parse ?w] => rewrite E
             end;
      cbn; solve_Permutation
  end.

Lemma Inv_stepParser j s : Inv s -> Inv (stepParser parse costCap j s).
Proof.
  intros H. destruct H. destruct s as [pc fc rs lc ps cc rcv apc pan].
  unfold stepParser, setParser. cbn in *.
  destruct (ps !! j) as [[|record|]|] eqn:Hj; [| |constructor; inv_field..].
  - destruct lc as [[|work rest] lclosed]; cbn in *.
    + destruct lclosed; [|constructor; inv_field].
      worker_case ltac:(idtac; parser_inFlight Hj).
    + destruct (parse work) as [record|] eqn:Hparse;
        worker_case ltac:(idtac; parser_inFlight Hj).
  - destruct cc as [cbuf [|]]; cbn in *.
    { still_working. }
    destruct (Nat.ltb _ _); [|constructor; inv_field].
    worker_case ltac:(idtac; parser_inFlight Hj).
Qed.

Lemma Inv_stepAccumulator s : Inv s -> Inv (stepAccumulator s).
Proof.
  intros H. destruct H. destruct s as [pc fc rs lc ps cc rcv apc pan].
  unfold stepAccumulator. cbn in *.
  destruct apc; [|constructor; inv_field].
  destruct cc as [[|record rest] [|]]; cbn in *.
  all: constructor; inv_field.
  all: unfold inFlight in *; cbn in *; rewrite <- inv_inFlight0; solve_Permutation.
Qed.

Lemma Inv_step s a : Inv s -> Inv (step linesOf parse lineCap costCap s a).
Proof.
  destruct a; cbn [step].
  - apply Inv_stepMain.
  - apply Inv_stepReader.
  - apply Inv_stepParser.
  - apply Inv_stepAccumulator.
Qed.

Lemma Inv_exec schedule s :
  Inv s -> Inv (exec linesOf parse lineCap costCap schedule s).
Proof.
  revert s. induction schedule as [|a schedule IH]; intros s H; [exact H|].
  apply IH, Inv_step, H.
Qed.

Lemma Inv_reachable schedule :
  Inv (exec linesOf parse lineCap costCap schedule (start files nReaders nParsers)).
Proof. apply Inv_exec, Inv_start. Qed.

Lemma forallb_Forall_eq {A} (f : A -> bool) (x : A) pool :
  (forall y, f y = true -> y = x) ->
  forallb f pool = true -> Forall (eq x) pool.
Proof.
  intros Hf H. apply Forall_forall. intros y Hy.
  apply list_elem_of_In in Hy. rewrite List.forallb_forall in H.
  symmetry. apply Hf, H, Hy.
Qed.

Lemma first_reader s :
  Inv s -> (0 < nReaders)%nat -> exists r, readers s !! 0%nat = Some r.
Proof.
  intros H Hn. apply lookup_lt_is_Some. rewrite (inv_nReaders _ _ _ _ _ _ H).
  exact Hn.
Qed.

Lemma first_parser s :
  Inv s -> (0 < nParsers)%nat -> exists p, parsers s !! 0%nat = Some p.
Proof.
  intros H Hn. apply lookup_lt_is_Some. rewrite (inv_nParsers _ _ _ _ _ _ H).
  exact Hn.
Qed.

(** Once [lineChan] is closed the readers are gone and [fileChan] is
    drained. *)
Lemma readers_done s :
  Inv s -> (0 < nReaders)%nat -> (2 <= stage (mainPC s))%nat ->
  forallb readerExited (readers s) = true /\ buf (fileChan s) = [].
Proof.
  intros H Hn Hst. pose proof (inv_readers _ _ _ _ _ _ H Hst) as Hall.
  split; [exact Hall|].
  destruct (first_reader s H Hn) as [r Hr].
  pose proof (all_readers_exited _ _ _ Hall Hr) as ->.
  now apply (inv_reader _ _ _ _ _ _ H) in Hr.
Qed.

Lemma parsers_done s :
  Inv s -> (0 < nParsers)%nat -> (4 <= stage (mainPC s))%nat ->
  forallb parserExited (parsers s) = true /\ buf (lineChan s) = [].
Proof.
  intros H Hn Hst. pose proof (inv_parsers _ _ _ _ _ _ H Hst) as Hall.
  split; [exact Hall|].
  destruct (first_parser s H Hn) as [p Hp].
  pose proof (all_parsers_exited _ _ _ Hall Hp) as ->.
  now apply (inv_parser _ _ _ _ _ _ H) in Hp.
Qed.

Lemma held_exited_readers pool :
  forallb readerExited pool = true ->
  held (fun r => recordsOfLines parse (heldByReader r)) pool = [].
Proof.
  induction pool as [|r pool IH]; [reflexivity|]. cbn.
  intros H. apply andb_prop in H as [Hr H]. destruct r; try discriminate.
  unfold held in *. cbn. now apply IH.
Qed.

Lemma held_exited_parsers pool :
  forallb parserExited pool = true -> held heldByParser pool = [].
Proof.
  induction pool as [|p pool IH]; [reflexivity|]. cbn.
  intros H. apply andb_prop in H as [Hp H]. destruct p; try discriminate.
  unfold held in *. cbn. now apply IH.
Qed.

(** When the accumulator leaves its first loop it has received every
    record of the run. *)
Lemma received_all s :
  Inv s -> (0 < nReaders)%nat -> (0 < nParsers)%nat -> accPC s = Folding ->
  Permutation (received s) (expected linesOf parse files).
Proof.
  intros H HnR HnP Hacc.
  destruct (inv_acc _ _ _ _ _ _ H Hacc) as [Hst Hcc].
  destruct (readers_done s H HnR ltac:(lia)) as [Hrs Hfc].
  destruct (parsers_done s H HnP ltac:(lia)) as [Hps Hlc].
  rewrite <- (inv_inFlight _ _ _ _ _ _ H). unfold inFlight.
  rewrite Hcc, Hfc, Hlc, (held_exited_readers _ Hrs), (held_exited_parsers _ Hps).
  destruct (mainPC s); cbn in Hst; try lia; cbn; now rewrite List.app_nil_r.
Qed.

(** The shutdown of the pipeline follows the stages, whatever the
    interleaving: no goroutine ever sends on a closed channel; when
    [lineChan] is closed, [fileChan] is closed and empty and every file
    worker has returned; when [costChan] is closed, [lineChan] is closed
    and empty and every line worker has returned; and the accumulator
    leaves its receive loop only on a closed and empty [costChan]. *)
Theorem shutdown_in_stage_order schedule :
  (0 < nReaders)%nat -> (0 < nParsers)%nat ->
  let s := exec linesOf parse lineCap costCap schedule
             (start files nReaders nParsers) in
  panicked s = false /\
  (closed (lineChan s) = true ->
   closed (fileChan s) = true /\ buf (fileChan s) = [] /\
   Forall (eq ReaderExited) (readers s)) /\
  (closed (costChan s) = true ->
   closed (lineChan s) = true /\ buf (lineChan s) = [] /\
   Forall (eq ParserExited) (parsers s)) /\
  (accPC s = Folding ->
   closed (costChan s) = true /\ buf (costChan s) = []).
Proof.
  intros HnR HnP s. pose proof (Inv_reachable schedule) as H. fold s in H.
  split; [apply (inv_panicked _ _ _ _ _ _ H)|].
  assert (Hl : closed (lineChan s) = true -> (3 <= stage (mainPC s))%nat).
  { rewrite (inv_lineChan _ _ _ _ _ _ H). apply Nat.leb_le. }
  assert (Hc : closed (costChan s) = true -> (5 <= stage (mainPC s))%nat).
  { rewrite (inv_costChan _ _ _ _ _ _ H). apply Nat.leb_le. }
  split; [|split].
  - intros Hst%Hl. destruct (readers_done s H HnR ltac:(lia)) as [Hrs Hfc].
    split; [|split; [exact Hfc|]].
    + rewrite (inv_fileChan _ _ _ _ _ _ H). apply Nat.leb_le. lia.
    + revert Hrs. apply forallb_Forall_eq. now intros [].
  - intros Hst%Hc. destruct (parsers_done s H HnP ltac:(lia)) as [Hps Hlc].
    split; [|split; [exact Hlc|]].
    + rewrite (inv_lineChan _ _ _ _ _ _ H). apply Nat.leb_le. lia.
    + revert Hps. apply forallb_Forall_eq. now intros [].
  - intros [Hst Hcc]%(inv_acc _ _ _ _ _ _ H). split; [|exact Hcc].
    rewrite (inv_costChan _ _ _ _ _ _ H). now apply Nat.leb_le.
Qed.

(** When the accumulator starts its second loop it has received, each
    exactly once, every record that the lines of the input files give:
    nothing is lost in a channel or a worker and nothing arrives
    twice. *)
Theorem accumulator_receives_every_record schedule :
  (0 < nReaders)%nat -> (0 < nParsers)%nat ->
  let s := exec linesOf parse lineCap costCap schedule
             (start files nReaders nParsers) in
  accPC s = Folding ->
  Permutation (received s) (expected linesOf parse files).
Proof.
  intros HnR HnP s Hacc. apply received_all; [|assumption..].
  apply Inv_reachable.
Qed.

Lemma sum_insert {A} (w : A -> nat) pool i x y :
  pool !! i = Some x ->
  (sum_list_with w (<[i := y]> pool) + w x = sum_list_with w pool + w y)%nat.
Proof.
  revert i. induction pool as [|a pool IH]; intros [|i] H; try discriminate.
  - injection H as ->. cbn. lia.
  - change (<[S i := y]> (a :: pool)) with (a :: <[i := y]> pool).
    specialize (IH _ H). cbn. cbn in IH. lia.
Qed.

Lemma sum_list_with_snoc {A} (w : A -> nat) l x :
  sum_list_with w (l ++ [x]) = (sum_list_with w l + w x)%nat.
Proof. rewrite sum_list_with_app. cbn. lia. Qed.

#[local] Arguments Nat.mul : simpl never.
#[local] Arguments fileWeight : simpl never.

Local Abbreviation remaining := (remaining linesOf).

(** A step that changes the state lowers the count of what remains. *)
Lemma step_remaining s a :
  step linesOf parse lineCap costCap s a = s \/
  (remaining (step linesOf parse lineCap costCap s a) < remaining s)%nat.
Proof.
  destruct s as [pc fc rs lc ps cc rcv apc pan]. destruct a as [|i|j|]; cbn [step].
  - unfold stepMain. cbn.
    destruct pc as [[|f todo]| | | | | |]; cbn;
      try (right; unfold remaining; cbn; rewrite ?sum_list_with_snoc; lia);
      try (now left).
    + destruct (forallb readerExited rs); [right|now left].
      unfold remaining; cbn; lia.
    + destruct (forallb parserExited ps); [right|now left].
      unfold remaining; cbn; lia.
    + destruct apc; [now left|right]. unfold remaining; cbn; lia.
  - unfold stepReader, setReader. cbn.
    destruct (rs !! i) as [[|[|l ls]|]|] eqn:Hi; try (now left).
    + destruct fc as [[|f rest] fclosed]; cbn.
      * destruct fclosed; [right|now left]. unfold remaining; cbn.
        pose proof (sum_insert readerWeight rs i _ ReaderExited Hi).
        cbn in *. lia.
      * right. unfold remaining; cbn.
        pose proof (sum_insert readerWeight rs i _
                      (ReaderSending (worksOf linesOf f)) Hi).
        cbn in *. unfold fileWeight. lia.
    + right. unfold remaining; cbn.
      pose proof (sum_insert readerWeight rs i _ ReaderIdle Hi). cbn in *. lia.
    + destruct (closed lc).
      * right. unfold remaining; cbn.
        pose proof (sum_insert readerWeight rs i _ ReaderExited Hi). cbn in *. lia.
      * destruct (Nat.ltb _ _); [right|now left]. unfold remaining; cbn.
        pose proof (sum_insert readerWeight rs i _ (ReaderSending ls) Hi).
        rewrite List.length_app. cbn in *. lia.
  - unfold stepParser, setParser. cbn.
    destruct (ps !! j) as [[|record|]|] eqn:Hj; try (now left).
    + destruct lc as [[|work rest] [|]]; cbn; try (now left); right;
        unfold remaining; cbn.
      * pose proof (sum_insert parserWeight ps j _ ParserExited Hj). cbn in *. lia.
      * pose proof (sum_insert parserWeight ps j _
                      (match parse work with
                       | Some record => ParserSending record
                       | None => ParserIdle
                       end) Hj).
        destruct (parse work); cbn in *; lia.
      * pose proof (sum_insert parserWeight ps j _
                      (match parse work with
                       | Some record => ParserSending record
                       | None => ParserIdle
                       end) Hj).
        destruct (parse work); cbn in *; lia.
    + destruct (closed cc).
      * right. unfold remaining; cbn.
        pose proof (sum_insert parserWeight ps j _ ParserExited Hj). cbn in *. lia.
      * destruct (Nat.ltb _ _); [right|now left]. unfold remaining; cbn.
        pose proof (sum_insert parserWeight ps j _ ParserIdle Hj).
        rewrite List.length_app. cbn in *. lia.
  - unfold stepAccumulator. cbn. destruct apc; [|now left].
    destruct cc as [[|record rest] [|]]; cbn; try (now left); right;
      unfold remaining; cbn; lia.
Qed.

Local Abbreviation step := (step linesOf parse lineCap costCap).

Lemma cons_neq_tail {A} (x : A) l : l <> x :: l.
Proof. intros E. apply (f_equal (@List.length A)) in E. cbn in E. lia. Qed.

Lemma snoc_neq {A} (x : A) l : l ++ [x] <> l.
Proof.
  intros E. apply (f_equal (@List.length A)) in E.
  rewrite List.length_app in E. cbn in E. lia.
Qed.

Lemma not_forallb {A} (f : A -> bool) l :
  forallb f l = false -> exists i x, l !! i = Some x /\ f x = false.
Proof.
  induction l as [|a l IH]; [discriminate|]. cbn.
  destruct (f a) eqn:Ha; cbn.
  - intros (i & x & Hi & Hx)%IH. now exists (S i), x.
  - intros _. now exists 0%nat, a.
Qed.

Lemma full_nonempty {A} (l : list A) cap :
  (0 < cap)%nat -> Nat.ltb (List.length l) cap = false -> l <> [].
Proof. intros Hcap H%Nat.ltb_ge ->. cbn in H. lia. Qed.

(** The accumulator receives whenever a record is queued, and leaves
    its loop on a closed and empty channel. *)
Lemma accumulator_moves s :
  accPC s = Receiving ->
  buf (costChan s) <> [] \/ closed (costChan s) = true ->
  step s Accumulator <> s.
Proof.
  destruct s as [pc fc rs lc ps [cbuf cclosed] rcv apc pan]. cbn.
  intros -> H. unfold stepAccumulator. cbn.
  destruct cbuf as [|record rest].
  - destruct H as [H|H]; [contradiction|]. cbn in H. subst cclosed.
    intros E. discriminate E.
  - intros E. apply (f_equal (fun s => buf (costChan s))) in E. cbn in E.
    now apply cons_neq_tail in E.
Qed.

(** A line worker that has not returned can move, or else the
    accumulator can. *)
Lemma parser_moves s j p :
  Inv s -> (0 < costCap)%nat ->
  parsers s !! j = Some p -> p <> ParserExited ->
  (p = ParserIdle -> buf (lineChan s) <> [] \/ closed (lineChan s) = true) ->
  exists a, step s a <> s.
Proof.
  intros H Hcap Hj Hp Hidle.
  assert (Hst : (stage (mainPC s) < 4)%nat).
  { destruct (Nat.lt_ge_cases (stage (mainPC s)) 4) as [|Hge]; [assumption|].
    pose proof (all_parsers_exited _ _ _ (inv_parsers _ _ _ _ _ _ H Hge) Hj).
    contradiction. }
  assert (Hcc : closed (costChan s) = false).
  { rewrite (inv_costChan _ _ _ _ _ _ H). apply Nat.leb_gt. lia. }
  assert (Hacc : accPC s = Receiving).
  { destruct (accPC s) eqn:E; [reflexivity|].
    apply (inv_acc _ _ _ _ _ _ H) in E as [E _]. lia. }
  assert (Hlen : (j < List.length (parsers s))%nat).
  { apply lookup_lt_is_Some. now exists p. }
  destruct s as [pc fc rs [lbuf lclosed] ps [cbuf cclosed] rcv apc pan].
  cbn in *. subst cclosed apc.
  destruct p as [|record|]; [| |contradiction].
  - exists (LineWorker j). cbn. unfold stepParser, setParser. cbn. rewrite Hj.
    destruct lbuf as [|work rest]; cbn.
    + destruct (Hidle eq_refl) as [?| ->]; [contradiction|].
      intros E. apply (f_equal (fun s => parsers s !! j)) in E. cbn in E.
      rewrite list_lookup_insert_eq in E by assumption. congruence.
    + intros E. apply (f_equal (fun s => buf (lineChan s))) in E. cbn in E.
      now apply cons_neq_tail in E.
  - destruct (Nat.ltb (List.length cbuf) costCap) eqn:Hroom.
    + exists (LineWorker j). cbn. unfold stepParser, setParser. cbn.
      rewrite Hj, Hroom. intros E.
      apply (f_equal (fun s => buf (costChan s))) in E. cbn in E.
      now apply snoc_neq in E.
    + exists Accumulator. apply accumulator_moves; [reflexivity|].
      left. cbn. apply (full_nonempty _ costCap); assumption.
Qed.

(** A file worker that has not returned can move, or else a line
    worker or the accumulator can. *)
Lemma reader_moves s i r :
  Inv s -> (0 < nParsers)%nat -> (0 < lineCap)%nat -> (0 < costCap)%nat ->
  readers s !! i = Some r -> r <> ReaderExited ->
  (r = ReaderIdle -> buf (fileChan s) <> [] \/ closed (fileChan s) = true) ->
  exists a, step s a <> s.
Proof.
  intros H HnP HlCap HcCap Hi Hr Hidle.
  assert (Hst : (stage (mainPC s) < 2)%nat).
  { destruct (Nat.lt_ge_cases (stage (mainPC s)) 2) as [|Hge]; [assumption|].
    pose proof (all_readers_exited _ _ _ (inv_readers _ _ _ _ _ _ H Hge) Hi).
    contradiction. }
  assert (Hlc : closed (lineChan s) = false).
  { rewrite (inv_lineChan _ _ _ _ _ _ H). apply Nat.leb_gt. lia. }
  assert (Hlen : (i < List.length (readers s))%nat).
  { apply lookup_lt_is_Some. now exists r. }
  destruct r as [|[|l ls]|]; [| | |contradiction].
  - exists (FileWorker i). cbn. unfold stepReader, setReader. rewrite Hi.
    destruct (buf (fileChan s)) as [|f rest] eqn:Hbuf.
    + destruct (Hidle eq_refl) as [?| ->]; [contradiction|].
      intros E. apply (f_equal (fun s => readers s !! i)) in E. cbn in E.
      rewrite list_lookup_insert_eq in E by assumption. congruence.
    + intros E. apply (f_equal (fun s => buf (fileChan s))) in E. cbn in E.
      rewrite Hbuf in E. now apply cons_neq_tail in E.
  - exists (FileWorker i). cbn. unfold stepReader, setReader. rewrite Hi.
    intros E. apply (f_equal (fun s => readers s !! i)) in E. cbn in E.
    rewrite list_lookup_insert_eq in E by assumption. congruence.
  - destruct (Nat.ltb (List.length (buf (lineChan s))) lineCap) eqn:Hroom.
    + exists (FileWorker i). cbn. unfold stepReader, setReader.
      rewrite Hi, Hlc, Hroom.
      intros E. apply (f_equal (fun s => buf (lineChan s))) in E. cbn in E.
      now apply snoc_neq in E.
    + destruct (first_parser s H HnP) as [p Hp].
      apply (parser_moves s 0%nat p H HcCap Hp).
      * intros ->. apply (inv_parser _ _ _ _ _ _ H) in Hp as [Hp _]. lia.
      * intros _. left. apply (full_nonempty _ lineCap); assumption.
Qed.

(** No deadlock: until [main] has returned from [accWg.Wait], some
    goroutine can take a step. *)
Lemma some_actor_moves s :
  Inv s -> (0 < nParsers)%nat -> (0 < lineCap)%nat -> (0 < costCap)%nat ->
  mainPC s <> Finished -> exists a, step s a <> s.
Proof.
  intros H HnP HlCap HcCap Hpc.
  destruct (mainPC s) as [todo| | | | | |] eqn:Epc; [| | | | | |contradiction].
  - exists Main. cbn. unfold stepMain. rewrite Epc.
    destruct todo as [|f todo]; intros E;
      apply (f_equal mainPC) in E; cbn in E; rewrite Epc in E;
      [discriminate E|].
    injection E as E. now apply cons_neq_tail in E.
  - destruct (forallb readerExited (readers s)) eqn:Hall.
    + exists Main. cbn. unfold stepMain. rewrite Epc, Hall.
      intros E. apply (f_equal mainPC) in E. cbn in E. congruence.
    + apply not_forallb in Hall as (i & r & Hi & Hr).
      apply (reader_moves s i r H HnP HlCap HcCap Hi); [now intros ->|].
      intros _. right. rewrite (inv_fileChan _ _ _ _ _ _ H), Epc. reflexivity.
  - exists Main. cbn. unfold stepMain. rewrite Epc.
    intros E. apply (f_equal mainPC) in E. cbn in E. congruence.
  - destruct (forallb parserExited (parsers s)) eqn:Hall.
    + exists Main. cbn. unfold stepMain. rewrite Epc, Hall.
      intros E. apply (f_equal mainPC) in E. cbn in E. congruence.
    + apply not_forallb in Hall as (j & p & Hj & Hp).
      apply (parser_moves s j p H HcCap Hj); [now intros ->|].
      intros _. right. rewrite (inv_lineChan _ _ _ _ _ _ H), Epc. reflexivity.
  - exists Main. cbn. unfold stepMain. rewrite Epc.
    intros E. apply (f_equal mainPC) in E. cbn in E. congruence.
  - destruct (accPC s) eqn:Hacc.
    + exists Accumulator. apply accumulator_moves; [assumption|].
      right. rewrite (inv_costChan _ _ _ _ _ _ H), Epc. reflexivity.
    + exists Main. cbn. unfold stepMain. rewrite Epc, Hacc.
      intros E. apply (f_equal mainPC) in E. cbn in E. congruence.
Qed.

(** No deadlock: in every state the pipeline can reach, until [main]
    has returned from [accWg.Wait] some goroutine is able to take a
    step. *)
Theorem no_deadlock schedule :
  (0 < nParsers)%nat -> (0 < lineCap)%nat -> (0 < costCap)%nat ->
  let s := exec linesOf parse lineCap costCap schedule
             (start files nReaders nParsers) in
  mainPC s <> Finished -> exists a, step s a <> s.
Proof.
  intros HnP HlCap HcCap s. apply some_actor_moves; try assumption.
  apply Inv_reachable.
Qed.

Lemma runnable_bounded schedule s :
  runnable linesOf parse lineCap costCap schedule s ->
  (List.length schedule
   + remaining (exec linesOf parse lineCap costCap schedule s)
   <= remaining s)%nat.
Proof.
  revert s. induction schedule as [|a schedule IH]; intros s; cbn.
  - lia.
  - intros [Hmove Hrest]. specialize (IH _ Hrest).
    destruct (step_remaining s a) as [E|Hlt]; [contradiction|].
    unfold exec in IH. lia.
Qed.

Lemma remaining_start :
  remaining (start files nReaders nParsers)
  = (7 + nReaders + nParsers
     + sum_list_with (fun f => 3 + 4 * List.length (linesOf (Path f))) files)%nat.
Proof.
  assert (Hr : forall n, sum_list_with readerWeight (replicate n ReaderIdle) = n).
  { induction n; cbn; auto. }
  assert (Hp : forall n, sum_list_with parserWeight (replicate n ParserIdle) = n).
  { induction n; cbn; auto. }
  assert (Hf : sum_list_with (fun f => S (fileWeight linesOf f)) files
               = sum_list_with (fun f => 3 + 4 * List.length (linesOf (Path f)))%nat
                   files).
  { induction files as [|f l IH]; [reflexivity|].
    cbn [sum_list_with]. rewrite IH.
    unfold fileWeight, worksOf. rewrite List.length_map. lia. }
  unfold Pipeline.remaining, start.
  cbn [mainPC fileChan readers lineChan parsers costChan accPC buf mainWeight
       accWeight List.length sum_list_with].
  rewrite Hr, Hp, Hf. lia.
Qed.

(** Termination: a run in which every scheduled goroutine moves takes
    at most 7 steps, one per worker, and 3 steps per file and 4 per
    line of it. *)
Theorem run_is_bounded schedule :
  runnable linesOf parse lineCap costCap schedule (start files nReaders nParsers) ->
  (List.length schedule
   <= 7 + nReaders + nParsers
      + sum_list_with (fun f => 3 + 4 * List.length (linesOf (Path f))) files)%nat.
Proof. intros H%runnable_bounded. rewrite <- remaining_start. lia. Qed.

Lemma finishes_within n s :
  (0 < nParsers)%nat -> (0 < lineCap)%nat -> (0 < costCap)%nat ->
  Inv s -> (remaining s <= n)%nat ->
  exists rest,
    runnable linesOf parse lineCap costCap rest s /\
    mainPC (exec linesOf parse lineCap costCap rest s) = Finished.
Proof.
  intros HnP HlCap HcCap. revert s.
  induction n as [|n IH]; intros s H Hn.
  - exists []. split; [exact I|]. cbn.
    destruct (mainPC s) eqn:Epc; try reflexivity;
      unfold Pipeline.remaining in Hn; rewrite Epc in Hn; cbn in Hn; lia.
  - assert (Hdec : mainPC s = Finished \/ mainPC s <> Finished).
    { destruct (mainPC s); (now left) || (now right). }
    destruct Hdec as [Hfin|Hnot].
    + exists []. now split.
    + destruct (some_actor_moves s H HnP HlCap HcCap Hnot) as [a Ha].
      destruct (step_remaining s a) as [E|Hlt]; [contradiction|].
      destruct (IH (step s a)) as (rest & Hrun & Hfin).
      * now apply Inv_step.
      * lia.
      * exists (a :: rest). split; [now split|exact Hfin].
Qed.

(** The pipeline can always be run to its end: from whatever state an
    interleaving has led to, the goroutines that are able to move bring
    [main] past [accWg.Wait], with the accumulator done. *)
Theorem every_run_can_finish schedule :
  (0 < nParsers)%nat -> (0 < lineCap)%nat -> (0 < costCap)%nat ->
  let s := exec linesOf parse lineCap costCap schedule
             (start files nReaders nParsers) in
  exists rest,
    runnable linesOf parse lineCap costCap rest s /\
    mainPC (exec linesOf parse lineCap costCap (schedule ++ rest)
              (start files nReaders nParsers)) = Finished /\
    accPC (exec linesOf parse lineCap costCap (schedule ++ rest)
             (start files nReaders nParsers)) = Folding.
Proof.
  intros HnP HlCap HcCap s.
  destruct (finishes_within (remaining s) s HnP HlCap HcCap
              (Inv_reachable schedule) (Nat.le_refl _)) as (rest & Hrun & Hfin).
  exists rest. split; [exact Hrun|].
  unfold exec in *. rewrite List.fold_left_app. fold s. split; [exact Hfin|].
  assert (H : Inv (List.fold_left step rest s)).
  { apply Inv_exec, Inv_reachable. }
  apply (inv_finished _ _ _ _ _ _ H). now rewrite Hfin.
Qed.

Section Folding.

Variable BuildGroupKey : Rec.CostRecord -> string.

(** The record the accumulator holds for a request ID when it starts
    folding is one of the run's records of that ID and none of them, in
    whatever file it was and whichever worker parsed it, costs more. *)
Theorem folds_after_every_record schedule rid r :
  (0 < nReaders)%nat -> (0 < nParsers)%nat ->
  let s := exec linesOf parse lineCap costCap schedule
             (start files nReaders nParsers) in
  accPC s = Folding ->
  Acc.maxCostByRequestID (Acc.drain BuildGroupKey Acc.init (received s)) !! rid
  = Some r ->
  In r (expected linesOf parse files) /\
  Rec.RequestID r = Some rid /\
  forall x, In x (expected linesOf parse files) ->
            Rec.RequestID x = Some rid ->
            F64.gt (Rec.Cost x) (Rec.Cost r) = false.
Proof.
  intros HnR HnP s Hacc Hr.
  assert (Hall : Permutation (received s) (expected linesOf parse files)).
  { apply received_all; [apply Inv_reachable|assumption..]. }
  rewrite AccFacts.drain_maxCost in Hr. cbn [Acc.init Acc.maxCostByRequestID] in Hr.
  rewrite lookup_empty in Hr.
  destruct (List.filter (AccView.hasRequestID rid) (received s))
    as [|r0 rest] eqn:Hsame; [discriminate|].
  rewrite AccFacts.retained_cons in Hr. cbn [AccView.pick] in Hr.
  destruct (AccFacts.retained_spec _ _ _ Hr) as [Hmax _].
  assert (Hin : In r (r0 :: rest)).
  { apply AccFacts.retained_In in Hr as [Hr|Hr]; [left; congruence|now right]. }
  rewrite <- Hsame in Hin, Hmax.
  apply List.filter_In in Hin as [Hin Hrid].
  split; [|split].
  - eapply Permutation_in; eassumption.
  - now apply AccFacts.hasRequestID_true.
  - intros x Hx Hxrid. apply Hmax, List.filter_In. split.
    + eapply Permutation_in; [symmetry|]; eassumption.
    + now apply AccFacts.hasRequestID_true.
Qed.

End Folding.

End Run.

Lemma shutdown_in_stage_order_witness :
  let s := exec Sample.twoLines Sample.priced 1000 1000 Sample.toTheEnd
             (start Sample.logFiles 1 1) in
  panicked s = false /\
  (closed (lineChan s) = true ->
   closed (fileChan s) = true /\ buf (fileChan s) = [] /\
   Forall (eq ReaderExited) (readers s)) /\
  (closed (costChan s) = true ->
   closed (lineChan s) = true /\ buf (lineChan s) = [] /\
   Forall (eq ParserExited) (parsers s)) /\
  (accPC s = Folding ->
   closed (costChan s) = true /\ buf (costChan s) = []).
Proof.
  apply (shutdown_in_stage_order Sample.twoLines Sample.priced 1000 1000
           Sample.logFiles 1 1 Sample.toTheEnd); lia.
Defined.

Lemma accumulator_receives_every_record_witness :
  Permutation
    (received (exec Sample.twoLines Sample.priced 1000 1000 Sample.toTheEnd
                 (start Sample.logFiles 1 1)))
    (expected Sample.twoLines Sample.priced Sample.logFiles).
Proof.
  apply (accumulator_receives_every_record Sample.twoLines Sample.priced
           1000 1000 Sample.logFiles 1 1 Sample.toTheEnd); [lia|lia|].
  vm_compute. reflexivity.
Defined.

Lemma folds_after_every_record_witness :
  let r := Acc.sample "u1" (Some "req"%string) 1%float 1 "2024-01-05" false "{u1}" in
  In r (expected Sample.twoLines Sample.priced Sample.logFiles) /\
  Rec.RequestID r = Some "req"%string /\
  forall x, In x (expected Sample.twoLines Sample.priced Sample.logFiles) ->
            Rec.RequestID x = Some "req"%string ->
            F64.gt (Rec.Cost x) (Rec.Cost r) = false.
Proof.
  apply (folds_after_every_record Sample.twoLines Sample.priced 1000 1000
           Sample.logFiles 1 1 Acc.groupByDay Sample.toTheEnd "req");
    [lia|lia|vm_compute; reflexivity|vm_compute; reflexivity].
Defined.

Lemma no_deadlock_witness :
  exists a,
    step Sample.twoLines Sample.priced 1000 1000 (start Sample.logFiles 1 1) a
    <> start Sample.logFiles 1 1.
Proof.
  apply (no_deadlock Sample.twoLines Sample.priced 1000 1000
           Sample.logFiles 1 1 []); [lia|lia|lia|].
  cbn. discriminate.
Defined.

Lemma run_is_bounded_witness :
  (List.length Sample.toTheEnd
   <= 7 + 1 + 1
      + sum_list_with (fun f => 3 + 4 * List.length (Sample.twoLines (Path f)))
          Sample.logFiles)%nat.
Proof.
  apply (run_is_bounded Sample.twoLines Sample.priced 1000 1000
           Sample.logFiles 1 1 Sample.toTheEnd).
  repeat split; intros E; vm_compute in E; discriminate E.
Defined.

Lemma every_run_can_finish_witness :
  exists rest,
    runnable Sample.twoLines Sample.priced 1000 1000 rest
      (start Sample.logFiles 1 1) /\
    mainPC (exec Sample.twoLines Sample.priced 1000 1000 rest
              (start Sample.logFiles 1 1)) = Finished /\
    accPC (exec Sample.twoLines Sample.priced 1000 1000 rest
             (start Sample.logFiles 1 1)) = Folding.
Proof.
  apply (every_run_can_finish Sample.twoLines Sample.priced 1000 1000
           Sample.logFiles 1 1 []); lia.
Defined.

End PipelineFacts.

(** ** Decimal numbers, suffixes and base names *)

Module DigitFacts.

Import Strs StrFacts.

Lemma digitVal_digitChar d : 0 <= d <= 9 -> digitVal (digitChar d) = Some d.
Proof.
  intros H.
  assert (E : d = 0 \/ d = 1 \/ d = 2 \/ d = 3 \/ d = 4 \/ d = 5 \/ d = 6
              \/ d = 7 \/ d = 8 \/ d = 9) by lia.
  repeat (destruct E as [->|E]; [reflexivity|]). now subst.
Qed.

Lemma digitsFuel_acc fuel n acc :
  digitsFuel fuel n acc = String.append (digitsFuel fuel n "") acc.
Proof.
  revert n acc. induction fuel as [|fuel IH]; intros n acc; [reflexivity|].
  cbn [digitsFuel]. destruct (n <? 10); [reflexivity|].
  rewrite IH. rewrite (IH _ (String _ "")). now rewrite append_assoc.
Qed.

Lemma allDigits_app s t :
  allDigits (String.append s t) = allDigits s && allDigits t.
Proof.
  induction s as [|c s IH]; [reflexivity|]. rewrite append_cons. cbn.
  now destruct (digitVal c).
Qed.

Lemma digitsFuel_digits fuel n :
  0 <= n -> allDigits (digitsFuel fuel n "") = true.
Proof.
  revert n. induction fuel as [|fuel IH]; intros n Hn; [reflexivity|].
  cbn [digitsFuel].
  assert (Hd : digitVal (digitChar (n mod 10)) = Some (n mod 10)).
  { apply digitVal_digitChar. pose proof (Z.mod_pos_bound n 10). lia. }
  destruct (n <? 10).
  - cbn. now rewrite Hd.
  - rewrite digitsFuel_acc, allDigits_app, IH by (apply Z.div_pos; lia).
    cbn. now rewrite Hd.
Qed.

Lemma digitsFuel_nonempty fuel n : digitsFuel (S fuel) n "" <> "".
Proof.
  cbn [digitsFuel]. destruct (n <? 10); [discriminate|].
  rewrite digitsFuel_acc. destruct (digitsFuel fuel (n / 10) ""); discriminate.
Qed.

Lemma parseDigits_app s t k :
  allDigits s = true ->
  exists v, parseDigits s k = Some v /\ parseDigits (String.append s t) k = parseDigits t v.
Proof.
  revert k. induction s as [|c s IH]; intros k H.
  - exists k. now split.
  - cbn in H. rewrite append_cons. cbn [parseDigits].
    destruct (digitVal c) as [d|]; [|discriminate]. apply IH, H.
Qed.

Lemma parseDigits_digitsFuel fuel n k :
  0 <= n < 10 ^ Z.of_nat fuel -> 0 <= k ->
  exists p, 0 < p /\
    forall rest, parseDigits (String.append (digitsFuel fuel n "") rest) k
                 = parseDigits rest (k * p + n).
Proof.
  revert n. induction fuel as [|fuel IH]; intros n Hn Hk.
  - cbn in Hn. exists 1. split; [lia|]. intros rest. cbn.
    replace (k * 1 + n) with k by lia. reflexivity.
  - rewrite Nat2Z.inj_succ, Z.pow_succ_r in Hn by lia.
    assert (Hd : digitVal (digitChar (n mod 10)) = Some (n mod 10)).
    { apply digitVal_digitChar. pose proof (Z.mod_pos_bound n 10). lia. }
    cbn [digitsFuel]. destruct (n <? 10) eqn:Hlt.
    + exists 10. split; [lia|]. intros rest. rewrite append_cons. cbn [parseDigits].
      rewrite Hd. apply Z.ltb_lt in Hlt. rewrite Z.mod_small by lia. reflexivity.
    + apply Z.ltb_ge in Hlt.
      assert (Hq : 0 <= n / 10 < 10 ^ Z.of_nat fuel).
      { split; [apply Z.div_pos; lia|]. apply Z.div_lt_upper_bound; lia. }
      destruct (IH (n / 10) Hq Hk) as (p & Hp & Hparse).
      exists (p * 10). split; [lia|]. intros rest.
      rewrite digitsFuel_acc, append_assoc, Hparse, append_cons.
      cbn [parseDigits]. rewrite Hd.
      change (String.append "" rest) with rest. f_equal.
      pose proof (Z.div_mod n 10). lia.
Qed.

Lemma parseDigits_formatUint n :
  0 <= n < 10 ^ 20 -> parseDigits (formatUint n) 0 = Some n.
Proof.
  intros Hn. destruct (parseDigits_digitsFuel 20 n 0) as (p & _ & H); [exact Hn|lia|].
  specialize (H ""). rewrite append_empty_r in H. unfold formatUint. rewrite H.
  reflexivity.
Qed.

Lemma allDigits_head c s :
  allDigits (String c s) = true ->
  Ascii.eqb c "+" = false /\ Ascii.eqb c dash = false /\ Ascii.eqb c slash = false.
Proof.
  cbn. unfold digitVal. intros H.
  destruct (Ascii.eqb_spec c "+") as [->|_]; [discriminate|].
  destruct (Ascii.eqb_spec c dash) as [->|_]; [discriminate|].
  destruct (Ascii.eqb_spec c slash) as [->|_]; [discriminate|]. auto.
Qed.

Lemma allDigits_no_byte c s :
  (forall d, digitVal c = Some d -> False) ->
  allDigits s = true -> hasByte c s = false.
Proof.
  intros Hc. induction s as [|d s IH]; [reflexivity|]. cbn.
  destruct (digitVal d) as [v|] eqn:Hd; [|discriminate]. intros H.
  rewrite (IH H), orb_false_r. destruct (Ascii.eqb_spec c d) as [->|]; [|reflexivity].
  exfalso. eapply Hc, Hd.
Qed.

Lemma allDigits_no_dash s : allDigits s = true -> hasByte dash s = false.
Proof. apply allDigits_no_byte. discriminate. Qed.

Lemma allDigits_no_slash s : allDigits s = true -> hasByte slash s = false.
Proof. apply allDigits_no_byte. discriminate. Qed.

(** [strconv.ParseInt] reads back what [strconv.FormatInt] writes. *)
Lemma ParseInt_FormatInt n :
  0 <= n < GoInt.two63 -> ParseInt (FormatInt n) = Some n.
Proof.
  intros Hn. unfold FormatInt.
  destruct (n <? 0) eqn:Hneg; [apply Z.ltb_lt in Hneg; lia|].
  assert (Hpow : GoInt.two63 < 10 ^ 20) by (vm_compute; reflexivity).
  pose proof (parseDigits_formatUint n ltac:(lia)) as Hparse.
  pose proof (digitsFuel_digits 20 n (proj1 Hn)) as Hdig.
  pose proof (digitsFuel_nonempty 19 n) as Hne.
  unfold formatUint in *. destruct (digitsFuel 20 n "") as [|c s] eqn:E; [contradiction|].
  destruct (allDigits_head c s Hdig) as (Hplus & Hdash & _).
  unfold ParseInt. rewrite Hplus, Hdash, Hparse.
  destruct (n <? GoInt.two63) eqn:Hlt; [reflexivity|]. apply Z.ltb_ge in Hlt. lia.
Qed.

(** *** Reversal, suffixes and base names *)

Lemma reverse_app s acc :
  reverse s acc = String.append (reverse s "") acc.
Proof.
  revert acc. induction s as [|c s IH]; intros acc; [reflexivity|].
  cbn [reverse]. rewrite IH, (IH (String c "")), append_assoc. reflexivity.
Qed.

Lemma reverse_append s t :
  reverse (String.append s t) "" = String.append (reverse t "") (reverse s "").
Proof.
  induction s as [|c s IH].
  - change (String.append "" t) with t. now rewrite append_empty_r.
  - rewrite append_cons. cbn [reverse].
    rewrite reverse_app, IH, (reverse_app s (String c "")), append_assoc.
    reflexivity.
Qed.

Lemma reverse_involutive s : reverse (reverse s "") "" = s.
Proof.
  induction s as [|c s IH]; [reflexivity|]. cbn [reverse].
  rewrite (reverse_app s), reverse_append, IH. reflexivity.
Qed.

Lemma HasPrefix_app pre rest : HasPrefix (String.append pre rest) pre = true.
Proof.
  induction pre as [|c pre IH]; [now destruct rest|].
  rewrite append_cons. cbn. now rewrite Ascii.eqb_refl, IH.
Qed.

Lemma HasSuffix_app s suf : HasSuffix (String.append s suf) suf = true.
Proof. unfold HasSuffix. rewrite reverse_append. apply HasPrefix_app. Qed.

Lemma length_append s t :
  String.length (String.append s t) = (String.length s + String.length t)%nat.
Proof.
  induction s as [|c s IH]; [reflexivity|]. rewrite append_cons. cbn. now rewrite IH.
Qed.

Lemma substring_append s t :
  substring 0 (String.length s) (String.append s t) = s.
Proof.
  induction s as [|c s IH]; [now destruct t|]. rewrite append_cons. cbn.
  now rewrite IH.
Qed.

(** [strings.TrimSuffix] removes a suffix that is there. *)
Lemma TrimSuffix_app s suf : TrimSuffix (String.append s suf) suf = s.
Proof.
  unfold TrimSuffix. rewrite HasSuffix_app, length_append.
  replace (String.length s + String.length suf - String.length suf)%nat
    with (String.length s) by lia.
  apply substring_append.
Qed.

Lemma hasByte_app c s t :
  hasByte c (String.append s t) = hasByte c s || hasByte c t.
Proof.
  induction s as [|d s IH]; [reflexivity|]. rewrite append_cons. cbn.
  now rewrite IH, orb_assoc.
Qed.

Lemma hasByte_reverse c s : hasByte c (reverse s "") = hasByte c s.
Proof.
  induction s as [|d s IH]; [reflexivity|]. cbn [reverse].
  rewrite reverse_app, hasByte_app, IH. cbn. rewrite orb_false_r. apply orb_comm.
Qed.

Lemma dropLeading_absent c s : hasByte c s = false -> dropLeading c s = s.
Proof.
  destruct s as [|d s]; [reflexivity|]. cbn. intros H.
  apply orb_false_iff in H as [-> _]. reflexivity.
Qed.

(** [filepath.Base] of a name that is not empty and has no slash is
    the name. *)
Lemma Base_plain name :
  name <> EmptyString -> hasByte slash name = false -> Base name = name.
Proof.
  intros Hne Hslash. unfold Base, trimRight, afterLast.
  destruct name as [|c rest] eqn:E; [contradiction|]. rewrite <- E in *.
  rewrite dropLeading_absent by now rewrite hasByte_reverse.
  rewrite reverse_involutive, Split_no_sep by assumption. cbn [List.last].
  now rewrite E.
Qed.

End DigitFacts.

(** ** The civil calendar *)

Module CalendarFacts.

Import GoTime.

(** The position of a day in its 400-year era. *)
Lemma era_bounds doe :
  0 <= doe < 146097 ->
  let yoe := (doe - doe / 1460 + doe / 36524 - doe / 146096) / 365 in
  let doy := doe - (365 * yoe + yoe / 4 - yoe / 100) in
  let mp := (5 * doy + 2) / 153 in
  let d := doy - (153 * mp + 2) / 5 + 1 in
  0 <= yoe <= 399 /\ 0 <= doy <= 365 /\ 0 <= mp <= 11 /\ 1 <= d <= 31.
Proof.
  intros H yoe doy mp d. subst d mp doy yoe.
  Z.div_mod_to_equations; lia.
Qed.

Lemma era_split z :
  let z' := z + 719468 in
  let era := z' / 146097 in
  0 <= z' - era * 146097 < 146097.
Proof. cbv zeta. Z.div_mod_to_equations; lia. Qed.

(** The month and the day of a date are in range, and the year is not
    negative from 0000-03-01 on. *)
Lemma civilFromDays_bounds z y m d :
  civilFromDays z = (y, m, d) ->
  1 <= m <= 12 /\ 1 <= d <= 31 /\ (-719468 <= z -> 0 <= y).
Proof.
  unfold civilFromDays. cbv zeta.
  pose proof (era_split z) as Hdoe. cbv zeta in Hdoe.
  set (era := (z + 719468) / 146097) in *.
  set (doe := z + 719468 - era * 146097) in *.
  pose proof (era_bounds doe Hdoe) as Hb. cbv zeta in Hb.
  set (yoe := (doe - doe / 1460 + doe / 36524 - doe / 146096) / 365) in *.
  set (doy := doe - (365 * yoe + yoe / 4 - yoe / 100)) in *.
  set (mp := (5 * doy + 2) / 153) in *.
  intros E. injection E as <- <- <-.
  destruct Hb as (Hyoe & Hdoy & Hmp & Hd).
  split; [|split; [exact Hd|]].
  - destruct (mp <? 10) eqn:Hlt; [apply Z.ltb_lt in Hlt|apply Z.ltb_ge in Hlt]; lia.
  - intros Hz. assert (0 <= era) by (subst era; apply Z.div_pos; lia).
    destruct (_ <=? 2); lia.
Qed.

(** [daysFromCivil] counts back the days [civilFromDays] was given. *)
Lemma daysFromCivil_civilFromDays z y m d :
  civilFromDays z = (y, m, d) -> daysFromCivil y m d = z.
Proof.
  unfold civilFromDays. cbv zeta.
  pose proof (era_split z) as Hdoe. cbv zeta in Hdoe.
  set (era := (z + 719468) / 146097) in *.
  set (doe := z + 719468 - era * 146097) in *.
  pose proof (era_bounds doe Hdoe) as Hb. cbv zeta in Hb.
  set (yoe := (doe - doe / 1460 + doe / 36524 - doe / 146096) / 365) in *.
  set (doy := doe - (365 * yoe + yoe / 4 - yoe / 100)) in *.
  set (mp := (5 * doy + 2) / 153) in *.
  intros E. injection E as <- <- <-.
  destruct Hb as (Hyoe & Hdoy & Hmp & Hd).
  unfold daysFromCivil. cbv zeta.
  set (m := if mp <? 10 then mp + 3 else mp - 9).
  assert (Hm : (if 2 <? m then m - 3 else m + 9) = mp).
  { subst m. destruct (mp <? 10) eqn:Hlt;
      [apply Z.ltb_lt in Hlt|apply Z.ltb_ge in Hlt].
    - destruct (2 <? mp + 3) eqn:H2; [lia|apply Z.ltb_ge in H2; lia].
    - destruct (2 <? mp - 9) eqn:H2; [apply Z.ltb_lt in H2; lia|lia]. }
  assert (Hy : (if m <=? 2
                then yoe + era * 400 + (if m <=? 2 then 1 else 0) - 1
                else yoe + era * 400 + (if m <=? 2 then 1 else 0))
               = yoe + era * 400).
  { destruct (m <=? 2); lia. }
  rewrite Hm, Hy.
  assert (He : (yoe + era * 400) / 400 = era).
  { rewrite Z.div_add by lia. rewrite Z.div_small by lia. lia. }
  rewrite He.
  replace (yoe + era * 400 - era * 400) with yoe by lia.
  subst doy doe. lia.
Qed.

(** The day count is linear in the day of the month. *)
Lemma daysFromCivil_day y m d k :
  daysFromCivil y m (d + k) = daysFromCivil y m d + k.
Proof. unfold daysFromCivil. cbv zeta. lia. Qed.

End CalendarFacts.

(** ** The names of the day files *)

Module DayFileFacts.

Import Strs StrFacts DigitFacts CalendarFacts GoTime History.

Lemma zeros_digits k : allDigits (zeros k) = true.
Proof. induction k as [|k IH]; [reflexivity|exact IH]. Qed.

Lemma formatUint_digits n : 0 <= n -> allDigits (formatUint n) = true.
Proof. apply digitsFuel_digits. Qed.

Lemma formatUint_nonempty n : formatUint n <> EmptyString.
Proof. apply (digitsFuel_nonempty 19). Qed.

Lemma appendInt_digits x width : 0 <= x -> allDigits (appendInt x width) = true.
Proof.
  intros Hx. unfold appendInt.
  destruct (x <? 0) eqn:Hneg; [apply Z.ltb_lt in Hneg; lia|].
  rewrite allDigits_app, zeros_digits, Z.abs_eq by assumption.
  now apply formatUint_digits.
Qed.

Lemma appendInt_nonempty x width : appendInt x width <> EmptyString.
Proof.
  unfold appendInt. destruct (x <? 0); [discriminate|].
  intros E. apply (f_equal String.length) in E. rewrite length_append in E.
  pose proof (formatUint_nonempty (Z.abs x)) as Hne.
  destruct (formatUint (Z.abs x)); [contradiction|]. cbn in E. lia.
Qed.

Lemma HistoryFilename_eq t :
  HistoryFilename t
  = String.append (FormatDate (startOfDay t))
      (String dash
         (String.append (FormatInt (Unix (startOfDay t)))
            (String dash
               (String.append (FormatInt (Unix (endOfDay t))) ".jsonl")))).
Proof.
  unfold HistoryFilename, endOfDay, startOfDay.
  destruct (Date_of t) as [[y m] d]. reflexivity.
Qed.

Lemma name_shape t y m d :
  Date_of (startOfDay t) = (y, m, d) ->
  HistoryFilename t
  = String.append
      (nameOf (appendInt y 4) (appendInt m 2) (appendInt d 2)
         (FormatInt (Unix (startOfDay t))) (FormatInt (Unix (endOfDay t))))
      ".jsonl".
Proof.
  intros E. rewrite HistoryFilename_eq. unfold FormatDate, nameOf. rewrite E.
  repeat (rewrite append_assoc || rewrite append_cons). reflexivity.
Qed.

Lemma nameOf_no_slash y m d s e :
  hasByte slash y = false -> hasByte slash m = false ->
  hasByte slash d = false -> hasByte slash s = false ->
  hasByte slash e = false ->
  hasByte slash (String.append (nameOf y m d s e) ".jsonl") = false.
Proof.
  intros Hy Hm Hd Hs He. unfold nameOf.
  repeat (rewrite ?hasByte_app; cbn [hasByte]).
  rewrite Hy, Hm, Hd, Hs, He. reflexivity.
Qed.

Lemma nameOf_nonempty y m d s e :
  String.append (nameOf y m d s e) ".jsonl" <> EmptyString.
Proof.
  unfold nameOf. intros E. apply (f_equal String.length) in E.
  rewrite !length_append in E. cbn in E. rewrite !length_append in E. cbn in E. lia.
Qed.

(** What [ParseHistoryFilename] sees of a name whose fields hold no
    slash and whose date fields hold no dash. *)
Lemma parts_of_name y m d s e :
  hasByte slash y = false -> hasByte slash m = false ->
  hasByte slash d = false -> hasByte slash s = false ->
  hasByte slash e = false ->
  hasByte dash y = false -> hasByte dash m = false -> hasByte dash d = false ->
  Split (TrimSuffix (Base (String.append (nameOf y m d s e) ".jsonl")) ".jsonl") dash
  = y :: m :: d :: Split (String.append s (String dash e)) dash.
Proof.
  intros Sy Sm Sd Ss Se Dy Dm Dd.
  rewrite Base_plain by (apply nameOf_nonempty || now apply nameOf_no_slash).
  rewrite TrimSuffix_app. unfold nameOf.
  now rewrite !Split_app_sep by assumption.
Qed.

Lemma FormatInt_no_slash i : hasByte slash (FormatInt i) = false.
Proof.
  unfold FormatInt. destruct (i <? 0) eqn:Hneg.
  - apply Z.ltb_lt in Hneg. cbn [hasByte].
    rewrite allDigits_no_slash by (apply formatUint_digits; lia). reflexivity.
  - apply Z.ltb_ge in Hneg. apply allDigits_no_slash, formatUint_digits, Hneg.
Qed.

Lemma FormatInt_digits i : 0 <= i -> allDigits (FormatInt i) = true.
Proof.
  intros Hi. unfold FormatInt.
  destruct (i <? 0) eqn:Hneg; [apply Z.ltb_lt in Hneg; lia|].
  now apply formatUint_digits.
Qed.

Lemma date_fields t y m d :
  Date_of t = (y, m, d) -> 0 <= y ->
  allDigits (appendInt y 4) = true /\ allDigits (appendInt m 2) = true /\
  allDigits (appendInt d 2) = true.
Proof.
  unfold Date_of. intros E Hy.
  destruct (civilFromDays_bounds _ _ _ _ E) as (Hm & Hd & _).
  repeat split; apply appendInt_digits; lia.
Qed.

(** Reading back a name made of digit fields and two epochs. *)
Lemma parse_nameOf y m d s e :
  allDigits y = true -> allDigits m = true -> allDigits d = true ->
  0 <= s < GoInt.two63 -> 0 <= e < GoInt.two63 ->
  ParseHistoryFilename
    (String.append (nameOf y m d (FormatInt s) (FormatInt e)) ".jsonl")
  = Some (s, e).
Proof.
  intros Dy Dm Dd Hs He.
  pose proof (FormatInt_digits _ (proj1 Hs)) as Ds.
  pose proof (FormatInt_digits _ (proj1 He)) as De.
  unfold ParseHistoryFilename.
  rewrite parts_of_name
    by (apply allDigits_no_slash || apply allDigits_no_dash; assumption).
  rewrite Split_app_sep by now apply allDigits_no_dash.
  rewrite Split_no_sep by now apply allDigits_no_dash.
  cbn [List.length nth].
  change (Z.of_nat 5 <? 5) with false. cbv iota.
  now rewrite !ParseInt_FormatInt.
Qed.

(** Round trip: when the day of [t] starts and ends at or after the
    Unix epoch (and its year is not negative), [ParseHistoryFilename]
    recovers from the name exactly the two instants [HistoryFilename]
    wrote into it. *)
Theorem HistoryFilename_round_trip t :
  0 <= fst (fst (Date_of (startOfDay t))) ->
  0 <= Unix (startOfDay t) < GoInt.two63 ->
  0 <= Unix (endOfDay t) < GoInt.two63 ->
  ParseHistoryFilename (HistoryFilename t)
  = Some (Unix (startOfDay t), Unix (endOfDay t)).
Proof.
  intros Hy Hs He.
  destruct (Date_of (startOfDay t)) as [[y m] d] eqn:E. cbn in Hy.
  destruct (date_fields _ _ _ _ E Hy) as (Dy & Dm & Dd).
  rewrite (name_shape t y m d E).
  now apply parse_nameOf.
Qed.

(** A day that starts before the Unix epoch gets a name that cannot be
    read back: [FormatInt] writes the start with a minus sign, the
    fourth dash-separated field is empty, and [ParseHistoryFilename]
    returns an error. *)
Theorem HistoryFilename_before_epoch t :
  0 <= fst (fst (Date_of (startOfDay t))) ->
  Unix (startOfDay t) < 0 ->
  ParseHistoryFilename (HistoryFilename t) = None.
Proof.
  intros Hy Hs.
  destruct (Date_of (startOfDay t)) as [[y m] d] eqn:E. cbn in Hy.
  destruct (date_fields _ _ _ _ E Hy) as (Dy & Dm & Dd).
  unfold ParseHistoryFilename. rewrite (name_shape t y m d E).
  rewrite parts_of_name
    by (apply FormatInt_no_slash || apply allDigits_no_slash
        || apply allDigits_no_dash; assumption).
  assert (Hsplit : exists p ps,
             Split (String.append (FormatInt (Unix (startOfDay t)))
                      (String dash (FormatInt (Unix (endOfDay t))))) dash
             = EmptyString :: p :: ps).
  { unfold FormatInt at 1. rewrite (proj2 (Z.ltb_lt _ _) Hs).
    rewrite append_cons. cbn [Split]. rewrite Ascii.eqb_refl.
    pose proof (Split_nonempty
                  (String.append (formatUint (- Unix (startOfDay t)))
                     (String dash (FormatInt (Unix (endOfDay t))))) dash) as Hne.
    destruct (Split _ dash) as [|p ps]; [contradiction|]. now exists p, ps. }
  destruct Hsplit as (p & ps & ->). cbn [List.length nth].
  now destruct (Z.of_nat _ <? 5).
Qed.

(** *** Locations with one offset *)

Lemma Date_fixed y m d off :
  1 <= m <= 12 ->
  Unix (Date y m d 0 (FixedZone off)) = daysFromCivil y m d * secondsPerDay - off.
Proof.
  intros Hm. unfold Date. cbv zeta.
  replace ((m - 1) / 12) with 0 by (Z.div_mod_to_equations; lia).
  replace ((m - 1) mod 12 + 1) with m by (Z.div_mod_to_equations; lia).
  replace (y + 0) with y by lia.
  replace (daysFromCivil y m 1 + (d - 1)) with (daysFromCivil y m d)
    by (rewrite <- daysFromCivil_day; f_equal; lia).
  cbn [lookup FixedZone zoneInit zoneTrans lookupFrom].
  destruct (off =? 0) eqn:Hoff.
  - apply Z.eqb_eq in Hoff. subst off. cbn [Unix unixSec]. lia.
  - destruct (_ || _); cbn [fst Unix unixSec]; lia.
Qed.

Lemma Date_of_fixed u ns off :
  Date_of (mkTime u ns (FixedZone off)) = civilFromDays ((u + off) / secondsPerDay).
Proof. reflexivity. Qed.

Lemma startOfDay_fixed u ns off :
  startOfDay (mkTime u ns (FixedZone off))
  = mkTime ((u + off) / secondsPerDay * secondsPerDay - off) 0 (FixedZone off).
Proof.
  unfold startOfDay. rewrite Date_of_fixed.
  destruct (civilFromDays _) as [[y m] d] eqn:E.
  destruct (civilFromDays_bounds _ _ _ _ E) as (Hm & _ & _).
  pose proof (Date_fixed y m d off Hm) as Hunix.
  rewrite (daysFromCivil_civilFromDays _ _ _ _ E) in Hunix.
  cbn [location]. unfold Unix in Hunix. rewrite <- Hunix.
  unfold Date. cbv zeta. now destruct (lookup _ _) as [[? ?] ?].
Qed.

Lemma endOfDay_fixed u ns off :
  Unix (endOfDay (mkTime u ns (FixedZone off)))
  = (u + off) / secondsPerDay * secondsPerDay - off + secondsPerDay.
Proof.
  unfold endOfDay. rewrite startOfDay_fixed. unfold AddDate.
  rewrite Date_of_fixed.
  set (n := (u + off) / secondsPerDay).
  replace ((n * secondsPerDay - off + off) / secondsPerDay) with n
    by (unfold secondsPerDay; Z.div_mod_to_equations; lia).
  destruct (civilFromDays n) as [[y m] d] eqn:E.
  destruct (civilFromDays_bounds _ _ _ _ E) as (Hm & _ & _).
  assert (Hclock : Clock_of (mkTime (n * secondsPerDay - off) 0 (FixedZone off)) = 0).
  { unfold Clock_of, wallSec. cbn [unixSec location lookup FixedZone zoneInit
      zoneTrans lookupFrom fst].
    unfold secondsPerDay. Z.div_mod_to_equations; lia. }
  rewrite Hclock. cbn [location Unix unixSec].
  pose proof (Date_fixed y m (d + 1) off Hm) as Hunix. unfold Unix in Hunix.
  rewrite Hunix, daysFromCivil_day, (daysFromCivil_civilFromDays _ _ _ _ E).
  lia.
Qed.

(** In a location with one offset of at most a day, from the second
    day of 1970 on: the name of the file of [t] reads back as the
    range [[s, s + 86400)], which starts at a local midnight and contains
    [t]. *)
Theorem day_file_contains_its_instant u ns off :
  - secondsPerDay <= off <= secondsPerDay ->
  secondsPerDay <= u < 2 ^ 62 ->
  let t := mkTime u ns (FixedZone off) in
  let s := (u + off) / secondsPerDay * secondsPerDay - off in
  ParseHistoryFilename (HistoryFilename t) = Some (s, s + secondsPerDay) /\
  s <= u < s + secondsPerDay /\
  (s + off) mod secondsPerDay = 0.
Proof.
  intros Hoff Hu t s.
  assert (Hs : s <= u < s + secondsPerDay /\ (s + off) mod secondsPerDay = 0).
  { subst s. unfold secondsPerDay in *. Z.div_mod_to_equations; lia. }
  split; [|exact Hs].
  pose proof (startOfDay_fixed u ns off) as Hstart. fold t s in Hstart.
  pose proof (endOfDay_fixed u ns off) as Hend. fold t s in Hend.
  assert (H62 : 2 ^ 62 + 86400 < GoInt.two63) by (vm_compute; reflexivity).
  unfold secondsPerDay in *.
  destruct (Date_of (startOfDay t)) as [[y m] d] eqn:E.
  assert (Hy : 0 <= y).
  { rewrite Hstart in E. unfold Date_of, wallSec in E.
    cbn [unixSec location lookup FixedZone zoneInit zoneTrans lookupFrom fst] in E.
    apply (civilFromDays_bounds _ _ _ _ E).
    unfold secondsPerDay. subst s. Z.div_mod_to_equations; lia. }
  destruct (date_fields _ _ _ _ E Hy) as (Dy & Dm & Dd).
  rewrite (name_shape t y m d E), Hend, Hstart. cbn [Unix unixSec].
  apply parse_nameOf; try assumption; lia.
Qed.

Lemma HistoryFilename_round_trip_witness :
  ParseHistoryFilename (HistoryFilename Sample.noon)
  = Some (Unix (startOfDay Sample.noon), Unix (endOfDay Sample.noon)).
Proof.
  apply (HistoryFilename_round_trip Sample.noon); vm_compute;
    (discriminate || (split; [discriminate|reflexivity])).
Defined.

Lemma HistoryFilename_before_epoch_witness :
  ParseHistoryFilename (HistoryFilename Sample.beforeEpoch) = None.
Proof.
  apply (HistoryFilename_before_epoch Sample.beforeEpoch); vm_compute;
    (discriminate || reflexivity).
Defined.

Lemma day_file_contains_its_instant_witness :
  let t := mkTime 1704450000 0 (FixedZone 3600) in
  let s := (1704450000 + 3600) / secondsPerDay * secondsPerDay - 3600 in
  ParseHistoryFilename (HistoryFilename t) = Some (s, s + secondsPerDay) /\
  s <= 1704450000 < s + secondsPerDay /\
  (s + 3600) mod secondsPerDay = 0.
Proof.
  apply (day_file_contains_its_instant 1704450000 0 3600);
    unfold secondsPerDay; lia.
Defined.

End DayFileFacts.

(** ** What the accumulator keeps for saving *)

Module TrackFacts.

Import Acc AccView.

Lemma Before_false t u :
  GoTime.Before t u = false <->
  GoTime.unixSec u < GoTime.unixSec t \/
  (GoTime.unixSec u = GoTime.unixSec t /\ GoTime.nsec u <= GoTime.nsec t).
Proof.
  unfold GoTime.Before.
  destruct (Z.ltb_spec (GoTime.unixSec t) (GoTime.unixSec u));
    destruct (Z.eqb_spec (GoTime.unixSec t) (GoTime.unixSec u));
    destruct (Z.ltb_spec (GoTime.nsec t) (GoTime.nsec u)); cbn;
    split; intros; try discriminate; try reflexivity; lia.
Qed.

Lemma Before_true t u :
  GoTime.Before t u = true <->
  GoTime.unixSec t < GoTime.unixSec u \/
  (GoTime.unixSec t = GoTime.unixSec u /\ GoTime.nsec t < GoTime.nsec u).
Proof.
  unfold GoTime.Before.
  destruct (Z.ltb_spec (GoTime.unixSec t) (GoTime.unixSec u));
    destruct (Z.eqb_spec (GoTime.unixSec t) (GoTime.unixSec u));
    destruct (Z.ltb_spec (GoTime.nsec t) (GoTime.nsec u)); cbn;
    split; intros; try discriminate; try reflexivity; lia.
Qed.

Lemma tracked_init : tracked init [].
Proof.
  constructor; cbn; try reflexivity.
  - intros u. split; [intros H; now apply elem_of_empty in H|].
    now intros (r & [] & _).
  - intros r [].
  - intros H. contradiction.
Qed.

Lemma track_fields st r :
  let st' := trackClaude (trackHistoryUUID st r) r in
  historyUUIDs st'
  = (if Rec.FromHistory r && nonEmpty (Rec.UUID r)
     then {[Rec.UUID r]} ∪ historyUUIDs st else historyUUIDs st) /\
  claudeRecords st'
  = (if toSave r then claudeRecords st ++ [r] else claudeRecords st) /\
  claudeTimeInitialized st' = claudeTimeInitialized st || toSave r /\
  claudeMinTime st'
  = (if toSave r
     then if negb (claudeTimeInitialized st) then Rec.FullTimestamp r
          else if GoTime.Before (Rec.FullTimestamp r) (claudeMinTime st)
               then Rec.FullTimestamp r else claudeMinTime st
     else claudeMinTime st) /\
  claudeMaxTime st'
  = (if toSave r
     then if negb (claudeTimeInitialized st) then Rec.FullTimestamp r
          else if GoTime.After (Rec.FullTimestamp r) (claudeMaxTime st)
               then Rec.FullTimestamp r else claudeMaxTime st
     else claudeMaxTime st).
Proof.
  unfold trackClaude, trackHistoryUUID, toSave.
  destruct (Rec.FromHistory r && nonEmpty (Rec.UUID r)); cbn;
    destruct (negb (Rec.FromHistory r) && nonEmpty (Rec.RawLine r)); cbn;
    rewrite ?orb_false_r, ?orb_true_r;
    try (destruct (claudeTimeInitialized st); cbn); tauto.
Qed.

Lemma tracked_snoc st l r :
  tracked st l -> tracked (trackClaude (trackHistoryUUID st r) r) (l ++ [r]).
Proof.
  intros [Hc Hh Hi Hspan Hatt].
  destruct (track_fields st r) as (Eh & Ec & Ei & Emin & Emax).
  cbv zeta in *.
  constructor.
  - rewrite Ec, Hc, List.filter_app. cbn. destruct (toSave r); [reflexivity|].
    now rewrite List.app_nil_r.
  - intros u. rewrite Eh. split.
    + destruct (Rec.FromHistory r && nonEmpty (Rec.UUID r)) eqn:E.
      * apply andb_prop in E as [E1 E2]. apply AccFacts.nonEmpty_true in E2.
        intros [Hu|Hu]%elem_of_union.
        -- apply elem_of_singleton in Hu. subst u. exists r.
           rewrite List.in_app_iff. cbn. tauto.
        -- apply Hh in Hu as (x & Hx & ?). exists x. rewrite List.in_app_iff. tauto.
      * intros Hu. apply Hh in Hu as (x & Hx & ?). exists x.
        rewrite List.in_app_iff. tauto.
    + intros (x & Hx & Hfrom & Hux & Hne). apply List.in_app_iff in Hx as [Hx|[<-|[]]].
      * assert (Hu : u ∈ historyUUIDs st) by (apply Hh; eauto).
        destruct (_ && _); [apply elem_of_union; now right|assumption].
      * rewrite Hfrom, (proj2 (AccFacts.nonEmpty_true _)) by congruence.
        cbn. apply elem_of_union. left. now apply elem_of_singleton.
  - rewrite Ei, Hi, List.forallb_app. cbn. rewrite andb_true_r.
    destruct (forallb _ l), (toSave r); reflexivity.
  - intros x Hx. rewrite List.filter_app in Hx. rewrite Emin, Emax.
    assert (Hinit : List.filter toSave l <> [] -> claudeTimeInitialized st = true).
    { intros Hne. rewrite Hi. destruct (forallb _ l) eqn:Hall; [|reflexivity].
      exfalso. apply Hne. clear -Hall. induction l as [|a l IH]; [reflexivity|].
      cbn in *. destruct (toSave a); [discriminate|]. now apply IH. }
    apply List.in_app_iff in Hx as [Hx|Hx].
    + destruct (Hspan x Hx) as [Hlo Hhi].
      rewrite Hinit by (intros E; rewrite E in Hx; exact Hx).
      destruct (toSave r); [|now split]. cbn [negb].
      unfold GoTime.After in *. split.
      * destruct (GoTime.Before (Rec.FullTimestamp r) (claudeMinTime st)) eqn:Hb;
          [|assumption].
        apply Before_false. apply Before_false in Hlo. apply Before_true in Hb. lia.
      * destruct (GoTime.Before (claudeMaxTime st) (Rec.FullTimestamp r)) eqn:Hb;
          [|assumption].
        apply Before_false. apply Before_false in Hhi. apply Before_true in Hb. lia.
    + cbn [List.filter] in Hx. destruct (toSave r) eqn:Hr; [|contradiction].
      cbn in Hx. destruct Hx as [<-|[]]. unfold GoTime.After.
      destruct (claudeTimeInitialized st); cbn [negb].
      * split.
        -- destruct (GoTime.Before (Rec.FullTimestamp r) (claudeMinTime st)) eqn:Hb;
             [|assumption]. apply Before_false. lia.
        -- destruct (GoTime.Before (claudeMaxTime st) (Rec.FullTimestamp r)) eqn:Hb;
             [|assumption]. apply Before_false. lia.
      * split; apply Before_false; lia.
  - intros Hne. rewrite List.filter_app in Hne |- *. rewrite Emin, Emax.
    setoid_rewrite List.in_app_iff. cbn [List.filter] in *.
    destruct (toSave r) eqn:Hr.
    + destruct (claudeTimeInitialized st) eqn:Einit; cbn [negb].
      * assert (Hl : List.filter toSave l <> []).
        { intros E. clear -E Hi.
          induction l as [|a l IH]; cbn in *; [discriminate Hi|].
          destruct (toSave a); [discriminate E|]. now apply IH. }
        destruct (Hatt Hl) as [(a & Ha & Ea) (b & Hb & Eb)]. split.
        -- destruct (GoTime.Before _ _); [exists r; cbn; tauto|exists a; tauto].
        -- destruct (GoTime.After _ _); [exists r; cbn; tauto|exists b; tauto].
      * split; exists r; cbn; tauto.
    + rewrite List.app_nil_r in Hne.
      destruct (Hatt Hne) as [(a & Ha & Ea) (b & Hb & Eb)].
      split; [exists a|exists b]; tauto.
Qed.

Section Run.

Variable BuildGroupKey : Rec.CostRecord -> string.
Variable rangeMap : gmap string Rec.CostRecord -> list Rec.CostRecord.

Lemma dedupe_keeps st r :
  let st' := dedupe BuildGroupKey st r in
  claudeRecords st' = claudeRecords st /\ historyUUIDs st' = historyUUIDs st /\
  claudeMinTime st' = claudeMinTime st /\ claudeMaxTime st' = claudeMaxTime st /\
  claudeTimeInitialized st' = claudeTimeInitialized st.
Proof.
  unfold dedupe. destruct (Rec.RequestID r) as [rid|].
  - destruct (maxCostByRequestID st !! rid) as [e|]; [destruct (F64.gt _ _)|];
      cbn; tauto.
  - destruct (nonEmpty (Rec.UUID r)); cbn; [destruct (bool_decide _)|]; cbn; tauto.
Qed.

Lemma fold_keeps st r :
  let st' := fold BuildGroupKey st r in
  claudeRecords st' = claudeRecords st /\ historyUUIDs st' = historyUUIDs st /\
  claudeMinTime st' = claudeMinTime st /\ claudeMaxTime st' = claudeMaxTime st /\
  claudeTimeInitialized st' = claudeTimeInitialized st.
Proof. cbn. tauto. Qed.

Lemma tracked_same st st' l :
  claudeRecords st' = claudeRecords st -> historyUUIDs st' = historyUUIDs st ->
  claudeMinTime st' = claudeMinTime st -> claudeMaxTime st' = claudeMaxTime st ->
  claudeTimeInitialized st' = claudeTimeInitialized st ->
  tracked st l -> tracked st' l.
Proof.
  intros Ec Eh Emin Emax Ei [Hc Hh Hi Hspan Hatt].
  constructor; rewrite ?Ec, ?Eh, ?Emin, ?Emax, ?Ei; assumption.
Qed.

Lemma receive_tracked st l r :
  tracked st l -> tracked (receive BuildGroupKey st r) (l ++ [r]).
Proof.
  intros H. unfold receive.
  destruct (dedupe_keeps (trackClaude (trackHistoryUUID st r) r) r)
    as (Ec & Eh & Emin & Emax & Ei).
  eapply tracked_same; try eassumption. now apply tracked_snoc.
Qed.

Lemma drain_tracked st l rs :
  tracked st l -> tracked (drain BuildGroupKey st rs) (l ++ rs).
Proof.
  revert st l. induction rs as [|r rs IH]; intros st l H.
  - now rewrite List.app_nil_r.
  - cbn [drain List.fold_left].
    replace (l ++ r :: rs) with ((l ++ [r]) ++ rs) by now rewrite <- List.app_assoc.
    apply IH, receive_tracked, H.
Qed.

Lemma folds_tracked st l rs :
  tracked st l -> tracked (List.fold_left (fold BuildGroupKey) rs st) l.
Proof.
  revert st. induction rs as [|r rs IH]; intros st H; [exact H|].
  cbn [List.fold_left]. apply IH.
  destruct (fold_keeps st r) as (Ec & Eh & Emin & Emax & Ei).
  eapply tracked_same; eassumption.
Qed.

Lemma accumulate_tracked records :
  tracked (accumulate BuildGroupKey rangeMap records) records.
Proof.
  unfold accumulate, secondPass. apply folds_tracked.
  apply (drain_tracked init [] records), tracked_init.
Qed.

(** What the accumulator hands to [saveToHistory]: [claudeRecords] is
    the list of the received records that do not come from a history
    file and have a raw line, in the order of their arrival, whether or
    not they counted for the metrics; [historyUUIDs] is the set of the
    non-empty UUIDs of the records that come from history files. *)
Theorem accumulate_records_to_save records :
  let st := accumulate BuildGroupKey rangeMap records in
  claudeRecords st = List.filter toSave records /\
  forall u, u ∈ historyUUIDs st <->
            exists r, In r records /\ Rec.FromHistory r = true /\
                      Rec.UUID r = u /\ u <> EmptyString.
Proof.
  intros st. destruct (accumulate_tracked records) as [Hc Hh _ _ _].
  split; [exact Hc|exact Hh].
Qed.

(** The time span handed to [saveToHistory] covers the records to
    save: none of them is before [claudeMinTime] or after
    [claudeMaxTime], and when there is one, the span is initialised and
    both bounds are the timestamps of records to save. *)
Theorem accumulate_time_span records :
  let st := accumulate BuildGroupKey rangeMap records in
  (forall r, In r (claudeRecords st) ->
     GoTime.Before (Rec.FullTimestamp r) (claudeMinTime st) = false /\
     GoTime.After (Rec.FullTimestamp r) (claudeMaxTime st) = false) /\
  (claudeRecords st <> [] ->
     claudeTimeInitialized st = true /\
     (exists r, In r (claudeRecords st) /\ claudeMinTime st = Rec.FullTimestamp r) /\
     (exists r, In r (claudeRecords st) /\ claudeMaxTime st = Rec.FullTimestamp r)) /\
  (claudeRecords st = [] -> claudeTimeInitialized st = false).
Proof.
  intros st. destruct (accumulate_tracked records) as [Hc Hh Hi Hspan Hatt].
  fold st in Hc, Hi, Hspan, Hatt. rewrite Hc.
  assert (Hall : forallb (fun r => negb (toSave r)) records = true
                 <-> List.filter toSave records = []).
  { clear. induction records as [|a l IH]; cbn; [tauto|].
    destruct (toSave a); cbn; [split; discriminate|exact IH]. }
  split; [exact Hspan|]. split.
  - intros Hne. split; [|now apply Hatt].
    rewrite Hi. destruct (forallb _ records); [|reflexivity].
    exfalso. apply Hne, Hall. reflexivity.
  - intros E. rewrite Hi. apply Hall in E. now rewrite E.
Qed.

End Run.

End TrackFacts.

(** ** Appending and loading again *)

Module AppendLoadFacts.

Import Strs OS History StrFacts OSFacts StoreFacts.

Lemma batch_app l1 l2 :
  batch (l1 ++ l2) = String.append (batch l1) (batch l2).
Proof.
  induction l1 as [|l ls IH]; [reflexivity|].
  change ((l :: ls) ++ l2) with (l :: (ls ++ l2)). cbn [batch].
  now rewrite IH, append_assoc, append_cons.
Qed.

(** Appending to a file that ends in the middle of a line glues the
    first new line to what is there. *)
Lemma batch_glue complete partial l1 rest :
  String.append (String.append (batch complete) partial) (batch (l1 :: rest))
  = String.append (batch (complete ++ String.append partial l1 :: rest)) "".
Proof.
  rewrite append_empty_r, batch_app. cbn [batch].
  now rewrite !append_assoc.
Qed.

Lemma map_dropCR_whole lines :
  Forall wholeLine lines -> List.map dropCR lines = lines.
Proof.
  induction 1 as [|l ls (_ & _ & Hl & _) _ IH]; [reflexivity|].
  cbn. now rewrite Hl, IH.
Qed.

Section Decoder.

Variable decodeUUID : string -> option string.

(** Append, then load: after [AppendRawLines] has added the lines
    [l1 :: rest] to a file that holds the complete lines [complete]
    followed by [partial] (the beginning of a line that a crash cut
    short, or nothing), [LoadUUIDs] scans the complete lines, then
    [partial] and [l1] as one line, then [rest], without error. *)
Theorem LoadUUIDs_after_append w file complete partial l1 rest :
  faults w = [] ->
  appendable (fs w) file ->
  contentOf (fs w) file = String.append (batch complete) partial ->
  Forall wholeLine complete -> Forall wholeLine (l1 :: rest) ->
  hasByte newline partial = false ->
  (len (String.append partial l1) < maxLine)%Z ->
  exists w',
    AppendRawLines file (l1 :: rest) w = (Ok tt, w') /\
    LoadUUIDs decodeUUID file w'
    = ((List.fold_left (addUUID decodeUUID)
          (complete ++ dropCR (String.append partial l1) :: rest) ∅, None), w').
Proof.
  intros Hfl Happ Hcontent Hcomplete Hnew Hpartial Hlen.
  destruct (AppendRawLines_again file (l1 :: rest) w ltac:(discriminate) Hfl Happ)
    as (w' & E & Hfl' & _ & Hfile & _).
  exists w'. split; [exact E|].
  rewrite (LoadUUIDs_ok decodeUUID file w' _ Hfl' Hfile).
  rewrite Hcontent, batch_glue.
  inversion Hnew as [|? ? Hl1 Hrest]; subst.
  rewrite scanLines_batch.
  - cbn [fst snd String.eqb]. rewrite List.app_nil_r, List.map_app. cbn [List.map].
    now rewrite !map_dropCR_whole.
  - apply Forall_app. split.
    + eapply Forall_impl; [exact Hcomplete|]. intros l (_ & Hn & _ & Hl). now split.
    + constructor.
      * split; [|exact Hlen]. rewrite DigitFacts.hasByte_app, Hpartial.
        now destruct Hl1 as (_ & -> & _).
      * eapply Forall_impl; [exact Hrest|]. intros l (_ & Hn & _ & Hl). now split.
  - reflexivity.
  - reflexivity.
Qed.

End Decoder.

Lemma LoadUUIDs_after_append_witness :
  exists w',
    AppendRawLines "/data/ccc/history/x.jsonl" ["{d}"; "{e}"]%string
      Sample.crashedWorld = (Ok tt, w') /\
    LoadUUIDs Sample.bracedUUID "/data/ccc/history/x.jsonl" w'
    = ((List.fold_left (addUUID Sample.bracedUUID)
          (List.app ["{a}"; "{b}"]%string
             (dropCR (String.append "{c" "{d}") :: ["{e}"%string])) ∅,
        None), w').
Proof.
  apply (LoadUUIDs_after_append Sample.bracedUUID Sample.crashedWorld
           "/data/ccc/history/x.jsonl" ["{a}"; "{b}"]%string "{c"%string
           "{d}"%string ["{e}"%string]).
  - reflexivity.
  - split; [compute_done|].
    vm_compute ancestors. repeat constructor; try compute_done; discriminate.
  - reflexivity.
  - repeat constructor; discriminate.
  - repeat constructor; discriminate.
  - reflexivity.
  - reflexivity.
Defined.

End AppendLoadFacts.

(** ** Paths of the history store *)

Module PathFacts.

Import Strs StrFacts DigitFacts.

Lemma Split_app s c t :
  Split (String.append s (String c t)) c = Split s c ++ Split t c.
Proof.
  induction s as [|d s IH].
  - change (String.append "" (String c t)) with (String c t). cbn [Split].
    now rewrite Ascii.eqb_refl.
  - rewrite append_cons. cbn [Split]. rewrite IH.
    destruct (Ascii.eqb d c); [reflexivity|].
    pose proof (Split_nonempty s c) as Hne.
    destruct (Split s c) as [|cur rest]; [contradiction|]. reflexivity.
Qed.

Lemma last_snoc {A} (l : list A) x d : List.last (l ++ [x]) d = x.
Proof. apply List.last_last. Qed.

(** The last element of a path that ends in a plain name. *)
Lemma Base_dir_name dir name :
  plainName name -> Base (String.append dir (String slash name)) = name.
Proof.
  intros (Hne & _ & _ & Hslash). unfold Base, trimRight, afterLast.
  destruct (String.append dir (String slash name)) as [|c0 s0] eqn:E.
  { apply (f_equal String.length) in E. rewrite length_append in E. cbn in E. lia. }
  rewrite <- E.
  assert (Hrev : dropLeading slash (reverse (String.append dir (String slash name)) "")
                 = reverse (String.append dir (String slash name)) "").
  { rewrite reverse_append. cbn [reverse]. rewrite (reverse_app name).
    destruct (reverse name "") as [|c r] eqn:Er.
    - apply (f_equal (fun s => reverse s "")) in Er.
      rewrite reverse_involutive in Er. contradiction.
    - rewrite !append_cons. cbn [dropLeading].
      assert (Hc : hasByte slash (String c r) = false)
        by now rewrite <- Er, hasByte_reverse.
      cbn [hasByte] in Hc. apply orb_false_iff in Hc as [-> _]. reflexivity. }
  rewrite Hrev, reverse_involutive, Split_app, (Split_no_sep name) by assumption.
  rewrite last_snoc. destruct name; [contradiction|reflexivity].
Qed.

Lemma JoinWith_snoc sep l x :
  JoinWith sep (l ++ [x])
  = match l with
    | [] => x
    | _ => String.append (JoinWith sep l) (String.append sep x)
    end.
Proof.
  induction l as [|a l IH]; [reflexivity|].
  change ((a :: l) ++ [x]) with (a :: (l ++ [x])).
  destruct l as [|b l].
  - reflexivity.
  - change (JoinWith sep (a :: (b :: l) ++ [x]))
      with (String.append a (String.append sep (JoinWith sep ((b :: l) ++ [x])))).
    rewrite IH. cbn [JoinWith]. now rewrite !append_assoc.
Qed.

Lemma cleanStep_plain rooted stack name :
  plainName name -> cleanStep rooted stack name = name :: stack.
Proof.
  intros (Hne & Hdot & Hdots & _). unfold cleanStep.
  destruct (String.eqb_spec name ""); [contradiction|].
  destruct (String.eqb_spec name "."); [contradiction|].
  destruct (String.eqb_spec name ".."); [contradiction|]. reflexivity.
Qed.

(** Cleaning a path that ends in a plain name keeps the name last. *)
Lemma Clean_dir_name dir name :
  plainName name ->
  Clean (String.append dir (String slash name)) = name \/
  exists before, Clean (String.append dir (String slash name))
                 = String.append before (String slash name).
Proof.
  intros Hname. unfold Clean.
  rewrite Split_app, (Split_no_sep name) by apply Hname.
  rewrite List.fold_left_app. cbn [List.fold_left].
  rewrite cleanStep_plain by assumption. cbn [List.rev].
  rewrite JoinWith_snoc.
  set (rooted := HasPrefix _ "/").
  destruct (List.rev _) as [|a l] eqn:El.
  - destruct rooted.
    + right. exists EmptyString. reflexivity.
    + left. destruct name; [now destruct Hname|reflexivity].
  - change (String.append "/" name) with (String slash name).
    destruct rooted.
    + right. exists (String slash (JoinWith "/" (a :: l))).
      now rewrite append_cons.
    + right. exists (JoinWith "/" (a :: l)).
      destruct (String.append _ _) eqn:E; [|reflexivity].
      apply (f_equal String.length) in E. rewrite length_append in E.
      cbn in E. lia.
Qed.

(** [filepath.Base(filepath.Join(dir, name))] is [name]. *)
Lemma Base_Join dir name :
  plainName name -> Base (Join [dir; name]) = name.
Proof.
  intros Hname. unfold Join. cbn [List.filter].
  destruct Hname as (Hne & Hrest).
  destruct (String.eqb_spec name ""); [contradiction|]. cbn [negb].
  destruct (String.eqb_spec dir "") as [->|Hdir]; cbn [negb].
  - cbn [JoinWith]. 
    assert (E : Clean name = name).
    { unfold Clean. rewrite Split_no_sep by apply Hrest. cbn [List.fold_left].
      rewrite cleanStep_plain by (split; assumption). cbn [List.rev JoinWith].
      destruct name as [|c s]; [contradiction|]. cbn [HasPrefix].
      destruct Hrest as (_ & _ & Hs). cbn [hasByte] in Hs.
      apply orb_false_iff in Hs as [Hc _].
      unfold slash in Hc. rewrite Hc. reflexivity. }
    rewrite E. apply Base_plain; [assumption|apply Hrest].
  - cbn [JoinWith]. change (String.append "/" name) with (String slash name).
    destruct (Clean_dir_name dir name) as [E|(before & E)];
      [split; assumption|rewrite E..].
    + apply Base_plain; [assumption|apply Hrest].
    + apply Base_dir_name. split; assumption.
Qed.

Import GoTime OS History.

Lemma appendInt_no_slash x width : hasByte slash (appendInt x width) = false.
Proof.
  unfold appendInt.
  assert (H : hasByte slash
                (String.append (zeros (width - String.length (formatUint (Z.abs x))))
                   (formatUint (Z.abs x))) = false).
  { apply allDigits_no_slash. rewrite allDigits_app, DayFileFacts.zeros_digits.
    apply DayFileFacts.formatUint_digits. lia. }
  destruct (x <? 0); [cbn [hasByte]; now rewrite H|exact H].
Qed.

Lemma FormatDate_no_slash t : hasByte slash (FormatDate t) = false.
Proof.
  unfold FormatDate. destruct (Date_of t) as [[y m] d].
  repeat (rewrite hasByte_app || cbn [hasByte]).
  now rewrite !appendInt_no_slash.
Qed.

Lemma plain_day_name date s e :
  hasByte slash date = false -> hasByte slash s = false ->
  hasByte slash e = false ->
  plainName
    (String.append date
       (String dash (String.append s (String dash (String.append e ".jsonl"))))).
Proof.
  intros Hd Hs He.
  assert (Hlen : (6 <= String.length
                    (String.append date
                       (String dash
                          (String.append s
                             (String dash (String.append e ".jsonl"))))))%nat).
  { repeat (rewrite length_append; cbn [String.length]). lia. }
  repeat split.
  - intros E. rewrite E in Hlen. cbn in Hlen. lia.
  - intros E. rewrite E in Hlen. cbn in Hlen. lia.
  - intros E. rewrite E in Hlen. cbn in Hlen. lia.
  - repeat (rewrite hasByte_app || cbn [hasByte]).
    now rewrite Hd, Hs, He.
Qed.

(** The name [HistoryFilename] gives is a plain file name, whatever
    the time. *)
Lemma HistoryFilename_plain t : plainName (HistoryFilename t).
Proof.
  rewrite DayFileFacts.HistoryFilename_eq.
  apply plain_day_name.
  - apply FormatDate_no_slash.
  - apply DayFileFacts.FormatInt_no_slash.
  - apply DayFileFacts.FormatInt_no_slash.
Qed.

(** The path of the day file of [t] ends in the name of the day, so it
    reads back as the name does, whatever the history directory is:
    [ParseHistoryFilename] and [FileOverlapsRange] see only the name. *)
Theorem HistoryFileForTimestamp_reads_as_name t w path :
  fst (HistoryFileForTimestamp t w) = Ok path ->
  Base path = HistoryFilename t /\
  ParseHistoryFilename path = ParseHistoryFilename (HistoryFilename t) /\
  forall queryStart queryEnd,
    FileOverlapsRange path queryStart queryEnd
    = FileOverlapsRange (HistoryFilename t) queryStart queryEnd.
Proof.
  rewrite SaveFacts.HistoryFileForTimestamp_eq. cbn [fst].
  destruct (historyDirOf (env w)) as [dir|e]; [|discriminate].
  intros E. injection E as <-.
  pose proof (HistoryFilename_plain t) as Hplain.
  assert (Hbase : Base (Join [dir; HistoryFilename t]) = HistoryFilename t)
    by now apply Base_Join.
  assert (Hparse : ParseHistoryFilename (Join [dir; HistoryFilename t])
                   = ParseHistoryFilename (HistoryFilename t)).
  { unfold ParseHistoryFilename. rewrite Hbase, Base_plain; [reflexivity|..];
      apply Hplain. }
  split; [exact Hbase|]. split; [exact Hparse|].
  intros qs qe. unfold FileOverlapsRange. now rewrite Hparse.
Qed.

Lemma HistoryFileForTimestamp_reads_as_name_witness :
  Base Sample.dayFile = HistoryFilename Sample.noon /\
  ParseHistoryFilename Sample.dayFile
  = ParseHistoryFilename (HistoryFilename Sample.noon) /\
  forall queryStart queryEnd,
    FileOverlapsRange Sample.dayFile queryStart queryEnd
    = FileOverlapsRange (HistoryFilename Sample.noon) queryStart queryEnd.
Proof.
  apply (HistoryFileForTimestamp_reads_as_name Sample.noon Sample.emptyWorld
           Sample.dayFile).
  vm_compute. reflexivity.
Defined.

End PathFacts.

(** ** Grouping and sorting the keys *)

Module SortFacts.

Import Group.

(** *** Exchanging two elements *)

Lemma insert_Permutation {A} (l : list A) j b x :
  l !! j = Some b -> Permutation (x :: l) (b :: <[j := x]> l).
Proof.
  revert j. induction l as [|a l IH]; intros [|j] H; try discriminate.
  - injection H as ->. apply perm_swap.
  - change (<[S j := x]> (a :: l)) with (a :: <[j := x]> l).
    rewrite perm_swap. rewrite (IH j H). apply perm_swap.
Qed.

Lemma exchange_Permutation {A} (l : list A) i j a b :
  (i < j)%nat -> l !! i = Some a -> l !! j = Some b ->
  Permutation (<[j := a]> (<[i := b]> l)) l.
Proof.
  revert i j. induction l as [|x l IH]; intros [|i] [|j] Hij Hi Hj;
    try discriminate; try lia.
  - injection Hi as ->.
    change (<[S j := a]> (<[0%nat := b]> (a :: l))) with (b :: <[j := a]> l).
    symmetry. now apply insert_Permutation.
  - change (<[S j := a]> (<[S i := b]> (x :: l)))
      with (x :: <[j := a]> (<[i := b]> l)).
    constructor. apply (IH i j); [lia|assumption..].
Qed.

Section Sorting.

Variable cfg : GroupConfig.

Lemma swapStep_length i keys j :
  List.length (swapStep cfg i keys j) = List.length keys.
Proof.
  unfold swapStep. destruct (keys !! i), (keys !! j); try reflexivity.
  destruct (shouldSwap _ _ _); [|reflexivity]. now rewrite !length_insert.
Qed.

Lemma swapStep_Permutation i keys j :
  (i < j)%nat -> Permutation (swapStep cfg i keys j) keys.
Proof.
  intros Hij. unfold swapStep.
  destruct (keys !! i) as [a|] eqn:Hi; [|reflexivity].
  destruct (keys !! j) as [b|] eqn:Hj; [|reflexivity].
  destruct (shouldSwap _ _ _); [|reflexivity].
  now apply exchange_Permutation.
Qed.

Lemma sweep_Permutation i js keys :
  Forall (fun j => (i < j)%nat) js ->
  Permutation (List.fold_left (swapStep cfg i) js keys) keys /\
  List.length (List.fold_left (swapStep cfg i) js keys) = List.length keys.
Proof.
  revert keys. induction js as [|j js IH]; intros keys Hjs; [now split|].
  inversion Hjs as [|? ? Hj Hrest]; subst. cbn [List.fold_left].
  destruct (IH (swapStep cfg i keys j) Hrest) as [Hp Hl]. split.
  - rewrite Hp. now apply swapStep_Permutation.
  - now rewrite Hl, swapStep_length.
Qed.

Lemma seq_above i n : Forall (fun j => (i < j)%nat) (List.seq (S i) n).
Proof.
  apply Forall_forall. intros j Hj. apply list_elem_of_In, List.in_seq in Hj. lia.
Qed.

Lemma innerLoop_Permutation keys i :
  Permutation (innerLoop cfg keys i) keys /\
  List.length (innerLoop cfg keys i) = List.length keys.
Proof. apply sweep_Permutation, seq_above. Qed.

Lemma outer_Permutation is_ keys :
  Permutation (List.fold_left (innerLoop cfg) is_ keys) keys.
Proof.
  revert keys. induction is_ as [|i is_ IH]; intros keys; [reflexivity|].
  cbn [List.fold_left]. rewrite IH. apply innerLoop_Permutation.
Qed.

(** [sortKeys] only reorders the keys. *)
Lemma sortKeys_Permutation keys : Permutation (sortKeys keys cfg) keys.
Proof. apply outer_Permutation. Qed.

(** *** Order *)

(** The keys on which the comparison of [sortKeys] is a strict weak
    order. *)
Variable domain : string -> Prop.

Hypothesis swap_asym :
  forall a b, domain a -> domain b ->
    shouldSwap cfg a b = true -> shouldSwap cfg b a = false.

Hypothesis swap_trans :
  forall a b c, domain a -> domain b -> domain c ->
    shouldSwap cfg a b = false -> shouldSwap cfg b c = false ->
    shouldSwap cfg a c = false.

(** Every position before [k] holds a key that none of the later
    positions would be swapped with. *)
Definition ordered (k : nat) (l : list string) : Prop :=
  forall p q a b, (p < k)%nat -> (p < q)%nat ->
    l !! p = Some a -> l !! q = Some b -> shouldSwap cfg a b = false.

(** The same for position [k] and the positions between [k] and [j]. *)
Definition least (k j : nat) (l : list string) : Prop :=
  forall q a b, (k < q)%nat -> (q < j)%nat ->
    l !! k = Some a -> l !! q = Some b -> shouldSwap cfg a b = false.

Lemma domain_lookup l p a : Forall domain l -> l !! p = Some a -> domain a.
Proof. intros H Hp. eapply Forall_lookup_1; eassumption. Qed.

Lemma exchange_lookup (l : list string) i j a b q :
  (i < j)%nat -> l !! i = Some a -> l !! j = Some b ->
  <[j := a]> (<[i := b]> l) !! q
  = if decide (q = j) then Some a else if decide (q = i) then Some b else l !! q.
Proof.
  intros Hij Hi Hj.
  assert (Hli : (i < List.length l)%nat) by (apply lookup_lt_is_Some; eauto).
  assert (Hlj : (j < List.length l)%nat) by (apply lookup_lt_is_Some; eauto).
  destruct (decide (q = j)) as [->|Hqj].
  - apply list_lookup_insert_eq. now rewrite length_insert.
  - rewrite list_lookup_insert_ne by congruence.
    destruct (decide (q = i)) as [->|Hqi].
    + now apply list_lookup_insert_eq.
    + now rewrite list_lookup_insert_ne by congruence.
Qed.

Lemma swapStep_order k j l :
  (k < j)%nat -> Forall domain l -> ordered k l -> least k j l ->
  ordered k (swapStep cfg k l j) /\ least k (S j) (swapStep cfg k l j).
Proof.
  intros Hkj Hdom Hord Hleast. unfold swapStep.
  destruct (l !! k) as [a|] eqn:Hk.
  2:{ split; [exact Hord|]. intros q x y _ _ Hx. congruence. }
  destruct (l !! j) as [b|] eqn:Hj.
  2:{ split; [exact Hord|]. intros q x y Hq1 Hq2 Hx Hy.
      destruct (decide (q = j)) as [->|]; [congruence|].
      apply (Hleast q x y); try assumption; lia. }
  pose proof (domain_lookup _ _ _ Hdom Hk) as Da.
  pose proof (domain_lookup _ _ _ Hdom Hj) as Db.
  destruct (shouldSwap cfg a b) eqn:Hswap.
  - split.
    + intros p q x y Hp Hpq Hx Hy.
      rewrite (exchange_lookup l k j a b) in Hx, Hy by assumption.
      repeat destruct (decide _) in Hx; try lia.
      repeat destruct (decide _) in Hy; subst.
      * injection Hy as <-. apply (Hord p k x a); try assumption; lia.
      * injection Hy as <-. apply (Hord p j x b); try assumption; lia.
      * apply (Hord p q x y); assumption.
    + intros q x y Hq1 Hq2 Hx Hy.
      rewrite (exchange_lookup l k j a b) in Hx, Hy by assumption.
      repeat destruct (decide _) in Hx; try lia. injection Hx as <-.
      repeat destruct (decide _) in Hy; subst; try lia.
      * injection Hy as <-. now apply swap_asym.
      * pose proof (domain_lookup _ _ _ Hdom Hy) as Dy.
        apply (swap_trans b a y); try assumption.
        -- now apply swap_asym.
        -- apply (Hleast q a y); try assumption; lia.
  - split; [exact Hord|]. intros q x y Hq1 Hq2 Hx Hy.
    rewrite Hk in Hx. injection Hx as <-.
    destruct (decide (q = j)) as [->|].
    + rewrite Hj in Hy. now injection Hy as <-.
    + apply (Hleast q a y); try assumption; lia.
Qed.

Lemma swapStep_domain k j l :
  (k < j)%nat -> Forall domain l -> Forall domain (swapStep cfg k l j).
Proof.
  intros Hkj Hdom. rewrite (swapStep_Permutation k l j Hkj). exact Hdom.
Qed.

Lemma sweep_order k m j l :
  (k < j)%nat -> Forall domain l -> ordered k l -> least k j l ->
  ordered k (List.fold_left (swapStep cfg k) (List.seq j m) l) /\
  least k (j + m) (List.fold_left (swapStep cfg k) (List.seq j m) l).
Proof.
  revert j l. induction m as [|m IH]; intros j l Hkj Hdom Hord Hleast.
  - cbn. now rewrite Nat.add_0_r.
  - cbn [List.seq List.fold_left].
    destruct (swapStep_order k j l Hkj Hdom Hord Hleast) as [Ho Hl].
    replace (j + S m)%nat with (S j + m)%nat by lia.
    apply IH; [lia|now apply swapStep_domain|assumption..].
Qed.

Lemma innerLoop_order k l :
  (k < List.length l)%nat -> Forall domain l -> ordered k l ->
  ordered (S k) (innerLoop cfg l k).
Proof.
  intros Hk Hdom Hord.
  destruct (sweep_order k (List.length l - S k) (S k) l) as [Ho Hl];
    [lia|assumption..| |].
  { intros q a b Hq1 Hq2. lia. }
  fold (innerLoop cfg l k) in Ho, Hl.
  intros p q a b Hp Hpq Ha Hb.
  destruct (decide (p = k)) as [->|Hne].
  - apply (Hl q a b); try assumption.
    apply lookup_lt_Some in Hb.
    rewrite (proj2 (innerLoop_Permutation l k)) in Hb. lia.
  - apply (Ho p q a b); try assumption. lia.
Qed.

Lemma outer_order m k l :
  (k + m = List.length l)%nat -> Forall domain l -> ordered k l ->
  ordered (k + m) (List.fold_left (innerLoop cfg) (List.seq k m) l).
Proof.
  revert k l. induction m as [|m IH]; intros k l Hlen Hdom Hord.
  - cbn. now rewrite Nat.add_0_r.
  - cbn [List.seq List.fold_left].
    replace (k + S m)%nat with (S k + m)%nat by lia.
    destruct (innerLoop_Permutation l k) as [Hperm Hl].
    apply IH.
    + rewrite Hl. lia.
    + now rewrite Hperm.
    + apply innerLoop_order; [lia|assumption..].
Qed.

(** After [sortKeys] no key would be swapped with a later one. *)
Lemma sortKeys_order keys p q a b :
  Forall domain keys -> (p < q)%nat ->
  sortKeys keys cfg !! p = Some a -> sortKeys keys cfg !! q = Some b ->
  shouldSwap cfg a b = false.
Proof.
  intros Hdom Hpq Ha Hb.
  pose proof (outer_order (List.length keys) 0 keys eq_refl Hdom) as H.
  fold (sortKeys keys cfg) in H.
  apply (H ltac:(intros ? ? ? ? ?; lia) p q a b); try assumption.
  apply lookup_lt_Some in Hb.
  rewrite (Permutation_length (sortKeys_Permutation keys)) in Hb. cbn. lia.
Qed.

End Sorting.

(** *** The order of strings *)

Lemma strGt_asym a b : strGt a b = true -> strGt b a = false.
Proof.
  unfold strGt. rewrite (String.compare_antisym b a).
  now destruct (String.compare a b).
Qed.

Lemma strGt_trans a b c :
  strGt a b = false -> strGt b c = false -> strGt a c = false.
Proof.
  unfold strGt. intros Hab Hbc.
  destruct (String.compare a b) eqn:Eab; [|clear Hab|discriminate].
  - apply String.compare_eq_iff in Eab. now subst.
  - destruct (String.compare b c) eqn:Ebc; [| |discriminate].
    + apply String.compare_eq_iff in Ebc. subst. now rewrite Eab.
    + assert (H : String.compare a c = Lt).
      { apply String_as_OT.cmp_lt. eapply String_as_OT.lt_trans;
          apply String_as_OT.cmp_lt; eassumption. }
      now rewrite H.
Qed.

Lemma strGt_total_eq a b : strGt a b = false -> strGt b a = false -> a = b.
Proof.
  unfold strGt. rewrite (String.compare_antisym b a). intros H1 H2.
  destruct (String.compare a b) eqn:E; cbn in *; try discriminate.
  now apply String.compare_eq_iff.
Qed.

Lemma firstDifferenceGt_asym l1 l2 :
  firstDifferenceGt l1 l2 = true -> firstDifferenceGt l2 l1 = false.
Proof.
  revert l2. induction l1 as [|a l1 IH]; intros [|b l2]; cbn; try discriminate;
    try reflexivity.
  rewrite (String.eqb_sym b a). destruct (String.eqb a b); [apply IH|].
  apply strGt_asym.
Qed.

Lemma firstDifferenceGt_trans l1 l2 l3 :
  List.length l1 = List.length l2 -> List.length l2 = List.length l3 ->
  firstDifferenceGt l1 l2 = false -> firstDifferenceGt l2 l3 = false ->
  firstDifferenceGt l1 l3 = false.
Proof.
  revert l2 l3. induction l1 as [|a l1 IH]; intros [|b l2] [|c l3]; cbn;
    try discriminate; try reflexivity.
  intros H12 H23. injection H12 as H12. injection H23 as H23.
  destruct (String.eqb_spec a b) as [->|Hab].
  - destruct (String.eqb_spec b c) as [->|Hbc]; [now apply IH|]. auto.
  - destruct (String.eqb_spec b c) as [->|Hbc].
    + destruct (String.eqb_spec a c); [contradiction|]. auto.
    + intros Hgt1 Hgt2. destruct (String.eqb_spec a c) as [->|Hac].
      * exfalso. apply Hab. now apply strGt_total_eq.
      * eapply strGt_trans; eassumption.
Qed.

(** [sortKeys] sorts: the result holds the same keys, and no key
    stands before one it compares greater than.  In the hierarchical
    case this needs the keys to split into equally many parts. *)
Theorem sortKeys_sorts keys cfg :
  (Hierarchical cfg = true ->
   exists n, Forall (fun k => List.length (ParseGroupKey cfg k) = n) keys) ->
  Permutation (sortKeys keys cfg) keys /\
  forall p q a b, (p < q)%nat ->
    sortKeys keys cfg !! p = Some a -> sortKeys keys cfg !! q = Some b ->
    shouldSwap cfg a b = false.
Proof.
  intros Hparts. split; [apply sortKeys_Permutation|].
  intros p q a b Hpq Ha Hb.
  destruct (Hierarchical cfg) eqn:Hh.
  - destruct (Hparts eq_refl) as [n Hn].
    apply (sortKeys_order cfg
             (fun k => List.length (ParseGroupKey cfg k) = n)) with keys p q;
      try assumption.
    + intros x y _ _. unfold shouldSwap. rewrite Hh. apply firstDifferenceGt_asym.
    + intros x y z Hx Hy Hz. unfold shouldSwap. rewrite Hh.
      apply firstDifferenceGt_trans; congruence.
  - apply (sortKeys_order cfg (fun _ => True)) with keys p q; try assumption.
    + intros x y _ _. unfold shouldSwap. rewrite Hh. apply strGt_asym.
    + intros x y z _ _ _. unfold shouldSwap. rewrite Hh. apply strGt_trans.
    + now apply Forall_forall.
Qed.

Lemma sortKeys_sorts_witness :
  let keys := ["Wed"; "Sun"; "Mon"; "Tue"]%string in
  Permutation (sortKeys keys weekdayConfig) keys /\
  forall p q a b, (p < q)%nat ->
    sortKeys keys weekdayConfig !! p = Some a ->
    sortKeys keys weekdayConfig !! q = Some b ->
    shouldSwap weekdayConfig a b = false.
Proof.
  apply (sortKeys_sorts ["Wed"; "Sun"; "Mon"; "Tue"]%string weekdayConfig).
  discriminate.
Defined.

(** *** Group keys and labels *)

Lemma JoinWith_Split s c : Strs.JoinWith (String c "") (Strs.Split s c) = s.
Proof.
  induction s as [|d s IH]; [reflexivity|]. cbn [Strs.Split].
  pose proof (StrFacts.Split_nonempty s c) as Hne.
  destruct (Ascii.eqb_spec d c) as [->|Hd].
  - destruct (Strs.Split s c) as [|p ps]; [contradiction|].
    cbn [Strs.JoinWith] in *. now rewrite IH.
  - destruct (Strs.Split s c) as [|p ps]; [contradiction|].
    destruct ps as [|p' ps]; cbn [Strs.JoinWith] in *.
    + now rewrite IH.
    + rewrite StrFacts.append_cons. now rewrite IH.
Qed.

Lemma Split_two a b c :
  Strs.hasByte c a = false -> Strs.hasByte c b = false ->
  Strs.Split (String.append a (String c b)) c = [a; b].
Proof.
  intros Ha Hb. rewrite StrFacts.Split_app_sep by assumption.
  now rewrite StrFacts.Split_no_sep.
Qed.

Lemma orUnknown_no_bar cwd :
  Strs.hasByte bar cwd = false -> Strs.hasByte bar (orUnknown cwd) = false.
Proof. unfold orUnknown. now destruct (String.eqb cwd ""). Qed.

Lemma orNone_no_bar branch :
  Strs.hasByte bar branch = false -> Strs.hasByte bar (orNone branch) = false.
Proof. unfold orNone. now destruct (String.eqb branch ""). Qed.

Lemma getGroupConfig_cases groupBy :
  let cfg := getGroupConfig groupBy in
  cfg = dayConfig \/ cfg = modelConfig \/ cfg = dayModelConfig \/
  cfg = hourConfig \/ cfg = weekdayConfig \/ cfg = cwdConfig \/
  cfg = cwdBranchConfig.
Proof.
  unfold getGroupConfig.
  repeat (destruct (String.eqb groupBy _); [tauto|]). tauto.
Qed.

(** Keys and labels: in every grouping mode the labels of a key,
    joined by ["|"], give the key back; and when no field of the
    record that goes into the key holds a ["|"], the key of the record
    has exactly one label per label column. *)
Theorem group_key_labels groupBy record :
  Strs.hasByte bar (Rec.Timestamp record) = false ->
  Strs.hasByte bar (Rec.PricingKey record) = false ->
  Strs.hasByte bar (Rec.Cwd record) = false ->
  Strs.hasByte bar (Rec.GitBranch record) = false ->
  let cfg := getGroupConfig groupBy in
  (forall key, Strs.JoinWith "|" (ParseGroupKey cfg key) = key) /\
  List.length (ParseGroupKey cfg (BuildGroupKey cfg record))
  = List.length (LabelColumns cfg).
Proof.
  intros Ht Hp Hc Hb cfg.
  destruct (getGroupConfig_cases groupBy) as [E|[E|[E|[E|[E|[E|E]]]]]];
    fold cfg in E; rewrite E; cbn [ParseGroupKey BuildGroupKey LabelColumns
      dayConfig modelConfig dayModelConfig hourConfig weekdayConfig cwdConfig
      cwdBranchConfig single];
    (split; [intros key; try reflexivity; apply JoinWith_Split|]);
    try reflexivity.
  - change (String.append "|" (Rec.PricingKey record))
      with (String bar (Rec.PricingKey record)).
    now rewrite Split_two.
  - change (String.append "|" (orNone (Rec.GitBranch record)))
      with (String bar (orNone (Rec.GitBranch record))).
    now rewrite Split_two by (apply orUnknown_no_bar || apply orNone_no_bar;
                              assumption).
Qed.

Lemma group_key_labels_witness :
  let record := Acc.sample "u" None 1%float 1 "2024-01-05" false "{u}" in
  let cfg := getGroupConfig "day,model" in
  (forall key, Strs.JoinWith "|" (ParseGroupKey cfg key) = key) /\
  List.length (ParseGroupKey cfg (BuildGroupKey cfg record))
  = List.length (LabelColumns cfg).
Proof.
  apply (group_key_labels "day,model"
           (Acc.sample "u" None 1%float 1 "2024-01-05" false "{u}"));
    reflexivity.
Defined.

(** A mode that [getGroupConfig] does not know groups by day. *)
Lemma getGroupConfig_default groupBy :
  ~ In groupBy ["day"; "model"; "day,model"; "hour"; "weekday"; "cwd";
                "cwd,branch"]%string ->
  getGroupConfig groupBy = getGroupConfig "day".
Proof.
  intros H. unfold getGroupConfig at 1.
  repeat match goal with
  | |- context [String.eqb groupBy ?s] =>
      destruct (String.eqb_spec groupBy s) as [->|_];
        [exfalso; apply H; cbn; tauto|]
  end.
  reflexivity.
Qed.

End SortFacts.

(** ** The totals of the table and of the summary *)

Module TotalFacts.

Import GoInt Acc AccView Render.

(** The sum of a list of integers, without wrap-around. *)
Definition sumZ (l : list Z) : Z := List.fold_right Z.add 0 l.

Lemma sumZ_app l1 l2 : sumZ (l1 ++ l2) = sumZ l1 + sumZ l2.
Proof.
  unfold sumZ. induction l1 as [|x l IH]; cbn; [reflexivity|]. rewrite IH. lia.
Qed.

Lemma sumZ_perm l1 l2 : Permutation l1 l2 -> sumZ l1 = sumZ l2.
Proof. unfold sumZ. induction 1; cbn; lia. Qed.











Section Field.

(** One of the four token counts. *)
Variable f : Met.Metrics -> Z.
Hypothesis f_add : forall a b, f (Met.addMetrics a b) = add (f a) (f b).
Hypothesis f_zero : f Met.zero = 0.



Variable key : Rec.CostRecord -> string.



End Field.

Section Run.

Variable BuildGroupKey : Rec.CostRecord -> string.
Variable rangeMap : gmap string Rec.CostRecord -> list Rec.CostRecord.











End Run.



End TotalFacts.

(** ** The heat map *)

Module HeatFacts.

Import Heat F64Facts.
Local Open Scope float_scope.

(** [calculateIntensity] never leaves the interval from 0 to 1: the
    result is neither below 0 nor above 1, whatever the arguments (a
    NaN that comes out of the division is returned as it is), and it is
    0 when [max == min]. *)
Theorem calculateIntensity_clamped value min max :
  (calculateIntensity value min max <? 0) = false /\
  (1 <? calculateIntensity value min max) = false /\
  ((max =? min) = true -> calculateIntensity value min max = 0).
Proof.
  unfold calculateIntensity.
  destruct (max =? min); [repeat split; reflexivity|].
  destruct ((value - min) / (max - min) <? 0) eqn:Hlo;
    [repeat split; try reflexivity; discriminate|].
  destruct (1 <? (value - min) / (max - min)) eqn:Hhi;
    [repeat split; try reflexivity; discriminate|].
  repeat split; try assumption. discriminate.
Qed.

(** *** The order of float64 values that are not NaN *)

Lemma not_lt_trans x y z :
  isNumber y = true ->
  (y <? x) = false -> (z <? y) = false -> isNumber x = true -> isNumber z = true ->
  (z <? x) = false.
Proof.
  unfold isNumber. intros Hy Hxy Hyz Hx Hz. order_facts.
  destruct Hy as (Ny & _ & _), Hx as (Nx & _ & _), Hz as (Nz & _ & _).
  destruct H as (_ & _ & H).
  assert (Hxy' : ~ lexlt (rank (Prim2SF y)) (rank (Prim2SF x))) by tauto.
  assert (Hyz' : ~ lexlt (rank (Prim2SF z)) (rank (Prim2SF y))) by tauto.
  unfold lexlt in *. lia.
Qed.

Lemma lt_not_lt_trans x y z :
  (x <? y) = true -> (z <? y) = false -> isNumber z = true -> (z <? x) = false.
Proof.
  unfold isNumber. intros Hxy Hzy Hz. order_facts.
  destruct Hxy as (Nx & Ny & Hxy), Hz as (Nz & _ & _), H as (_ & _ & H).
  assert (Hzy' : ~ lexlt (rank (Prim2SF z)) (rank (Prim2SF y))) by tauto.
  unfold lexlt in *. lia.
Qed.

Lemma not_lt_lt_trans x y z :
  (y <? x) = true -> (y <? z) = false -> isNumber z = true -> (x <? z) = false.
Proof.
  unfold isNumber. intros Hyx Hyz Hz. order_facts.
  destruct Hyx as (Ny & Nx & Hyx), Hz as (Nz & _ & _), H as (_ & _ & H).
  assert (Hyz' : ~ lexlt (rank (Prim2SF y)) (rank (Prim2SF z))) by tauto.
  unfold lexlt in *. lia.
Qed.

Lemma lt_irrefl x : (x <? x) = false.
Proof. order_facts. unfold lexlt in *. intuition lia. Qed.

Section Column.

(** The amount of a row in one column. *)
Variable f : Met.Metrics -> float.

Definition lows (ms : list Met.Metrics) (a : float) : float :=
  List.fold_left (fun a m => lower (f m) a) ms a.

Definition highs (ms : list Met.Metrics) (a : float) : float :=
  List.fold_left (fun a m => raise (f m) a) ms a.

Lemma lows_spec ms a :
  Forall (fun m => isNumber (f m) = true) ms -> isNumber a = true ->
  isNumber (lows ms a) = true /\
  (a <? lows ms a) = false /\
  (forall m, In m ms -> (f m <? lows ms a) = false) /\
  (lows ms a = a \/ exists m, In m ms /\ lows ms a = f m).
Proof.
  unfold lows. revert a. induction ms as [|x ms IH]; intros a Hms Ha.
  - cbn. repeat split; [assumption|apply lt_irrefl|intros m []|now left].
  - inversion Hms as [|? ? Hx Hrest]; subst. cbn [List.fold_left].
    assert (Hn : isNumber (lower (f x) a) = true)
      by (unfold lower; now destruct (f x <? a)).
    destruct (IH (lower (f x) a) Hrest Hn) as (Hr & Hle & Hall & Hatt).
    set (r := List.fold_left _ ms _) in *.
    assert (Hxa : (a <? lower (f x) a) = false /\ (f x <? lower (f x) a) = false).
    { unfold lower. destruct (f x <? a) eqn:E.
      - split; [|apply lt_irrefl]. apply (not_lt_lt_trans _ (f x)); try assumption.
        apply lt_irrefl.
      - split; [apply lt_irrefl|assumption]. }
    destruct Hxa as [Ha' Hx'].
    split; [exact Hr|]. split; [|split].
    + apply (not_lt_trans _ (lower (f x) a)); assumption.
    + intros m [<-|Hm]; [|now apply Hall].
      apply (not_lt_trans _ (lower (f x) a)); assumption.
    + destruct Hatt as [E|(m & Hm & E)].
      * unfold lower in E. destruct (f x <? a); [right; exists x|left];
          [split; [now left|exact E]|exact E].
      * right. exists m. split; [now right|exact E].
Qed.

Lemma highs_spec ms a :
  Forall (fun m => isNumber (f m) = true) ms -> isNumber a = true ->
  isNumber (highs ms a) = true /\
  (highs ms a <? a) = false /\
  (forall m, In m ms -> (highs ms a <? f m) = false) /\
  (highs ms a = a \/ exists m, In m ms /\ highs ms a = f m).
Proof.
  unfold highs. revert a. induction ms as [|x ms IH]; intros a Hms Ha.
  - cbn. repeat split; [assumption|apply lt_irrefl|intros m []|now left].
  - inversion Hms as [|? ? Hx Hrest]; subst. cbn [List.fold_left].
    assert (Hn : isNumber (raise (f x) a) = true)
      by (unfold raise; now destruct (a <? f x)).
    destruct (IH (raise (f x) a) Hrest Hn) as (Hr & Hle & Hall & Hatt).
    set (r := List.fold_left _ ms _) in *.
    assert (Hxa : (raise (f x) a <? a) = false /\ (raise (f x) a <? f x) = false).
    { unfold raise. destruct (a <? f x) eqn:E.
      - split; [|apply lt_irrefl]. apply (lt_not_lt_trans _ (f x)); try assumption.
        apply lt_irrefl.
      - split; [apply lt_irrefl|assumption]. }
    destruct Hxa as [Ha' Hx'].
    split; [exact Hr|]. split; [|split].
    + apply (not_lt_trans _ (raise (f x) a)); assumption.
    + intros m [<-|Hm]; [|now apply Hall].
      apply (not_lt_trans _ (raise (f x) a)); assumption.
    + destruct Hatt as [E|(m & Hm & E)].
      * unfold raise in E. destruct (a <? f x); [right; exists x|left];
          [split; [now left|exact E]|exact E].
      * right. exists m. split; [now right|exact E].
Qed.

End Column.

Lemma widen_columns f lo hi ms h :
  In (f, lo, hi) columns ->
  lo (List.fold_left widen ms h) = lows f ms (lo h) /\
  hi (List.fold_left widen ms h) = highs f ms (hi h).
Proof.
  intros Hcol. unfold lows, highs. revert h.
  induction ms as [|m ms IH]; intros h; [now split|].
  cbn [List.fold_left]. destruct (IH (widen h m)) as [Hlo Hhi].
  rewrite Hlo, Hhi.
  unfold columns in Hcol. cbn [In] in Hcol.
  repeat (destruct Hcol as [Hcol|Hcol]; [injection Hcol as <- <- <-; now split|]).
  contradiction.
Qed.

Lemma first_column f lo hi first :
  In (f, lo, hi) columns ->
  let h := mkHeatmapData
             (Met.InputCost first) (Met.InputCost first)
             (Met.OutputCost first) (Met.OutputCost first)
             (Met.CacheReadCost first) (Met.CacheReadCost first)
             (Met.CacheWriteCost first) (Met.CacheWriteCost first)
             (Met.Cost first) (Met.Cost first) in
  lo h = f first /\ hi h = f first.
Proof.
  intros Hcol h. unfold columns in Hcol. cbn [In] in Hcol.
  repeat (destruct Hcol as [Hcol|Hcol]; [injection Hcol as <- <- <-; now split|]).
  contradiction.
Qed.

(** The bounds of the heat map: when no amount is a NaN, in each of
    the five columns no row is below the minimum or above the maximum,
    and both bounds are the amounts of rows. *)
Theorem heatmap_bounds metrics f lo hi :
  In (f, lo, hi) columns ->
  Forall (fun m => isNumber (f m) = true) metrics ->
  let heatmap := calculateHeatmapData metrics in
  (forall m, In m metrics ->
     (f m <? lo heatmap) = false /\ (hi heatmap <? f m) = false) /\
  (metrics <> [] ->
     (exists m, In m metrics /\ lo heatmap = f m) /\
     (exists m, In m metrics /\ hi heatmap = f m)).
Proof.
  intros Hcol Hnum heatmap. subst heatmap. unfold calculateHeatmapData.
  destruct metrics as [|first rest]; [split; [intros m []|intros H; contradiction]|].
  set (ms := first :: rest) in *.
  destruct (first_column f lo hi first Hcol) as [Elo Ehi]. cbv zeta in Elo, Ehi.
  match goal with
  | |- context [List.fold_left widen ms ?h] =>
      destruct (widen_columns f lo hi ms h Hcol) as [Hlo Hhi]
  end.
  rewrite Hlo, Hhi, Elo, Ehi.
  assert (Hfirst : isNumber (f first) = true) by now inversion Hnum.
  destruct (lows_spec f ms (f first) Hnum Hfirst) as (_ & _ & Hall & Hatt).
  destruct (highs_spec f ms (f first) Hnum Hfirst) as (_ & _ & Hall' & Hatt').
  split.
  - intros m Hm. split; [now apply Hall|now apply Hall'].
  - intros _. split.
    + destruct Hatt as [E|(m & Hm & E)]; [exists first|exists m];
        (split; [|exact E]); [now left|exact Hm].
    + destruct Hatt' as [E|(m & Hm & E)]; [exists first|exists m];
        (split; [|exact E]); [now left|exact Hm].
Qed.

Lemma heatmap_bounds_witness :
  let metrics := [Met.ofCost 2; Met.ofCost 1; Met.ofCost 3] in
  let heatmap := calculateHeatmapData metrics in
  (forall m, In m metrics ->
     (Met.Cost m <? MinTotal heatmap) = false /\
     (MaxTotal heatmap <? Met.Cost m) = false) /\
  (metrics <> [] ->
     (exists m, In m metrics /\ MinTotal heatmap = Met.Cost m) /\
     (exists m, In m metrics /\ MaxTotal heatmap = Met.Cost m)).
Proof.
  apply (heatmap_bounds [Met.ofCost 2; Met.ofCost 1; Met.ofCost 3]
           Met.Cost MinTotal MaxTotal).
  - unfold columns. cbn. tauto.
  - repeat constructor.
Defined.

End HeatFacts.

(** ** Pricing *)

Module PricingFacts.

Import Pricing.
Local Open Scope string_scope.
Local Open Scope Z_scope.

Lemma pricingOf_known key :
  In key knownKeys -> modelPricing key = Some (pricingOf key).
Proof.
  unfold knownKeys. cbn [In].
  intros [<-|[<-|[<-|[<-|[<-|[<-|[<-|[]]]]]]]]; reflexivity.
Qed.

Section Lower.

Variable ToLower : string -> string.

(** The model names no family the table knows. *)
Definition noFamily (model : string) : Prop :=
  Contains (ToLower model) "opus" = false /\
  Contains (ToLower model) "sonnet" = false /\
  Contains (ToLower model) "haiku" = false.

Lemma GetModelPricing_cases model usage :
  (exists key, GetModelPricing ToLower model usage = (pricingOf key, key, true)
               /\ In key knownKeys /\ ~ noFamily model) \/
  (GetModelPricing ToLower model usage = (noPricing, "", false) /\ noFamily model).
Proof.
  unfold GetModelPricing, noFamily, knownKeys.
  destruct (Contains (ToLower model) "opus") eqn:Ho.
  { left. destruct (_ || _); eexists; (split; [reflexivity|]);
      (split; [cbn; tauto|intros (H & _); discriminate H]). }
  destruct (Contains (ToLower model) "sonnet") eqn:Hs.
  { left. destruct usage as [u|]; [destruct (_ && _)|]; eexists;
      (split; [reflexivity|]);
      (split; [cbn; tauto|intros (_ & H & _); discriminate H]). }
  destruct (Contains (ToLower model) "haiku") eqn:Hh.
  { left. destruct (_ || _); [|destruct (_ || _)]; eexists;
      (split; [reflexivity|]);
      (split; [cbn; tauto|intros (_ & _ & H); discriminate H]). }
  right. repeat split.
Qed.

(** The answer of [GetModelPricing] is the entry of the table under the
    key it reports, a key of the table, with [ok] set; or else the zero
    pricing under the empty key, with [ok] unset, and that exactly when
    the lowered model name holds none of ["opus"], ["sonnet"] and
    ["haiku"]. *)
Theorem GetModelPricing_reports_table_entry model usage :
  let '(pricing, key, ok) := GetModelPricing ToLower model usage in
  (ok = true <-> ~ noFamily model) /\
  (ok = true -> In key knownKeys /\ modelPricing key = Some pricing) /\
  (ok = false -> key = "" /\ pricing = noPricing /\ modelPricing key = None).
Proof.
  destruct (GetModelPricing_cases model usage) as [(key & -> & Hk & Hn)|[-> Hn]].
  - split; [tauto|]. split; [|discriminate]. intros _. split; [exact Hk|].
    now apply pricingOf_known.
  - split; [split; [discriminate|tauto]|]. split; [discriminate|]. now intros _.
Qed.

(** The long-context price is chosen only for a model of the sonnet
    family whose lowered name holds ["sonnet-4"] or ["sonnet_4"] and not
    ["opus"], and only when the input tokens, the cache creation input
    tokens and the cache read input tokens together exceed 200000. *)
Theorem long_context_choice model usage :
  snd (fst (GetModelPricing ToLower model usage)) = "sonnet-longcontext" <->
  Contains (ToLower model) "opus" = false /\
  (Contains (ToLower model) "sonnet-4" || Contains (ToLower model) "sonnet_4") = true /\
  Contains (ToLower model) "sonnet" = true /\
  exists u, usage = Some u /\
    200000 < GoInt.add (GoInt.add (InputTokens u) (CacheCreationInputTokens u))
               (CacheReadInputTokens u).
Proof.
  unfold GetModelPricing, isSonnet4.
  destruct (Contains (ToLower model) "opus").
  { destruct (_ || _); cbn; split; try discriminate; intros (H & _); discriminate H. }
  destruct (Contains (ToLower model) "sonnet"); cbn [negb].
  - destruct usage as [u|].
    + destruct (Contains (ToLower model) "sonnet-4" || Contains (ToLower model) "sonnet_4");
        cbn [andb].
      * destruct (Z.ltb_spec 200000
                    (GoInt.add (GoInt.add (InputTokens u) (CacheCreationInputTokens u))
                       (CacheReadInputTokens u))) as [Hlt|Hle]; cbn.
        -- split; [|reflexivity]. intros _. repeat split. now exists u.
        -- split; [discriminate|]. intros (_ & _ & _ & u' & E & Hlt).
           injection E as <-. lia.
      * cbn. split; [discriminate|]. intros (_ & H & _). discriminate H.
    + cbn. split; [discriminate|]. intros (_ & _ & _ & u & E & _). discriminate E.
  - destruct (Contains (ToLower model) "haiku").
    + destruct (_ || _); [|destruct (_ || _)]; cbn; split; try discriminate;
        intros (_ & _ & H & _); discriminate H.
    + cbn. split; [discriminate|]. intros (_ & _ & H & _). discriminate H.
Qed.

Lemma knownKeys_nonempty key : In key knownKeys -> key <> "".
Proof.
  unfold knownKeys. cbn [In].
  intros [<-|[<-|[<-|[<-|[<-|[<-|[<-|[]]]]]]]]; discriminate.
Qed.

(** What [CalculateCost] does with a message it can price. *)
Lemma CalculateCost_priced m usage model key :
  Usage m = Some usage -> Model m = Some model ->
  GetModelPricing ToLower model (Some usage) = (pricingOf key, key, true) ->
  let c := CalculateCost ToLower (Some m) in
  pricingKey c = key /\
  inputTokens c = InputTokens usage /\ outputTokens c = OutputTokens usage /\
  cacheReadTokens c = CacheReadInputTokens usage /\
  cacheWriteTokens c =
    match CacheCreation usage with
    | Some cc => GoInt.add (Ephemeral5mInputTokens cc) (Ephemeral1hInputTokens cc)
    | None => 0
    end /\
  inputCost c = costOf (InputTokens usage) (Input (pricingOf key)) /\
  outputCost c = costOf (OutputTokens usage) (Output (pricingOf key)) /\
  cacheReadCost c = costOf (CacheReadInputTokens usage) (CacheRead (pricingOf key)) /\
  cacheWriteCost c =
    match CacheCreation usage with
    | Some cc =>
        (0 + costOf (Ephemeral5mInputTokens cc) (Cache5mWrite (pricingOf key))
         + costOf (Ephemeral1hInputTokens cc) (Cache1hWrite (pricingOf key)))%float
    | None => 0%float
    end /\
  cost c = (inputCost c + cacheWriteCost c + cacheReadCost c + outputCost c)%float.
Proof.
  intros Hu Hm Hg. unfold CalculateCost. rewrite Hu, Hm, Hg. cbn [negb].
  destruct (CacheCreation usage) as [cc|]; cbn; repeat split.
Qed.

(** The message is one [CalculateCost] can price. *)
Definition priceable (msg : option Message) : Prop :=
  exists m usage model,
    msg = Some m /\ Usage m = Some usage /\ Model m = Some model /\ ~ noFamily model.

Lemma CalculateCost_cases msg :
  (exists m usage model key,
     msg = Some m /\ Usage m = Some usage /\ Model m = Some model /\
     ~ noFamily model /\ In key knownKeys /\
     GetModelPricing ToLower model (Some usage) = (pricingOf key, key, true)) \/
  (~ priceable msg /\ CalculateCost ToLower msg = noCost).
Proof.
  destruct msg as [m|]; [|right; split; [intros (? & ? & ? & E & _); discriminate E|reflexivity]].
  destruct (Usage m) as [usage|] eqn:Hu.
  2:{ right. split.
      - intros (m' & ? & ? & E & Hu' & _). injection E as <-. congruence.
      - unfold CalculateCost. now rewrite Hu. }
  destruct (Model m) as [model|] eqn:Hm.
  2:{ right. split.
      - intros (m' & ? & ? & E & _ & Hm' & _). injection E as <-. congruence.
      - unfold CalculateCost. now rewrite Hu, Hm. }
  destruct (GetModelPricing_cases model (Some usage)) as [(key & Hg & Hk & Hn)|[Hg Hn]].
  - left. exists m, usage, model, key. tauto.
  - right. split.
    + intros (m' & u' & model' & E & Hu' & Hm' & Hn'). injection E as <-.
      rewrite Hu in Hu'. rewrite Hm in Hm'. injection Hu' as <-. injection Hm' as <-.
      contradiction.
    + unfold CalculateCost. now rewrite Hu, Hm, Hg.
Qed.

(** [CalculateCost] reports an empty pricing key exactly for a message
    it cannot price: a nil message, one without usage or without model,
    or one whose model names no family of the table.  It then reports
    zero for every number; otherwise the key is one of the table. *)
Theorem CalculateCost_empty_key msg :
  (pricingKey (CalculateCost ToLower msg) = "" <-> ~ priceable msg) /\
  (~ priceable msg -> CalculateCost ToLower msg = noCost) /\
  (priceable msg -> In (pricingKey (CalculateCost ToLower msg)) knownKeys).
Proof.
  destruct (CalculateCost_cases msg)
    as [(m & usage & model & key & -> & Hu & Hm & Hn & Hk & Hg)|[Hn ->]].
  - destruct (CalculateCost_priced m usage model key Hu Hm Hg) as (-> & _).
    assert (Hp : priceable (Some m)) by (exists m, usage, model; tauto).
    pose proof (knownKeys_nonempty key Hk). repeat split; tauto.
  - cbn. repeat split; tauto.
Qed.

(** The numbers of a priced message: the token counts are those of the
    usage; the cache write tokens and their cost come from the
    [CacheCreation] record alone, and are zero without it whatever
    [CacheCreationInputTokens] says; each cost is the token count over a
    million times the rate the table gives under the reported key. *)
Theorem CalculateCost_uses_reported_key m usage model :
  Usage m = Some usage -> Model m = Some model -> ~ noFamily model ->
  let c := CalculateCost ToLower (Some m) in
  let pricing := pricingOf (pricingKey c) in
  modelPricing (pricingKey c) = Some pricing /\
  inputTokens c = InputTokens usage /\ outputTokens c = OutputTokens usage /\
  cacheReadTokens c = CacheReadInputTokens usage /\
  inputCost c = costOf (InputTokens usage) (Input pricing) /\
  outputCost c = costOf (OutputTokens usage) (Output pricing) /\
  cacheReadCost c = costOf (CacheReadInputTokens usage) (CacheRead pricing) /\
  match CacheCreation usage with
  | Some cc =>
      cacheWriteTokens c
      = GoInt.add (Ephemeral5mInputTokens cc) (Ephemeral1hInputTokens cc) /\
      cacheWriteCost c
      = (0 + costOf (Ephemeral5mInputTokens cc) (Cache5mWrite pricing)
         + costOf (Ephemeral1hInputTokens cc) (Cache1hWrite pricing))%float
  | None => cacheWriteTokens c = 0 /\ cacheWriteCost c = 0%float
  end.
Proof.
  intros Hu Hm Hn.
  destruct (GetModelPricing_cases model (Some usage)) as [(key & Hg & Hk & _)|[_ Hn']];
    [|contradiction].
  destruct (CalculateCost_priced m usage model key Hu Hm Hg)
    as (Ek & E1 & E2 & E3 & E4 & E5 & E6 & E7 & E8 & _).
  cbv zeta. rewrite Ek.
  split; [now apply pricingOf_known|].
  repeat (split; [assumption|]).
  destruct (CacheCreation usage); now split.
Qed.

End Lower.

Lemma CalculateCost_uses_reported_key_witness :
  let c := CalculateCost Sample.asciiLower (Some Sample.sonnetMessage) in
  let pricing := pricingOf (pricingKey c) in
  modelPricing (pricingKey c) = Some pricing /\
  inputTokens c = 150000 /\ outputTokens c = 500 /\ cacheReadTokens c = 10 /\
  inputCost c = costOf 150000 (Input pricing) /\
  outputCost c = costOf 500 (Output pricing) /\
  cacheReadCost c = costOf 10 (CacheRead pricing) /\
  cacheWriteTokens c = 0 /\ cacheWriteCost c = 0%float.
Proof.
  apply (CalculateCost_uses_reported_key Sample.asciiLower Sample.sonnetMessage
           Sample.longUsage "claude-Sonnet-4-5"); [reflexivity|reflexivity|].
  intros (_ & H & _). vm_compute in H. discriminate H.
Defined.

End PricingFacts.

(** ** The line workers *)

Module WorkerFacts.

Import GoTime Strs Pricing Worker Group.
Local Open Scope string_scope.
Local Open Scope Z_scope.


Lemma Hour_range t : 0 <= Hour t <= 23.
Proof.
  unfold Hour, Clock_of, secondsPerDay.
  pose proof (Z.mod_pos_bound (wallSec t) 86400 ltac:(lia)).
  split; [apply Z.div_pos; lia|]. apply Z.lt_succ_r, Z.div_lt_upper_bound; lia.
Qed.

Lemma Weekday_range t : 0 <= Weekday t <= 6.
Proof.
  unfold Weekday. pose proof (Z.mod_pos_bound (wallSec t / secondsPerDay + 4) 7). lia.
Qed.


Lemma appendInt_no_bar x width : hasByte bar (appendInt x width) = false.
Proof.
  unfold appendInt.
  assert (H : hasByte bar
                (String.append (zeros (width - String.length (formatUint (Z.abs x))))
                   (formatUint (Z.abs x))) = false).
  { apply DigitFacts.allDigits_no_byte; [discriminate|].
    rewrite DigitFacts.allDigits_app, DayFileFacts.zeros_digits.
    apply DayFileFacts.formatUint_digits. lia. }
  destruct (x <? 0); [cbn [hasByte]; now rewrite H|exact H].
Qed.

Lemma FormatDate_no_bar t : hasByte bar (FormatDate t) = false.
Proof.
  unfold FormatDate. destruct (Date_of t) as [[y m] d].
  repeat (rewrite DigitFacts.hasByte_app || cbn [hasByte]).
  now rewrite !appendInt_no_bar.
Qed.

Lemma knownKeys_no_bar key : In key knownKeys -> hasByte bar key = false.
Proof.
  unfold knownKeys. cbn [In].
  intros [<-|[<-|[<-|[<-|[<-|[<-|[<-|[]]]]]]]]; reflexivity.
Qed.

Section Worker.

Variable decode : string -> option ConversationEntry.
Variable ToLower : string -> string.
Variable local : Location.

Local Abbreviation lineWorker := (Worker.lineWorker decode ToLower local).

(** The record a line worker makes of an entry it can price. *)
Definition recordOf (work : Pipeline.LineWork) (entry : ConversationEntry)
    (r : Rec.CostRecord) : Prop :=
  let c := CalculateCost ToLower (Some (Message entry)) in
  let t := In_ (Timestamp entry) local in
  Rec.UUID r = UUID entry /\ Rec.RequestID r = RequestID entry /\
  Rec.PricingKey r = pricingKey c /\ In (Rec.PricingKey r) knownKeys /\
  Rec.Cost r = cost c /\
  Rec.InputTokens r = inputTokens c /\ Rec.OutputTokens r = outputTokens c /\
  Rec.CacheReadTokens r = cacheReadTokens c /\
  Rec.CacheWriteTokens r = cacheWriteTokens c /\
  Rec.FullTimestamp r = t /\ Rec.Timestamp r = FormatDate t /\
  Rec.Hour r = Hour t /\ Rec.Weekday r = weekdayShort (Weekday t) /\
  Rec.Cwd r = CWD entry /\ Rec.GitBranch r = GitBranch entry /\
  Rec.FromHistory r = Pipeline.LineFromHistory work /\
  Rec.RawLine r = Pipeline.Line work.

Lemma lineWorker_cases work :
  (exists entry r,
     decode (Pipeline.Line work) = Some entry /\
     PricingFacts.priceable ToLower (Some (Message entry)) /\
     lineWorker work = Some r /\ recordOf work entry r) \/
  (lineWorker work = None /\
   forall entry, decode (Pipeline.Line work) = Some entry ->
     ~ PricingFacts.priceable ToLower (Some (Message entry))).
Proof.
  unfold Worker.lineWorker.
  destruct (decode (Pipeline.Line work)) as [entry|]; [|right; split; [reflexivity|discriminate]].
  destruct (PricingFacts.CalculateCost_cases ToLower (Some (Message entry)))
    as [(m & usage & model & key & E & Hu & Hm & Hn & Hk & Hg)|[Hn Hc]].
  - injection E as <-.
    destruct (PricingFacts.CalculateCost_priced ToLower _ usage model key Hu Hm Hg)
      as (Ek & _).
    cbv zeta in Ek. left.
    pose proof (PricingFacts.knownKeys_nonempty key Hk) as Hne.
    rewrite Ek. destruct (String.eqb_spec key ""); [contradiction|].
    eexists entry, _. split; [reflexivity|]. split.
    { exists (Message entry), usage, model. tauto. }
    split; [reflexivity|]. unfold recordOf. cbv zeta.
    cbn -[CalculateCost FormatDate Hour Weekday weekdayShort In_ knownKeys In].
    rewrite Ek. repeat split. exact Hk.
  - right. rewrite Hc. cbn. split; [reflexivity|]. now intros e [= <-].
Qed.


(** The keys of the records of the line workers, in the modes by day
    and by model: the key by day and model splits into the day and the
    model of the record, whatever they are, and in each of these modes
    the key has one label a label column. *)
Theorem worker_keys_split work r groupBy :
  lineWorker work = Some r ->
  groupBy <> "cwd" -> groupBy <> "cwd,branch" ->
  let cfg := getGroupConfig groupBy in
  ParseGroupKey dayModelConfig (BuildGroupKey dayModelConfig r)
  = [Rec.Timestamp r; Rec.PricingKey r] /\
  List.length (ParseGroupKey cfg (BuildGroupKey cfg r))
  = List.length (LabelColumns cfg).
Proof.
  intros Hw Hc Hcb cfg.
  destruct (lineWorker_cases work) as [(entry & r' & Hd & Hp & E & Hr)|[E _]];
    rewrite E in Hw; [|discriminate]. injection Hw as ->.
  destruct Hr as (_&_&_& Hk &_&_&_&_&_&_& Ht &_).
  assert (Hsplit : ParseGroupKey dayModelConfig (BuildGroupKey dayModelConfig r)
                   = [Rec.Timestamp r; Rec.PricingKey r]).
  { cbn [ParseGroupKey BuildGroupKey dayModelConfig].
    apply (SortFacts.Split_two _ _ bar).
    - rewrite Ht. apply FormatDate_no_bar.
    - now apply knownKeys_no_bar. }
  split; [exact Hsplit|].
  subst cfg. unfold getGroupConfig.
  destruct (String.eqb_spec groupBy "cwd"); [contradiction|].
  destruct (String.eqb_spec groupBy "cwd,branch"); [contradiction|].
  repeat (destruct (String.eqb groupBy _); [try reflexivity; now rewrite Hsplit|]).
  reflexivity.
Qed.

(** Monday first: the place of weekday [d] (Sunday being 0) in a
    week that starts on Monday. *)
Definition mondayFirst (d : Z) : Z := (d + 6) mod 7.

Definition hours : list Z := List.map Z.of_nat (List.seq 0 24).

Definition days : list Z := List.map Z.of_nat (List.seq 0 7).

Lemma in_range n x : 0 <= x < Z.of_nat n -> In x (List.map Z.of_nat (List.seq 0 n)).
Proof.
  intros Hx. apply List.in_map_iff. exists (Z.to_nat x).
  split; [lia|]. apply List.in_seq. lia.
Qed.

Lemma hour_keys_checked :
  forallb (fun a => forallb (fun b =>
    Bool.eqb (strGt (Sprintf02d a ++ ":00") (Sprintf02d b ++ ":00")) (b <? a))
    hours) hours = true.
Proof. vm_compute. reflexivity. Qed.

Lemma hour_key_order a b :
  0 <= a <= 23 -> 0 <= b <= 23 ->
  strGt (Sprintf02d a ++ ":00") (Sprintf02d b ++ ":00") = (b <? a).
Proof.
  intros Ha Hb. pose proof hour_keys_checked as H.
  rewrite List.forallb_forall in H.
  specialize (H a (in_range 24 a ltac:(lia))).
  rewrite List.forallb_forall in H.
  specialize (H b (in_range 24 b ltac:(lia))).
  now apply Bool.eqb_prop in H.
Qed.

Definition weekdayKey (key : string) : string :=
  match weekdayOrder key with Some o => o | None => key end.

Lemma weekday_keys_checked :
  forallb (fun a => forallb (fun b =>
    Bool.eqb (strGt (weekdayKey (weekdayShort a)) (weekdayKey (weekdayShort b)))
      (mondayFirst b <? mondayFirst a))
    days) days = true.
Proof. vm_compute. reflexivity. Qed.

Lemma weekday_key_order a b :
  0 <= a <= 6 -> 0 <= b <= 6 ->
  strGt (weekdayKey (weekdayShort a)) (weekdayKey (weekdayShort b))
  = (mondayFirst b <? mondayFirst a).
Proof.
  intros Ha Hb. pose proof weekday_keys_checked as H.
  rewrite List.forallb_forall in H.
  specialize (H a (in_range 7 a ltac:(lia))).
  rewrite List.forallb_forall in H.
  specialize (H b (in_range 7 b ltac:(lia))).
  now apply Bool.eqb_prop in H.
Qed.

(** The keys by hour and by weekday of the records of the line workers
    sort as the hours and the days do: [sortKeys] exchanges two hour
    keys exactly when the first hour is the later one, and two weekday
    keys exactly when the first day comes later in a week that starts
    on Monday. *)
Theorem hour_and_weekday_keys_sort_in_time_order work1 work2 r1 r2 :
  lineWorker work1 = Some r1 -> lineWorker work2 = Some r2 ->
  let hour := getGroupConfig "hour" in
  let weekday := getGroupConfig "weekday" in
  shouldSwap hour (BuildGroupKey hour r1) (BuildGroupKey hour r2)
  = (Hour (Rec.FullTimestamp r2) <? Hour (Rec.FullTimestamp r1)) /\
  shouldSwap weekday (BuildGroupKey weekday r1) (BuildGroupKey weekday r2)
  = (mondayFirst (Weekday (Rec.FullTimestamp r2))
     <? mondayFirst (Weekday (Rec.FullTimestamp r1))).
Proof.
  intros H1 H2.
  destruct (lineWorker_cases work1) as [(e1 & r1' & _ & _ & E1 & Hr1)|[E1 _]];
    rewrite E1 in H1; [|discriminate]. injection H1 as ->.
  destruct (lineWorker_cases work2) as [(e2 & r2' & _ & _ & E2 & Hr2)|[E2 _]];
    rewrite E2 in H2; [|discriminate]. injection H2 as ->.
  destruct Hr1 as (_&_&_&_&_&_&_&_&_& Ht1 &_& Hh1 & Hw1 &_).
  destruct Hr2 as (_&_&_&_&_&_&_&_&_& Ht2 &_& Hh2 & Hw2 &_).
  cbv zeta. split.
  - change (getGroupConfig "hour") with hourConfig.
    unfold shouldSwap, getSortKey. cbn [Hierarchical SortKey hourConfig BuildGroupKey].
    rewrite Hh1, Hh2, Ht1, Ht2. apply hour_key_order; apply Hour_range.
  - change (getGroupConfig "weekday") with weekdayConfig.
    unfold shouldSwap, getSortKey. cbn [Hierarchical SortKey weekdayConfig BuildGroupKey].
    rewrite Hw1, Hw2, Ht1, Ht2. apply weekday_key_order; apply Weekday_range.
Qed.

Section Run.

Variable linesOf : string -> list string.
Variable lineCap costCap : nat.
Variable files : list Pipeline.FileWork.
Variable nReaders nParsers : nat.

Lemma in_expected parse r :
  In r (Pipeline.expected linesOf parse files) ->
  exists f line,
    In f files /\ In line (linesOf (Pipeline.Path f)) /\
    parse (Pipeline.mkLineWork line (Pipeline.FileFromHistory f)) = Some r.
Proof.
  unfold Pipeline.expected, Pipeline.recordsOfLines, Pipeline.worksOf.
  intros H. apply List.in_concat in H as (rs & Hrs & Hr).
  apply List.in_map_iff in Hrs as (f & <- & Hf).
  apply list_elem_of_In, list_elem_of_omap in Hr as (w & Hw & Hp).
  apply list_elem_of_In, List.in_map_iff in Hw as (line & <- & Hline).
  now exists f, line.
Qed.

(** Whatever the interleaving, every record the accumulator has
    received, at any moment of the run, was made by a line worker from a
    line of one of the files of the run: it carries that line and the
    history flag of the file, and a pricing key of the table.  No record
    of an entry that cannot be priced reaches the accumulator. *)
Theorem accumulator_receives_only_priced_lines schedule r :
  let s := Pipeline.exec linesOf lineWorker lineCap costCap schedule
             (Pipeline.start files nReaders nParsers) in
  In r (Pipeline.received s) ->
  exists f line entry,
    In f files /\ In line (linesOf (Pipeline.Path f)) /\
    decode line = Some entry /\
    PricingFacts.priceable ToLower (Some (Message entry)) /\
    Rec.RawLine r = line /\
    Rec.FromHistory r = Pipeline.FileFromHistory f /\
    In (Rec.PricingKey r) knownKeys.
Proof.
  intros s Hr.
  pose proof (PipelineFacts.Inv_reachable linesOf lineWorker lineCap costCap
                files nReaders nParsers schedule) as HI.
  fold s in HI.
  pose proof (Pipeline.inv_inFlight _ _ _ _ _ _ HI) as Hperm.
  assert (Hin : In r (Pipeline.inFlight linesOf lineWorker s)).
  { unfold Pipeline.inFlight. apply List.in_or_app. now left. }
  apply (Permutation_in _ Hperm) in Hin.
  apply in_expected in Hin as (f & line & Hf & Hline & Hw).
  destruct (lineWorker_cases (Pipeline.mkLineWork line (Pipeline.FileFromHistory f)))
    as [(entry & r' & Hd & Hp & E & Hrec)|[E _]]; rewrite E in Hw; [|discriminate].
  injection Hw as ->.
  destruct Hrec as (_&_&_& Hk &_&_&_&_&_&_&_&_&_&_&_& Hfh & Hraw).
  exists f, line, entry. cbn in Hd, Hfh, Hraw. tauto.
Qed.

End Run.

End Worker.

Lemma worker_keys_split_witness :
  let r := Sample.made (Pipeline.mkLineWork "{u1}" false) in
  let cfg := getGroupConfig "day,model" in
  ParseGroupKey dayModelConfig (BuildGroupKey dayModelConfig r)
  = [Rec.Timestamp r; Rec.PricingKey r] /\
  List.length (ParseGroupKey cfg (BuildGroupKey cfg r))
  = List.length (LabelColumns cfg).
Proof.
  apply (worker_keys_split Sample.entryOf Sample.asciiLower (FixedZone 7200)
           (Pipeline.mkLineWork "{u1}" false)
           (Sample.made (Pipeline.mkLineWork "{u1}" false)) "day,model");
    [vm_compute; reflexivity|discriminate|discriminate].
Defined.

Lemma hour_and_weekday_keys_sort_in_time_order_witness :
  let r1 := Sample.made (Pipeline.mkLineWork "{u10}" false) in
  let r2 := Sample.made (Pipeline.mkLineWork "{u2}" true) in
  let hour := getGroupConfig "hour" in
  let weekday := getGroupConfig "weekday" in
  shouldSwap hour (BuildGroupKey hour r1) (BuildGroupKey hour r2)
  = (Hour (Rec.FullTimestamp r2) <? Hour (Rec.FullTimestamp r1)) /\
  shouldSwap weekday (BuildGroupKey weekday r1) (BuildGroupKey weekday r2)
  = (mondayFirst (Weekday (Rec.FullTimestamp r2))
     <? mondayFirst (Weekday (Rec.FullTimestamp r1))).
Proof.
  apply (hour_and_weekday_keys_sort_in_time_order Sample.entryOf Sample.asciiLower
           (FixedZone 7200)
           (Pipeline.mkLineWork "{u10}" false) (Pipeline.mkLineWork "{u2}" true));
    vm_compute; reflexivity.
Defined.

Lemma accumulator_receives_only_priced_lines_witness :
  let r := Sample.made (Pipeline.mkLineWork "{u1}" false) in
  exists f line entry,
    In f Sample.logFiles /\ In line (Sample.twoLines (Pipeline.Path f)) /\
    Sample.entryOf line = Some entry /\
    PricingFacts.priceable Sample.asciiLower (Some (Message entry)) /\
    Rec.RawLine r = line /\
    Rec.FromHistory r = Pipeline.FileFromHistory f /\
    In (Rec.PricingKey r) knownKeys.
Proof.
  apply (accumulator_receives_only_priced_lines Sample.entryOf Sample.asciiLower
           (FixedZone 7200) Sample.twoLines 1000 1000 Sample.logFiles 1 1
           Sample.toTheEnd (Sample.made (Pipeline.mkLineWork "{u1}" false))).
  vm_compute. tauto.
Defined.

End WorkerFacts.

(** ** The sign of the costs *)

Module CostSignFacts.

Import Pricing.
Local Open Scope Z_scope.

(** Zero, a positive number or plus infinity. *)
Definition nonneg (x : spec_float) : Prop :=
  match x with
  | S754_zero false | S754_infinity false | S754_finite false _ _ => True
  | _ => False
  end.

(** A positive number. *)
Definition positive_finite (x : spec_float) : Prop :=
  match x with
  | S754_finite false _ _ => True
  | _ => False
  end.

Section Rounding.

Variables prec emax : Z.

Lemma shr_1_nonneg mrs : 0 <= shr_m mrs -> 0 <= shr_m (shr_1 mrs).
Proof. destruct mrs as [[|[p|p|]|p] r s]; cbn; lia. Qed.

Lemma iter_pos_nonneg n mrs :
  0 <= shr_m mrs -> 0 <= shr_m (SpecFloat.iter_pos shr_1 n mrs).
Proof.
  revert mrs. induction n as [n IH|n IH|]; intros mrs H; cbn [SpecFloat.iter_pos].
  - apply IH, IH, shr_1_nonneg, H.
  - apply IH, IH, H.
  - apply shr_1_nonneg, H.
Qed.

Lemma shr_fexp_nonneg m e l :
  0 <= m -> 0 <= shr_m (fst (shr_fexp prec emax m e l)).
Proof.
  intros H. unfold shr_fexp, shr.
  assert (H0 : 0 <= shr_m (shr_record_of_loc m l)) by (destruct l as [|[]]; exact H).
  destruct (_ - e); cbn [fst]; [exact H0| |exact H0].
  now apply iter_pos_nonneg.
Qed.

Lemma round_nearest_even_nonneg m l : 0 <= m -> 0 <= round_nearest_even m l.
Proof.
  intros H. destruct l as [|[]]; cbn [round_nearest_even]; try lia.
  destruct (Z.even m); lia.
Qed.

Lemma binary_round_aux_nonneg mx ex lx :
  0 <= mx -> nonneg (binary_round_aux prec emax false mx ex lx).
Proof.
  intros H. unfold binary_round_aux.
  pose proof (shr_fexp_nonneg mx ex lx H) as H1.
  destruct (shr_fexp prec emax mx ex lx) as [mrs' e']. cbn [fst] in H1.
  pose proof (shr_fexp_nonneg _ e' loc_Exact
                (round_nearest_even_nonneg _ (loc_of_shr_record mrs') H1)) as H2.
  destruct (shr_fexp prec emax _ e' loc_Exact) as [mrs'' e'']. cbn [fst] in H2.
  destruct (shr_m mrs'') as [|m|m]; [exact I| |lia].
  now destruct (e'' <=? emax - prec).
Qed.

Lemma binary_normalize_nonneg m e :
  0 <= m -> nonneg (binary_normalize prec emax m e false).
Proof.
  intros H. destruct m as [|m|m]; [exact I| |lia].
  cbn [binary_normalize]. unfold binary_round.
  destruct (shl_align _ _ _) as [mz ez]. now apply binary_round_aux_nonneg.
Qed.

Lemma SFmul_nonneg x y :
  nonneg x -> positive_finite y -> nonneg (SFmul prec emax x y).
Proof.
  destruct x as [[|]|[|]| |[|] mx ex], y as [[|]|[|]| |[|] my ey];
    cbn [nonneg positive_finite SFmul xorb]; try tauto.
  intros _ _. now apply binary_round_aux_nonneg.
Qed.

Lemma SFdiv_nonneg x y :
  nonneg x -> positive_finite y -> nonneg (SFdiv prec emax x y).
Proof.
  destruct x as [[|]|[|]| |[|] mx ex], y as [[|]|[|]| |[|] my ey];
    cbn [nonneg positive_finite SFdiv xorb]; try tauto.
  intros _ _. unfold SFdiv_core_binary. cbv zeta.
  set (m' := match _ - _ - _ with Z0 => Z.pos mx | Z.pos _ => _ | Z.neg _ => 0 end).
  assert (Hm : 0 <= m').
  { subst m'. destruct (_ - _ - _) as [|s|s]; try lia.
    apply Z.shiftl_nonneg. lia. }
  pose proof (Z.div_pos m' (Z.pos my) Hm ltac:(lia)) as Hq.
  unfold Z.div in Hq. destruct (Z.div_eucl m' (Z.pos my)) as [q r]. cbn [fst] in Hq.
  now apply binary_round_aux_nonneg.
Qed.

Lemma SFadd_nonneg x y : nonneg x -> nonneg y -> nonneg (SFadd prec emax x y).
Proof.
  destruct x as [[|]|[|]| |[|] mx ex], y as [[|]|[|]| |[|] my ey];
    cbn [nonneg SFadd cond_Zopp]; try tauto.
  intros _ _. apply binary_normalize_nonneg. lia.
Qed.

End Rounding.

Lemma mul_nonneg x y :
  nonneg (Prim2SF x) -> positive_finite (Prim2SF y) -> nonneg (Prim2SF (x * y)).
Proof. rewrite FloatAxioms.mul_spec. apply SFmul_nonneg. Qed.

Lemma div_nonneg x y :
  nonneg (Prim2SF x) -> positive_finite (Prim2SF y) -> nonneg (Prim2SF (x / y)).
Proof. rewrite FloatAxioms.div_spec. apply SFdiv_nonneg. Qed.

Lemma add_nonneg x y :
  nonneg (Prim2SF x) -> nonneg (Prim2SF y) -> nonneg (Prim2SF (x + y)).
Proof. rewrite FloatAxioms.add_spec. apply SFadd_nonneg. Qed.

Lemma leb_nonneg x : nonneg (Prim2SF x) -> (0 <=? x)%float = true.
Proof.
  rewrite FloatAxioms.leb_spec. change (Prim2SF 0) with (S754_zero false).
  now destruct (Prim2SF x) as [[|]|[|]| |[|] m e].
Qed.

Lemma ofInt_nonneg n : 0 <= n -> nonneg (Prim2SF (ofInt n)).
Proof.
  intros Hn. unfold ofInt.
  destruct (Z.eqb_spec n (- GoInt.two63)) as [E|_].
  { exfalso. revert E. unfold GoInt.two63. lia. }
  destruct (Z.ltb_spec n 0); [lia|].
  rewrite FloatAxioms.of_uint63_spec. apply binary_normalize_nonneg.
  apply Uint63.to_Z_bounded.
Qed.

Definition positive_rates (p : ModelPricing) : Prop :=
  positive_finite (Prim2SF (Input p)) /\
  positive_finite (Prim2SF (Cache5mWrite p)) /\
  positive_finite (Prim2SF (Cache1hWrite p)) /\
  positive_finite (Prim2SF (CacheRead p)) /\
  positive_finite (Prim2SF (Output p)).

Lemma table_rates_positive key : In key knownKeys -> positive_rates (pricingOf key).
Proof.
  unfold knownKeys. cbn [In].
  intros [<-|[<-|[<-|[<-|[<-|[<-|[<-|[]]]]]]]]; vm_compute; tauto.
Qed.

Lemma costOf_nonneg tokens rate :
  0 <= tokens -> positive_finite (Prim2SF rate) ->
  nonneg (Prim2SF (costOf tokens rate)).
Proof.
  intros Ht Hr. unfold costOf. apply mul_nonneg; [|exact Hr].
  apply div_nonneg; [now apply ofInt_nonneg|]. vm_compute. exact I.
Qed.

Section Lower.

Variable ToLower : string -> string.

(** No token count of the message is negative. *)
Definition counts_nonneg (msg : option Message) : Prop :=
  forall m usage, msg = Some m -> Usage m = Some usage ->
    0 <= InputTokens usage /\ 0 <= OutputTokens usage /\
    0 <= CacheReadInputTokens usage /\
    forall cc, CacheCreation usage = Some cc ->
      0 <= Ephemeral5mInputTokens cc /\ 0 <= Ephemeral1hInputTokens cc.

(** No cost is negative: when no token count of the message is
    negative, each of the four costs [CalculateCost] reports and their
    total are at least zero, and so none of them is a NaN. *)
Theorem costs_are_never_negative msg :
  counts_nonneg msg ->
  let c := CalculateCost ToLower msg in
  (0 <=? inputCost c)%float = true /\ (0 <=? outputCost c)%float = true /\
  (0 <=? cacheReadCost c)%float = true /\ (0 <=? cacheWriteCost c)%float = true /\
  (0 <=? cost c)%float = true.
Proof.
  intros Hc.
  destruct (PricingFacts.CalculateCost_cases ToLower msg)
    as [(m & usage & model & key & -> & Hu & Hm & Hn & Hk & Hg)|[_ E]].
  2:{ cbv zeta. rewrite E. repeat split. }
  destruct (Hc m usage eq_refl Hu) as (Hi & Ho & Hr & Hcc).
  destruct (PricingFacts.CalculateCost_priced ToLower m usage model key Hu Hm Hg)
    as (_ & _ & _ & _ & _ & Ei & Eo & Er & Ew & Et).
  destruct (table_rates_positive key Hk) as (Pi & P5 & P1 & Pr & Po).
  cbv zeta.
  set (c := CalculateCost ToLower (Some m)) in *.
  assert (Ni : nonneg (Prim2SF (inputCost c))) by (rewrite Ei; now apply costOf_nonneg).
  assert (No : nonneg (Prim2SF (outputCost c))) by (rewrite Eo; now apply costOf_nonneg).
  assert (Nr : nonneg (Prim2SF (cacheReadCost c))) by (rewrite Er; now apply costOf_nonneg).
  assert (Nw : nonneg (Prim2SF (cacheWriteCost c))).
  { rewrite Ew. destruct (CacheCreation usage) as [cc|]; [|exact I].
    destruct (Hcc cc eq_refl) as [H5 H1].
    apply add_nonneg; [apply add_nonneg; [exact I|]|]; now apply costOf_nonneg. }
  assert (Nt : nonneg (Prim2SF (cost c))).
  { rewrite Et. repeat apply add_nonneg; assumption. }
  repeat split; now apply leb_nonneg.
Qed.

End Lower.

Lemma costs_are_never_negative_witness :
  let c := CalculateCost Sample.asciiLower (Some Sample.sonnetMessage) in
  (0 <=? inputCost c)%float = true /\ (0 <=? outputCost c)%float = true /\
  (0 <=? cacheReadCost c)%float = true /\ (0 <=? cacheWriteCost c)%float = true /\
  (0 <=? cost c)%float = true.
Proof.
  apply (costs_are_never_negative Sample.asciiLower (Some Sample.sonnetMessage)).
  intros m usage [= <-] [= <-]. cbn.
  split; [lia|]. split; [lia|]. split; [lia|]. intros cc E. discriminate E.
Defined.

End CostSignFacts.

(** ** The order of the day keys *)

Module DayOrderFacts.

Import GoTime Strs Pricing Worker Group.
Local Open Scope string_scope.
Local Open Scope Z_scope.

(** Dates in the order of the calendar. *)
Definition dateLt (a b : Z * Z * Z) : Prop :=
  let '(y1, m1, d1) := a in
  let '(y2, m2, d2) := b in
  y1 < y2 \/ (y1 = y2 /\ (m1 < m2 \/ (m1 = m2 /\ d1 < d2))).

Definition yoeOf (doe : Z) : Z :=
  (doe - doe / 1460 + doe / 36524 - doe / 146096) / 365.

Lemma yoeOf_mono doe1 doe2 :
  0 <= doe1 <= doe2 -> doe2 < 146097 -> yoeOf doe1 <= yoeOf doe2.
Proof. unfold yoeOf. intros H1 H2. Z.div_mod_to_equations; lia. Qed.

Lemma mp_mono doy1 doy2 :
  0 <= doy1 <= doy2 -> (5 * doy1 + 2) / 153 <= (5 * doy2 + 2) / 153.
Proof. intros H. Z.div_mod_to_equations; lia. Qed.

Lemma civilFromDays_increasing z1 z2 :
  z1 < z2 -> dateLt (civilFromDays z1) (civilFromDays z2).
Proof.
  intros Hz. unfold civilFromDays. cbv zeta.
  pose proof (CalendarFacts.era_split z1) as Hdoe1. cbv zeta in Hdoe1.
  pose proof (CalendarFacts.era_split z2) as Hdoe2. cbv zeta in Hdoe2.
  assert (Hera : (z1 + 719468) / 146097 <= (z2 + 719468) / 146097)
    by (apply Z.div_le_mono; lia).
  set (era1 := (z1 + 719468) / 146097) in *.
  set (era2 := (z2 + 719468) / 146097) in *.
  set (doe1 := z1 + 719468 - era1 * 146097) in *.
  set (doe2 := z2 + 719468 - era2 * 146097) in *.
  pose proof (CalendarFacts.era_bounds doe1 Hdoe1) as Hb1. cbv zeta in Hb1.
  pose proof (CalendarFacts.era_bounds doe2 Hdoe2) as Hb2. cbv zeta in Hb2.
  fold (yoeOf doe1) in *. fold (yoeOf doe2) in *.
  assert (Hyoe : era1 = era2 -> yoeOf doe1 <= yoeOf doe2).
  { intros E. apply yoeOf_mono; subst doe1 doe2; lia. }
  set (yoe1 := yoeOf doe1) in *. set (yoe2 := yoeOf doe2) in *.
  set (doy1 := doe1 - (365 * yoe1 + yoe1 / 4 - yoe1 / 100)) in *.
  set (doy2 := doe2 - (365 * yoe2 + yoe2 / 4 - yoe2 / 100)) in *.
  assert (Hdoy : era1 = era2 -> yoe1 = yoe2 -> doy1 < doy2).
  { intros E1 E2. subst doy1 doy2 doe1 doe2. rewrite E1, E2. lia. }
  assert (Hmp : era1 = era2 -> yoe1 = yoe2 ->
                (5 * doy1 + 2) / 153 <= (5 * doy2 + 2) / 153).
  { intros E1 E2. apply mp_mono. specialize (Hdoy E1 E2). lia. }
  set (mp1 := (5 * doy1 + 2) / 153) in *.
  set (mp2 := (5 * doy2 + 2) / 153) in *.
  destruct Hb1 as (Hy1 & Hdy1 & Hm1 & Hd1). destruct Hb2 as (Hy2 & Hdy2 & Hm2 & Hd2).
  assert (Hd : era1 = era2 -> yoe1 = yoe2 -> mp1 = mp2 ->
               doy1 - (153 * mp1 + 2) / 5 + 1 < doy2 - (153 * mp2 + 2) / 5 + 1).
  { intros E1 E2 E3. rewrite E3. specialize (Hdoy E1 E2). lia. }
  clearbody mp1 mp2 doy1 doy2 yoe1 yoe2 doe1 doe2 era1 era2.
  set (d1 := doy1 - (153 * mp1 + 2) / 5 + 1) in *.
  set (d2 := doy2 - (153 * mp2 + 2) / 5 + 1) in *.
  clearbody d1 d2.
  unfold dateLt.
  destruct (Z.ltb_spec mp1 10), (Z.ltb_spec mp2 10);
    repeat match goal with
           | |- context [if ?b <=? 2 then _ else _] => destruct (Z.leb_spec b 2)
           end; lia.
Qed.

(** Dates compared field by field. *)
Definition dateCompare (a b : Z * Z * Z) : comparison :=
  let '(y1, m1, d1) := a in
  let '(y2, m2, d2) := b in
  match y1 ?= y2 with
  | Eq => match m1 ?= m2 with Eq => d1 ?= d2 | c => c end
  | c => c
  end.

Lemma dateCompare_Lt a b : dateLt a b -> dateCompare a b = Lt.
Proof.
  destruct a as [[y1 m1] d1], b as [[y2 m2] d2]. unfold dateLt, dateCompare.
  intros H. destruct (Z.compare_spec y1 y2); [|reflexivity|lia].
  destruct (Z.compare_spec m1 m2); [|reflexivity|lia].
  apply Z.compare_lt_iff. lia.
Qed.

Lemma dateCompare_Gt a b : dateLt b a -> dateCompare a b = Gt.
Proof.
  destruct a as [[y1 m1] d1], b as [[y2 m2] d2]. unfold dateLt, dateCompare.
  intros H. destruct (Z.compare_spec y1 y2); [|lia|reflexivity].
  destruct (Z.compare_spec m1 m2); [|lia|reflexivity].
  apply Z.compare_gt_iff. lia.
Qed.

Lemma dateCompare_refl a : dateCompare a a = Eq.
Proof.
  destruct a as [[y m] d]. unfold dateCompare. now rewrite !Z.compare_refl.
Qed.

(** The string of a list of digits. *)
Fixpoint fixed (ds : list Z) : string :=
  match ds with
  | [] => ""
  | d :: rest => String (digitChar d) (fixed rest)
  end.

Fixpoint lexZ (a b : list Z) : comparison :=
  match a, b with
  | x :: a', y :: b' => match x ?= y with Eq => lexZ a' b' | c => c end
  | _, _ => Eq
  end.

Definition digit (d : Z) : Prop := 0 <= d <= 9.

Definition upTo (n : Z) : list Z := List.map Z.of_nat (List.seq 0 (Z.to_nat n)).

Lemma in_upTo n x : 0 <= x < n -> In x (upTo n).
Proof.
  intros Hx. apply List.in_map_iff. exists (Z.to_nat x).
  split; [lia|]. apply List.in_seq. lia.
Qed.

Lemma digit_compare_checked :
  forallb (fun a => forallb (fun b =>
    match Ascii.compare (digitChar a) (digitChar b), a ?= b with
    | Eq, Eq | Lt, Lt | Gt, Gt => true
    | _, _ => false
    end) (upTo 10)) (upTo 10) = true.
Proof. vm_compute. reflexivity. Qed.

Lemma digit_compare a b :
  digit a -> digit b -> Ascii.compare (digitChar a) (digitChar b) = (a ?= b).
Proof.
  intros Ha Hb. pose proof digit_compare_checked as H.
  rewrite List.forallb_forall in H.
  specialize (H a (in_upTo 10 a ltac:(unfold digit in Ha; lia))).
  rewrite List.forallb_forall in H.
  specialize (H b (in_upTo 10 b ltac:(unfold digit in Hb; lia))).
  destruct (Ascii.compare _ _), (a ?= b); (reflexivity || discriminate H).
Qed.

Lemma compare_fixed ds1 ds2 s t :
  Forall2 (fun a b => digit a /\ digit b) ds1 ds2 ->
  String.compare (String.append (fixed ds1) s) (String.append (fixed ds2) t)
  = match lexZ ds1 ds2 with Eq => String.compare s t | c => c end.
Proof.
  induction 1 as [|a b ds1 ds2 [Ha Hb] _ IH]; [reflexivity|].
  cbn [fixed lexZ]. rewrite !StrFacts.append_cons. cbn [String.compare].
  rewrite (digit_compare a b Ha Hb). now destruct (a ?= b).
Qed.

Definition yearDigits (x : Z) : list Z :=
  [x / 1000; x / 100 mod 10; x / 10 mod 10; x mod 10].

Definition twoDigits (x : Z) : list Z := [x / 10; x mod 10].

Lemma year_checked :
  forallb (fun x => String.eqb (appendInt x 4) (fixed (yearDigits x))) (upTo 10000)
  = true.
Proof. vm_compute. reflexivity. Qed.

Lemma two_checked :
  forallb (fun x => String.eqb (appendInt x 2) (fixed (twoDigits x))) (upTo 100)
  = true.
Proof. vm_compute. reflexivity. Qed.

Lemma appendInt_year x : 0 <= x <= 9999 -> appendInt x 4 = fixed (yearDigits x).
Proof.
  intros Hx. pose proof year_checked as H. rewrite List.forallb_forall in H.
  apply String.eqb_eq, H, in_upTo. lia.
Qed.

Lemma appendInt_two x : 0 <= x <= 99 -> appendInt x 2 = fixed (twoDigits x).
Proof.
  intros Hx. pose proof two_checked as H. rewrite List.forallb_forall in H.
  apply String.eqb_eq, H, in_upTo. lia.
Qed.

Lemma yearDigits_digits x y :
  0 <= x <= 9999 -> 0 <= y <= 9999 ->
  Forall2 (fun a b => digit a /\ digit b) (yearDigits x) (yearDigits y).
Proof.
  intros Hx Hy. unfold yearDigits, digit.
  repeat constructor; Z.div_mod_to_equations; lia.
Qed.

Lemma twoDigits_digits x y :
  0 <= x <= 99 -> 0 <= y <= 99 ->
  Forall2 (fun a b => digit a /\ digit b) (twoDigits x) (twoDigits y).
Proof.
  intros Hx Hy. unfold twoDigits, digit.
  repeat constructor; Z.div_mod_to_equations; lia.
Qed.

Lemma lexZ_two x y : lexZ (twoDigits x) (twoDigits y) = (x ?= y).
Proof.
  unfold twoDigits. cbn [lexZ].
  destruct (Z.compare_spec (x / 10) (y / 10)) as [E|L|G].
  - destruct (Z.compare_spec (x mod 10) (y mod 10)) as [E0|L0|G0]; symmetry.
    + apply Z.compare_eq_iff. Z.div_mod_to_equations; lia.
    + apply Z.compare_lt_iff. Z.div_mod_to_equations; lia.
    + apply Z.compare_gt_iff. Z.div_mod_to_equations; lia.
  - symmetry. apply Z.compare_lt_iff. Z.div_mod_to_equations; lia.
  - symmetry. apply Z.compare_gt_iff. Z.div_mod_to_equations; lia.
Qed.

Lemma lexZ_year x y : lexZ (yearDigits x) (yearDigits y) = (x ?= y).
Proof.
  unfold yearDigits. cbn [lexZ].
  destruct (Z.compare_spec (x / 1000) (y / 1000)) as [E3|L|G];
    [|symmetry; apply Z.compare_lt_iff; Z.div_mod_to_equations; lia
     |symmetry; apply Z.compare_gt_iff; Z.div_mod_to_equations; lia].
  destruct (Z.compare_spec (x / 100 mod 10) (y / 100 mod 10)) as [E2|L|G];
    [|symmetry; apply Z.compare_lt_iff; Z.div_mod_to_equations; lia
     |symmetry; apply Z.compare_gt_iff; Z.div_mod_to_equations; lia].
  destruct (Z.compare_spec (x / 10 mod 10) (y / 10 mod 10)) as [E1|L|G];
    [|symmetry; apply Z.compare_lt_iff; Z.div_mod_to_equations; lia
     |symmetry; apply Z.compare_gt_iff; Z.div_mod_to_equations; lia].
  destruct (Z.compare_spec (x mod 10) (y mod 10)) as [E0|L|G]; symmetry;
    [apply Z.compare_eq_iff|apply Z.compare_lt_iff|apply Z.compare_gt_iff];
    Z.div_mod_to_equations; lia.
Qed.

(** The text of a date, as [FormatDate] writes it. *)
Definition dateText (c : Z * Z * Z) : string :=
  let '(y, m, d) := c in
  String.append (appendInt y 4)
    (String dash (String.append (appendInt m 2) (String dash (appendInt d 2)))).

Definition fourDigits (c : Z * Z * Z) : Prop :=
  let '(y, m, d) := c in 0 <= y <= 9999 /\ 1 <= m <= 12 /\ 1 <= d <= 31.

(** Dates with a year of four digits compare as their texts do. *)
Lemma compare_dateText a b :
  fourDigits a -> fourDigits b ->
  String.compare (dateText a) (dateText b) = dateCompare a b.
Proof.
  destruct a as [[y1 m1] d1], b as [[y2 m2] d2].
  intros (Hy1 & Hm1 & Hd1) (Hy2 & Hm2 & Hd2). unfold dateText, dateCompare.
  rewrite (appendInt_year y1 Hy1), (appendInt_year y2 Hy2).
  rewrite (appendInt_two m1), (appendInt_two m2) by lia.
  rewrite <- (StrFacts.append_empty_r (appendInt d1 2)),
          <- (StrFacts.append_empty_r (appendInt d2 2)).
  rewrite (appendInt_two d1), (appendInt_two d2) by lia.
  rewrite compare_fixed by now apply yearDigits_digits.
  rewrite lexZ_year. destruct (y1 ?= y2); try reflexivity.
  cbn [String.compare]. change (Ascii.compare dash dash) with Eq. cbv iota.
  rewrite compare_fixed by (apply twoDigits_digits; lia).
  rewrite lexZ_two. destruct (m1 ?= m2); try reflexivity.
  cbn [String.compare]. change (Ascii.compare dash dash) with Eq. cbv iota.
  rewrite compare_fixed by (apply twoDigits_digits; lia).
  rewrite lexZ_two. now destruct (d1 ?= d2).
Qed.

(** The day of [t] on the wall clock of its location, counted from
    1970-01-01, and the year of that day. *)
Definition localDay (t : Time) : Z := wallSec t / secondsPerDay.

Definition year (t : Time) : Z := fst (fst (Date_of t)).

Lemma FormatDate_text t : FormatDate t = dateText (Date_of t).
Proof. unfold FormatDate, dateText. now destruct (Date_of t) as [[y m] d]. Qed.

Lemma Date_of_fourDigits t : 0 <= year t <= 9999 -> fourDigits (Date_of t).
Proof.
  unfold year. destruct (Date_of t) as [[y m] d] eqn:E. cbn [fst]. intros Hy.
  destruct (CalendarFacts.civilFromDays_bounds _ _ _ _ E) as (Hm & Hd & _).
  split; [exact Hy|]. split; assumption.
Qed.

Lemma compare_FormatDate t1 t2 :
  0 <= year t1 <= 9999 -> 0 <= year t2 <= 9999 ->
  String.compare (FormatDate t1) (FormatDate t2)
  = (localDay t1 ?= localDay t2).
Proof.
  intros H1 H2. rewrite !FormatDate_text.
  rewrite compare_dateText by now apply Date_of_fourDigits.
  unfold Date_of. fold (localDay t1). fold (localDay t2).
  destruct (Z.compare_spec (localDay t1) (localDay t2)) as [E|L|G].
  - rewrite E. apply dateCompare_refl.
  - now apply dateCompare_Lt, civilFromDays_increasing.
  - now apply dateCompare_Gt, civilFromDays_increasing.
Qed.

Lemma compare_refl s : String.compare s s = Eq.
Proof.
  pose proof (String.compare_antisym s s) as H.
  destruct (String.compare s s); [reflexivity|discriminate H|discriminate H].
Qed.

Lemma eqb_FormatDate t1 t2 :
  0 <= year t1 <= 9999 -> 0 <= year t2 <= 9999 ->
  String.eqb (FormatDate t1) (FormatDate t2) = (localDay t1 =? localDay t2).
Proof.
  intros H1 H2. pose proof (compare_FormatDate t1 t2 H1 H2) as Hc.
  destruct (String.eqb_spec (FormatDate t1) (FormatDate t2)) as [E|N].
  - rewrite E, compare_refl in Hc. symmetry in Hc. apply Z.compare_eq_iff in Hc.
    symmetry. now apply Z.eqb_eq.
  - symmetry. apply Z.eqb_neq. intros E. apply N.
    rewrite E, Z.compare_refl in Hc. now apply String.compare_eq_iff.
Qed.

Lemma strGt_FormatDate t1 t2 :
  0 <= year t1 <= 9999 -> 0 <= year t2 <= 9999 ->
  strGt (FormatDate t1) (FormatDate t2) = (localDay t2 <? localDay t1).
Proof.
  intros H1 H2. unfold strGt. rewrite (compare_FormatDate t1 t2 H1 H2).
  rewrite Z.ltb_compare, (Z.compare_antisym (localDay t1) (localDay t2)).
  now destruct (localDay t1 ?= localDay t2).
Qed.

Lemma Split_day_model a b :
  hasByte bar a = false -> hasByte bar b = false ->
  Split (a ++ "|" ++ b) bar = [a; b].
Proof. apply (SortFacts.Split_two a b bar). Qed.

Section Worker.

Variable decode : string -> option ConversationEntry.
Variable ToLower : string -> string.
Variable local : Location.

Local Abbreviation lineWorker := (Worker.lineWorker decode ToLower local).

(** The day keys sort by date.  For two records of the line workers
    whose local dates have years from 0 to 9999, [sortKeys] exchanges
    the keys by day exactly when the first record's day is the later
    one; and the keys by day and model exactly when the first record's
    day is the later one, or the days are the same and the first
    pricing key is the greater string. *)
Theorem day_keys_sort_by_date work1 work2 r1 r2 :
  lineWorker work1 = Some r1 -> lineWorker work2 = Some r2 ->
  0 <= year (Rec.FullTimestamp r1) <= 9999 ->
  0 <= year (Rec.FullTimestamp r2) <= 9999 ->
  let day := getGroupConfig "day" in
  let dayModel := getGroupConfig "day,model" in
  let day1 := localDay (Rec.FullTimestamp r1) in
  let day2 := localDay (Rec.FullTimestamp r2) in
  shouldSwap day (BuildGroupKey day r1) (BuildGroupKey day r2) = (day2 <? day1) /\
  shouldSwap dayModel (BuildGroupKey dayModel r1) (BuildGroupKey dayModel r2)
  = if day1 =? day2 then strGt (Rec.PricingKey r1) (Rec.PricingKey r2)
    else day2 <? day1.
Proof.
  intros H1 H2 Hy1 Hy2.
  destruct (WorkerFacts.lineWorker_cases decode ToLower local work1)
    as [(e1 & r1' & _ & _ & E1 & Hr1)|[E1 _]]; rewrite E1 in H1; [|discriminate].
  injection H1 as ->.
  destruct (WorkerFacts.lineWorker_cases decode ToLower local work2)
    as [(e2 & r2' & _ & _ & E2 & Hr2)|[E2 _]]; rewrite E2 in H2; [|discriminate].
  injection H2 as ->.
  destruct Hr1 as (_&_&_& Hk1 &_&_&_&_&_& Hf1 & Ht1 &_).
  destruct Hr2 as (_&_&_& Hk2 &_&_&_&_&_& Hf2 & Ht2 &_).
  rewrite <- Hf1 in Ht1. rewrite <- Hf2 in Ht2.
  cbv zeta. split.
  - change (getGroupConfig "day") with dayConfig.
    unfold shouldSwap, getSortKey. cbn [Hierarchical SortKey dayConfig BuildGroupKey].
    rewrite Ht1, Ht2. now apply strGt_FormatDate.
  - change (getGroupConfig "day,model") with dayModelConfig.
    unfold shouldSwap. cbn [Hierarchical dayModelConfig BuildGroupKey ParseGroupKey].
    rewrite !Split_day_model;
      try (now apply WorkerFacts.knownKeys_no_bar);
      try (rewrite ?Ht1, ?Ht2; apply WorkerFacts.FormatDate_no_bar).
    cbn [firstDifferenceGt]. rewrite Ht1, Ht2.
    rewrite (eqb_FormatDate _ _ Hy1 Hy2), (strGt_FormatDate _ _ Hy1 Hy2).
    destruct (Z.eqb_spec (localDay (Rec.FullTimestamp r1))
                (localDay (Rec.FullTimestamp r2))) as [E|N]; [|reflexivity].
    destruct (String.eqb (Rec.PricingKey r1) (Rec.PricingKey r2)) eqn:Ek;
      [|reflexivity].
    apply String.eqb_eq in Ek. rewrite Ek. unfold strGt.
    now rewrite compare_refl.
Qed.

End Worker.

Lemma day_keys_sort_by_date_witness :
  let r1 := Sample.made (Pipeline.mkLineWork "{u-with-enough-bytes-for-the-next-day}" false) in
  let r2 := Sample.made (Pipeline.mkLineWork "{u2}" true) in
  let day := getGroupConfig "day" in
  let dayModel := getGroupConfig "day,model" in
  let day1 := localDay (Rec.FullTimestamp r1) in
  let day2 := localDay (Rec.FullTimestamp r2) in
  shouldSwap day (BuildGroupKey day r1) (BuildGroupKey day r2) = (day2 <? day1) /\
  shouldSwap dayModel (BuildGroupKey dayModel r1) (BuildGroupKey dayModel r2)
  = if day1 =? day2 then strGt (Rec.PricingKey r1) (Rec.PricingKey r2)
    else day2 <? day1.
Proof.
  apply (day_keys_sort_by_date Sample.entryOf Sample.asciiLower (FixedZone 7200)
           (Pipeline.mkLineWork "{u-with-enough-bytes-for-the-next-day}" false) (Pipeline.mkLineWork "{u2}" true));
    [vm_compute; reflexivity|vm_compute; reflexivity
    |vm_compute; split; discriminate|vm_compute; split; discriminate].
Defined.

End DayOrderFacts.

(** ** The display mode *)

Module DisplayFacts.

Import Display.
Local Open Scope Z_scope.

(** No text of a cell is as long as this. *)
Definition longest : Z := 2 ^ 31.

(** A token width, a cost width and the cell width of one column. *)
Definition column (t c cell : Z) : Prop :=
  0 <= t < longest /\ 0 <= c < longest /\ t <= cell <= t + 2 + c.

Definition columns (w : ColumnWidths) : Prop :=
  column (InputTokenWidth w) (InputCostWidth w) (InputCellWidth w) /\
  column (OutputTokenWidth w) (OutputCostWidth w) (OutputCellWidth w) /\
  column (CacheReadTokenWidth w) (CacheReadCostWidth w) (CacheReadCellWidth w) /\
  column (CacheWriteTokenWidth w) (CacheWriteCostWidth w) (CacheWriteCellWidth w) /\
  column (TotalTokenWidth w) (TotalCostWidth w) (TotalCellWidth w).

Lemma add_small a b : - 2 ^ 63 <= a + b < 2 ^ 63 -> GoInt.add a b = a + b.
Proof.
  intros H. unfold GoInt.add. apply GoIntFacts.wrap64_id.
  unfold GoInt.in_range, GoInt.two63. lia.
Qed.

Lemma column_atLeast t c cell tw cw :
  column t c cell -> 0 <= tw < longest -> 0 <= cw < longest ->
  column (atLeast tw t) (atLeast cw c)
    (atLeast (GoInt.add (GoInt.add tw 2) cw) cell).
Proof.
  unfold column, longest. intros (Ht & Hc & Hcell) Htw Hcw.
  rewrite (add_small tw 2), add_small by lia.
  unfold atLeast.
  destruct (Z.ltb_spec t tw), (Z.ltb_spec c cw), (Z.ltb_spec cell (tw + 2 + cw)); lia.
Qed.

Section Format.

Variable formatTokens : Z -> string.
Variable formatCost : float -> string.

Hypothesis tokens_short : forall n, Strs.len (formatTokens n) < longest.
Hypothesis cost_short : forall x, Strs.len (formatCost x) < longest.

Lemma len_nonneg s : 0 <= Strs.len s.
Proof. unfold Strs.len. lia. Qed.

Lemma widenBy_columns w m :
  columns w -> columns (widenBy formatTokens formatCost w m).
Proof.
  intros (H1 & H2 & H3 & H4 & H5). unfold columns, widenBy.
  cbn [InputTokenWidth InputCostWidth InputCellWidth OutputTokenWidth
       OutputCostWidth OutputCellWidth CacheReadTokenWidth CacheReadCostWidth
       CacheReadCellWidth CacheWriteTokenWidth CacheWriteCostWidth
       CacheWriteCellWidth TotalTokenWidth TotalCostWidth TotalCellWidth].
  split; [|split; [|split; [|split]]];
    apply column_atLeast; try assumption;
    (split; [apply len_nonneg|apply tokens_short || apply cost_short]).
Qed.

Lemma calculateColumnWidths_columns metrics :
  columns (calculateColumnWidths formatTokens formatCost metrics).
Proof.
  unfold calculateColumnWidths.
  assert (H0 : columns noWidths).
  { unfold columns, column, longest. cbn. lia. }
  revert H0. generalize noWidths.
  induction metrics as [|m metrics IH]; intros w Hw; [exact Hw|].
  cbn [fold_left]. apply IH, widenBy_columns, Hw.
Qed.

Lemma mul_small a b : - 2 ^ 63 <= a * b < 2 ^ 63 -> mul a b = a * b.
Proof.
  intros H. unfold mul. apply GoIntFacts.wrap64_id.
  unfold GoInt.in_range, GoInt.two63. lia.
Qed.

(** The width of the table in each mode, without overflow. *)
Lemma table_widths labelWidth numLabelCols w :
  columns w -> 0 <= labelWidth < 2 ^ 31 -> 0 <= numLabelCols < 2 ^ 31 ->
  calculateTableWidth labelWidth numLabelCols w DisplayWide
  = labelWidth * numLabelCols + InputCellWidth w + OutputCellWidth w
    + CacheReadCellWidth w + CacheWriteCellWidth w + TotalCellWidth w
    + (numLabelCols + 5 + 1) + (numLabelCols + 5) * 2 /\
  calculateTableWidth labelWidth numLabelCols w DisplayMedium
  = labelWidth * numLabelCols + InputTokenWidth w + OutputTokenWidth w
    + CacheReadTokenWidth w + CacheWriteTokenWidth w + TotalCellWidth w
    + (numLabelCols + 5 + 1) + (numLabelCols + 5) * 2 /\
  calculateTableWidth labelWidth numLabelCols w DisplayNarrow
  = labelWidth * numLabelCols + TotalCellWidth w
    + (numLabelCols + 1 + 1) + (numLabelCols + 1) * 2.
Proof.
  unfold columns, column, longest. intros (H1 & H2 & H3 & H4 & H5) Hl Hn.
  assert (Hm : 0 <= labelWidth * numLabelCols < 2 ^ 62) by nia.
  unfold calculateTableWidth, sum. cbn [fold_left].
  rewrite (mul_small labelWidth numLabelCols) by lia.
  rewrite (add_small numLabelCols 5) by lia.
  rewrite (add_small numLabelCols 1) by lia.
  rewrite (mul_small (numLabelCols + 5) 2) by lia.
  rewrite (mul_small (numLabelCols + 1) 2) by lia.
  repeat split;
    repeat match goal with
           | |- context [GoInt.add ?a ?b] =>
               lazymatch a with
               | context [GoInt.add _ _] => fail
               | _ =>
                   lazymatch b with
                   | context [GoInt.add _ _] => fail
                   | _ => rewrite (add_small a b) by lia
                   end
               end
           end; reflexivity.
Qed.

(** The mode chosen is the widest that fits.  For the widths that
    [calculateColumnWidths] gives, the table is narrower in the narrow
    mode than in the medium one, and not wider in the medium mode than
    in the wide one; with no limit the mode is the wide one; with a
    limit, if the table fits in any mode it fits in the chosen one, and
    no mode that fits gives a wider table. *)
Theorem chosen_mode_is_widest_that_fits metrics labelWidth numLabelCols
    maxWidthOverride termWidth :
  0 <= labelWidth < 2 ^ 31 -> 0 <= numLabelCols < 2 ^ 31 ->
  let widths := calculateColumnWidths formatTokens formatCost metrics in
  let width := calculateTableWidth labelWidth numLabelCols widths in
  let limit := if 0 <? maxWidthOverride then maxWidthOverride else termWidth in
  let mode :=
    chooseDisplayMode maxWidthOverride labelWidth numLabelCols widths termWidth in
  width DisplayNarrow < width DisplayMedium <= width DisplayWide /\
  (limit = 0 -> mode = DisplayWide) /\
  (limit <> 0 ->
   forall other, width other <= limit ->
     width mode <= limit /\ width other <= width mode).
Proof.
  intros Hl Hn widths width limit mode.
  pose proof (calculateColumnWidths_columns metrics) as Hc. fold widths in Hc.
  destruct (table_widths labelWidth numLabelCols widths Hc Hl Hn) as (Ew & Em & En).
  fold width in Ew, Em, En.
  destruct Hc as (H1 & H2 & H3 & H4 & H5). unfold column, longest in *.
  assert (Horder : width DisplayNarrow < width DisplayMedium <= width DisplayWide)
    by (rewrite Ew, Em, En; lia).
  split; [exact Horder|].
  subst mode. unfold chooseDisplayMode. fold limit. fold width.
  split.
  - intros ->. reflexivity.
  - intros Hne other Hfit.
    destruct (Z.eqb_spec limit 0) as [E|_]; [contradiction|].
    destruct (Z.leb_spec (width DisplayWide) limit) as [Hw|Hw].
    { split; [exact Hw|]. destruct other; lia. }
    destruct (Z.leb_spec (width DisplayMedium) limit) as [Hm|Hm].
    { split; [exact Hm|]. destruct other; lia. }
    destruct other; lia.
Qed.

End Format.

Lemma chosen_mode_is_widest_that_fits_witness :
  let widths :=
    calculateColumnWidths Sample.tokenText Sample.costText
      [Met.ofCost 1%float; Met.zero] in
  let width := calculateTableWidth 10 1 widths in
  let limit := if 0 <? 0 then 0 else 60 in
  let mode := chooseDisplayMode 0 10 1 widths 60 in
  width DisplayNarrow < width DisplayMedium <= width DisplayWide /\
  (limit = 0 -> mode = DisplayWide) /\
  (limit <> 0 ->
   forall other, width other <= limit ->
     width mode <= limit /\ width other <= width mode).
Proof.
  apply (chosen_mode_is_widest_that_fits Sample.tokenText Sample.costText).
  - intros n. unfold Sample.tokenText. destruct (n =? 0); vm_compute; reflexivity.
  - intros x. vm_compute. reflexivity.
  - lia.
  - lia.
Defined.

End DisplayFacts.
